(** * Confess: admission, feed and session pipeline

    A shallow embedding of the server procedures [insert_confession] and
    [get_confess_feed] (PL/pgSQL), of the client wrappers [fetchFeed] and
    [insertConfession] (TypeScript), of the [resolve_place] edge function and
    of the client session manager, with the properties the specification
    states about them.

    Conventions.
    - [TIMESTAMPTZ] values are integers counting microseconds; an
      [interval] is a number of microseconds.
    - A [UUID] is the natural number its 16 bytes spell (PostgreSQL compares
      UUIDs bytewise, which is that order).
    - PostgreSQL [TEXT] is a list of code points, so that [char_length]
      counts characters and not bytes.  The classes of the regular
      expressions are those of ASCII, extended beyond ASCII by the locale of
      the database, which is a parameter ([Pg.Locale]).
    - A nullable column or parameter is an [option].
    - [DOUBLE PRECISION] arithmetic is kept abstract (record [DoubleOps]);
      the real numbers give one instance.  Its operations are total: the
      range errors PostgreSQL raises while a near query computes a distance
      (an infinite argument of [cos] or [sin], an overflow, an underflow)
      are outside the model, and which rows the distance is computed for
      is the planner's choice.  What is stated of a near query is therefore
      stated of one that returns.
    - An [INTEGER] argument of a procedure is an integer; the 32-bit range
      is checked where a client's number is turned into one (the definition
      [Client.connected]). *)

From Stdlib Require Import ZArith NArith List Bool String Ascii Lia.
From Stdlib Require Import Reals Lra.
From stdpp Require Import gmap list sorting.

Local Open Scope Z_scope.

(** ** Session manager (client, in-memory) *)

Module Session.

(** [interface SessionState] *)
Record SessionState := mkSessionState {
  sessionId : string;
  pageFetchCount : N;
  adArmed : bool;
  adShown : bool
}.

Definition BACKGROUND_THRESHOLD_MS : Z := 10 * 60 * 1000.
Definition AD_TRIGGER_THRESHOLD : N := 4.

(** The module-level variable [state] together with the one durable cell,
    the local-storage item [lethe:lastBackgroundAt] ([None]: no item).  The
    item holds the timestamp that was written; local storage is taken to be
    available. *)
Record World := mkWorld {
  state : SessionState;
  lastBackgroundAt : option Z
}.

(** Module initialiser of [state]. *)
Definition initial_state : SessionState :=
  mkSessionState "" 0 false false.

Definition getLastBackgroundAt (w : World) : option Z := lastBackgroundAt w.

Definition setLastBackgroundAt (timestamp : Z) (w : World) : World :=
  mkWorld (state w) (Some timestamp).

Definition clearLastBackgroundAt (w : World) : World :=
  mkWorld (state w) None.

(** [startNewSession]; [fresh] is the value [generateSessionId ()] returns. *)
Definition startNewSession (fresh : string) (w : World) : World :=
  clearLastBackgroundAt
    (mkWorld (mkSessionState fresh 0 false false) (lastBackgroundAt w)).

Definition initSessionIfNeeded (fresh : string) (w : World) : World :=
  startNewSession fresh w.

(** [now] is [Date.now ()]. *)
Definition onAppBackground (now : Z) (w : World) : World :=
  setLastBackgroundAt now w.

Definition onAppForeground (now : Z) (fresh : string) (w : World) : World :=
  match getLastBackgroundAt w with
  | Some t =>
      let elapsed := now - t in
      if BACKGROUND_THRESHOLD_MS <=? elapsed
      then startNewSession fresh w
      else clearLastBackgroundAt w
  | None => w
  end.

Definition recordPageFetch (w : World) : World :=
  let s := state w in
  if adShown s then w
  else
    let count := (pageFetchCount s + 1)%N in
    let armed :=
      if negb (adArmed s) && (AD_TRIGGER_THRESHOLD <=? count)%N
      then true else adArmed s in
    mkWorld (mkSessionState (sessionId s) count armed (adShown s))
            (lastBackgroundAt w).

Definition markAdShown (w : World) : World :=
  let s := state w in
  mkWorld (mkSessionState (sessionId s) (pageFetchCount s) false true)
          (lastBackgroundAt w).

Definition isAdArmed (w : World) : bool :=
  adArmed (state w) && negb (adShown (state w)).

Definition hasAdShown (w : World) : bool := adShown (state w).

Definition getPageFetchCount (w : World) : N := pageFetchCount (state w).

(** Lifecycle events, as the application delivers them to the manager. *)
Inductive event :=
| EBackground (now : Z)
| EForeground (now : Z) (fresh : string)
| EPageFetch
| EAdShown.

Definition step (e : event) (w : World) : World :=
  match e with
  | EBackground now => onAppBackground now w
  | EForeground now fresh => onAppForeground now fresh w
  | EPageFetch => recordPageFetch w
  | EAdShown => markAdShown w
  end.

(** Does [e], delivered in [w], begin a new session? *)
Definition starts_session (e : event) (w : World) : bool :=
  match e with
  | EForeground now _ =>
      match getLastBackgroundAt w with
      | Some t => BACKGROUND_THRESHOLD_MS <=? now - t
      | None => false
      end
  | _ => false
  end.

(** The two one-shot transitions of the ad gate: the flag [adArmed] going
    from off to on, and an ad being marked shown while it was armed. *)
Definition arms (e : event) (w : World) : bool :=
  negb (adArmed (state w)) && adArmed (state (step e w)).

Definition shows_armed (e : event) (w : World) : bool :=
  match e with
  | EAdShown => isAdArmed w
  | _ => false
  end.

(** A world with the tally of both transitions since the running session
    began. *)
Record Tally := mkTally {
  world : World;
  armings : nat;
  showings : nat
}.

Definition tally_step (t : Tally) (e : event) : Tally :=
  let w := world t in
  if starts_session e w then mkTally (step e w) 0 0
  else mkTally (step e w)
         (armings t + (if arms e w then 1 else 0))%nat
         (showings t + (if shows_armed e w then 1 else 0))%nat.

Definition cold_start (fresh : string) (w : World) : Tally :=
  mkTally (initSessionIfNeeded fresh w) 0 0.

Definition run (fresh : string) (w : World) (es : list event) : Tally :=
  fold_left tally_step es (cold_start fresh w).

End Session.

(** ** PostgreSQL text functions and regular-expression operators *)

Module Pg.

(** [TEXT]: a sequence of code points. *)
Definition text := list N.

(** A literal of the source, character by character. *)
Definition lit (s : string) : text :=
  List.map N_of_ascii (list_ascii_of_string s).

Definition char_length (s : text) : Z := Z.of_nat (List.length s).

(** [btrim(s)] with one argument removes the longest run of spaces
    (U+0020, and nothing else) from both ends of [s]. *)
Fixpoint ltrim (s : text) : text :=
  match s with
  | c :: s' => if (c =? 32)%N then ltrim s' else s
  | [] => []
  end.

Definition rtrim (s : text) : text := rev (ltrim (rev s)).

Definition btrim (s : text) : text := rtrim (ltrim s).

(** [position(c IN s) > 0] for a one-character needle. *)
Definition contains_char (c : N) (s : text) : bool :=
  existsb (N.eqb c) s.

(** Character classification of the regular-expression engine on code
    points.  A range such as [[A-Z]] is a range of code points. *)
Definition in_range (lo hi c : N) : bool := ((lo <=? c) && (c <=? hi))%N.
Definition is_digit (c : N) : bool := in_range 48 57 c.
Definition is_upper (c : N) : bool := in_range 65 90 c.
Definition is_lower (c : N) : bool := in_range 97 122 c.

(** The case of a pattern's character; the patterns of the migrations
    have ASCII characters only, whose two cases are the ASCII ones (in
    every locale but those of Turkish). *)
Definition to_lower (c : N) : N := if is_upper c then (c + 32)%N else c.
Definition to_upper (c : N) : N := if is_lower c then (c - 32)%N else c.

(** [regexp_replace(s, '[^0-9]', '', 'g')] *)
Definition digits_only (s : text) : text := List.filter is_digit s.

(** The classes [\s] and word character follow the locale of the
    database.  On ASCII they are the same in every locale; of a character
    beyond ASCII the locale says whether it is white space and whether it
    is alphanumeric. *)
Class Locale := mkLocale {
  wide_space : N -> bool;
  wide_alnum : N -> bool
}.

(** The locale C, in which no character beyond ASCII is in a class. *)
Definition C_locale : Locale :=
  {| wide_space := fun _ => false; wide_alnum := fun _ => false |}.

Section Engine.
Context {L : Locale}.

Definition is_alnum (c : N) : bool :=
  is_digit c || is_upper c || is_lower c || ((128 <=? c)%N && wide_alnum c).
(** [\s]: space, tab, newline, vertical tab, form feed, carriage return,
    and the white space of the locale beyond ASCII. *)
Definition is_space (c : N) : bool :=
  (c =? 32)%N || in_range 9 13 c || ((128 <=? c)%N && wide_space c).
(** A word character is an alphanumeric or an underscore. *)
Definition is_word (c : N) : bool := is_alnum c || (c =? 95)%N.

(** The fragment of advanced regular expressions the migrations use. *)
Inductive atom :=
| AChar (c : N)            (* an ordinary character *)
| ARange (lo hi : N)       (* [lo-hi] *)
| ASpace.                  (* \s *)

Inductive regex :=
| REmpty                    (* the empty expression *)
| RAtom (a : atom)
| RSeq (r1 r2 : regex)
| RAlt (r1 r2 : regex)
| ROpt (r : regex)         (* r? *)
| RStar (r : regex)        (* r* *)
| RPlus (r : regex)        (* r+ *)
| RWordBegin               (* \m *)
| RWordEnd.                (* \M *)

(** [icase] is on for the operator [~*]: an ordinary character then
    matches both of its cases. *)
Definition atom_matches (icase : bool) (a : atom) (c : N) : bool :=
  match a with
  | AChar p =>
      if icase then (c =? to_lower p)%N || (c =? to_upper p)%N
      else (c =? p)%N
  | ARange lo hi =>
      if icase
      then in_range lo hi c || in_range lo hi (to_lower c)
           || in_range lo hi (to_upper c)
      else in_range lo hi c
  | ASpace => is_space c
  end.

Definition word_at (s : text) (i : nat) : bool :=
  match nth_error s i with
  | Some c => is_word c
  | None => false
  end.

(** [\m]: position [i] is followed by a word character and not preceded by
    one.  [\M]: it is preceded by a word character and not followed by one. *)
Definition word_begins (s : text) (i : nat) : bool :=
  word_at s i && match i with O => true | S j => negb (word_at s j) end.

Definition word_ends (s : text) (i : nat) : bool :=
  match i with O => false | S j => word_at s j end && negb (word_at s i).

(** Every position reachable from those of [from] by at most [n] rounds
    of [f]. *)
Fixpoint closure (n : nat) (f : nat -> list nat) (from : list nat) : list nat :=
  match n with
  | O => from
  | S n' => from ++ closure n' f (flat_map f from)
  end.

(** [ends icase s r i]: the positions [j] such that [r] matches the slice
    of [s] from [i] up to [j]. *)
Fixpoint ends (icase : bool) (s : text) (r : regex) (i : nat) : list nat :=
  match r with
  | REmpty => [i]
  | RAtom a =>
      match nth_error s i with
      | Some c => if atom_matches icase a c then [S i] else []
      | None => []
      end
  | RSeq r1 r2 => flat_map (ends icase s r2) (ends icase s r1 i)
  | RAlt r1 r2 => ends icase s r1 i ++ ends icase s r2 i
  | ROpt r1 => i :: ends icase s r1 i
  | RStar r1 => closure (List.length s) (ends icase s r1) [i]
  | RPlus r1 => closure (List.length s) (ends icase s r1) (ends icase s r1 i)
  | RWordBegin => if word_begins s i then [i] else []
  | RWordEnd => if word_ends s i then [i] else []
  end.

Definition matches_from (icase : bool) (r : regex) (s : text) (i : nat) : bool :=
  match ends icase s r i with
  | [] => false
  | _ :: _ => true
  end.

(** [s ~ r] and [s ~* r]: some slice of [s] matches [r]. *)
Definition regex_match (icase : bool) (r : regex) (s : text) : bool :=
  existsb (matches_from icase r s) (seq 0 (S (List.length s))).

End Engine.

Notation "s ~ r" := (regex_match false r s) (at level 70, no associativity).
Notation "s ~* r" := (regex_match true r s) (at level 70, no associativity).

(** A run of ordinary characters, then [k]. *)
Fixpoint chars (s : list ascii) (k : regex) : regex :=
  match s with
  | [] => k
  | c :: s' => RSeq (RAtom (AChar (N_of_ascii c))) (chars s' k)
  end.

Definition word (s : string) : regex := chars (list_ascii_of_string s) REmpty.

End Pg.

(** ** Double precision *)

(** The operations on [DOUBLE PRECISION] values that [get_confess_feed]
    uses. *)
Record DoubleOps := mkDoubleOps {
  double : Type;
  d_of_int : Z -> double;
  d_mul : double -> double -> double;
  d_add : double -> double -> double;
  d_sub : double -> double -> double;
  d_cos : double -> double;
  d_sin : double -> double;
  d_acos : double -> double;
  d_radians : double -> double;
  d_least : double -> double -> double;
  d_greatest : double -> double -> double;
  d_le : double -> double -> bool;
  (** neither NaN nor an infinity *)
  d_is_finite : double -> bool
}.

(** The same operations on real numbers. *)
Definition Rle_bool (x y : R) : bool := if Rle_dec x y then true else false.

Definition RealOps : DoubleOps := {|
  double := R;
  d_of_int := IZR;
  d_mul := Rmult;
  d_add := Rplus;
  d_sub := Rminus;
  d_cos := cos;
  d_sin := sin;
  d_acos := acos;
  d_radians := fun x => (x * (PI / 180))%R;
  d_least := Rmin;
  d_greatest := Rmax;
  d_le := Rle_bool;
  d_is_finite := fun _ => true
|}.

(** ** The confessions table *)

Module Store.
Section Rows.
Context {D : DoubleOps}.

(** One row of [confessions], after migrations 001 to 008. *)
Record confession := mkConfession {
  id : N;
  text : Pg.text;
  created_at : Z;
  expires_at : Z;
  lat : option (double D);
  lng : option (double D);
  is_hidden : option bool;
  user_id : option N
}.

(** The columns the two procedures return ([RETURNS TABLE]); the client
    type [Confession] has the same fields. *)
Record feed_row := mkFeedRow {
  r_id : N;
  r_text : Pg.text;
  r_created_at : Z;
  r_expires_at : Z;
  r_lat : option (double D);
  r_lng : option (double D)
}.

Definition select_fields (c : confession) : feed_row :=
  mkFeedRow (id c) (text c) (created_at c) (expires_at c) (lat c) (lng c).

(** [ORDER BY created_at DESC, id DESC]: [c1] may stand before [c2]. *)
Definition before_b (k1 k2 : Z * N) : bool :=
  (k2.1 <? k1.1) || ((k1.1 =? k2.1) && (k2.2 <=? k1.2)%N).

Definition sort_key (c : confession) : Z * N := (created_at c, id c).

Definition feed_order (c1 c2 : confession) : Prop :=
  before_b (sort_key c1) (sort_key c2) = true.

Global Instance feed_order_dec : RelDecision feed_order.
Proof. intros c1 c2. unfold feed_order. apply _. Defined.

Global Instance feed_order_total : Total feed_order.
Proof.
  intros c1 c2. unfold feed_order, before_b, sort_key. simpl.
  destruct (Z.ltb_spec (created_at c2) (created_at c1)); [by left|].
  destruct (Z.ltb_spec (created_at c1) (created_at c2)); [by right|].
  assert (created_at c1 = created_at c2) as -> by lia.
  rewrite Z.eqb_refl. simpl.
  destruct (N.leb_spec (id c2) (id c1)); [by left|right].
  apply N.leb_le. lia.
Qed.

Global Instance feed_order_trans : Transitive feed_order.
Proof.
  intros c1 c2 c3. unfold feed_order, before_b, sort_key. simpl.
  rewrite !orb_true_iff, !andb_true_iff, !Z.ltb_lt, !Z.eqb_eq, !N.leb_le.
  lia.
Qed.

Definition order_by_created_at_desc_id_desc
  : list confession -> list confession := merge_sort feed_order.

Definition limit (n : Z) (l : list confession) : list confession :=
  firstn (Z.to_nat n) l.

End Rows.
Arguments confession : clear implicits.
Arguments feed_row : clear implicits.
End Store.

(** ** SQL conditions *)

(** A condition evaluates to true, false or null; [WHERE] and [IF] take a
    null condition as not satisfied. *)
Module Sql.

Definition cond := option bool.

Definition and (a b : cond) : cond :=
  match a, b with
  | Some false, _ | _, Some false => Some false
  | Some true, Some true => Some true
  | _, _ => None
  end.

Definition or (a b : cond) : cond :=
  match a, b with
  | Some true, _ | _, Some true => Some true
  | Some false, Some false => Some false
  | _, _ => None
  end.

Definition is_null {A} (x : option A) : cond :=
  Some (match x with None => true | Some _ => false end).

Definition is_not_null {A} (x : option A) : cond :=
  Some (match x with None => false | Some _ => true end).

(** A comparison is null as soon as one operand is. *)
Definition cmp {A B} (f : A -> B -> bool) (x : option A) (y : option B) : cond :=
  match x, y with
  | Some a, Some b => Some (f a b)
  | _, _ => None
  end.

Definition coalesce {A} (x : option A) (d : A) : A :=
  match x with Some a => a | None => d end.

Definition holds (c : cond) : bool :=
  match c with Some true => true | _ => false end.

End Sql.

Declare Scope sql_scope.
Delimit Scope sql_scope with sql.
Infix "AND" := Sql.and (at level 40, left associativity) : sql_scope.
Infix "OR" := Sql.or (at level 50, left associativity) : sql_scope.

(** Exceptions the two procedures raise, and the text they carry. *)
Inductive pg_exception :=
| EMPTY_TEXT
| TEXT_TOO_LONG
| CONTENT_BLOCKED
| RATE_LIMIT
| NEAR_NEEDS_LAT_LNG.

Definition exception_message (e : pg_exception) : string :=
  match e with
  | EMPTY_TEXT => "EMPTY_TEXT: Confession text cannot be empty"
  | TEXT_TOO_LONG => "TEXT_TOO_LONG: Confession must be 120 characters or less"
  | CONTENT_BLOCKED =>
      "CONTENT_BLOCKED: Please keep it abstract. This looks like it might identify a real person."
  | RATE_LIMIT => "RATE_LIMIT: Please wait before posting again"
  | NEAR_NEEDS_LAT_LNG => "lat and lng are required for near mode"
  end.

(** What a call of a procedure does: it raises, leaving the table as it
    was, or returns rows and a table. *)
Inductive outcome {D : DoubleOps} :=
| Raised (e : pg_exception)
| Returned (rows : list (Store.feed_row D)) (db : list (Store.confession D)).

(** ** insert_confession (migration 008) *)

Module Admission.
Import Pg Store.

Definition seconds (n : Z) : Z := n * 1000000.
Definition hours (n : Z) : Z := seconds (n * 3600).

Definition ch (c : ascii) : regex := RAtom (AChar (N_of_ascii c)).
Definition range (lo hi : ascii) : regex :=
  RAtom (ARange (N_of_ascii lo) (N_of_ascii hi)).
(** Concatenation and alternation of several expressions. *)
Definition cat (rs : list regex) : regex := fold_right RSeq REmpty rs.
Fixpoint alt (r : regex) (rs : list regex) : regex :=
  match rs with
  | [] => r
  | r' :: rs' => RAlt r (alt r' rs')
  end.

(** ['https?://'] *)
Definition re_scheme : regex := cat [word "http"; ROpt (ch "s"); word "://"].
(** ['\mwww\.'] *)
Definition re_www : regex := cat [RWordBegin; word "www."].
(** ['\.(com|net|org|no|io|co|app)\M'] *)
Definition re_tld : regex :=
  cat [ch ".";
       alt (word "com")
         [word "net"; word "org"; word "no"; word "io"; word "co"; word "app"];
       RWordEnd].
(** ['\+\s*[0-9]'] *)
Definition re_plus_digit : regex :=
  cat [ch "+"; RStar (RAtom ASpace); range "0" "9"].
(** ['\m[A-Z][a-z]+\s+[A-Z][a-z]+\M'] *)
Definition re_two_names : regex :=
  cat [RWordBegin; range "A" "Z"; RPlus (range "a" "z");
       RPlus (RAtom ASpace);
       range "A" "Z"; RPlus (range "a" "z"); RWordEnd].

(** The five blocking conditions, in the order of the source. *)
Definition has_at (v_text : Pg.text) : bool := contains_char 64 v_text.
Definition has_url {L : Locale} (v_text : Pg.text) : bool :=
  (v_text ~* re_scheme) || (v_text ~* re_www).
Definition has_tld {L : Locale} (v_text : Pg.text) : bool := v_text ~* re_tld.
Definition has_8_digits (v_text : Pg.text) : bool :=
  let v_digits_only := digits_only v_text in
  8 <=? char_length v_digits_only.
Definition has_plus_digit {L : Locale} (v_text : Pg.text) : bool :=
  v_text ~ re_plus_digit.
Definition has_two_names {L : Locale} (v_text : Pg.text) : bool :=
  v_text ~ re_two_names.

Section WithDouble.
Context {D : DoubleOps} {L : Locale}.

(** [SELECT c.created_at FROM confessions c WHERE c.user_id = v_user_id
    ORDER BY c.created_at DESC LIMIT 1] *)
Definition posted_by (v_user_id : N) (c : confession D) : bool :=
  Sql.holds (Sql.cmp N.eqb (user_id c) (Some v_user_id)).

Definition last_post (v_user_id : N) (db : list (confession D)) : option Z :=
  head (merge_sort (flip Z.le)
          (List.map created_at (List.filter (posted_by v_user_id) db))).

(** The rate-limiting block: does it raise? *)
Definition rate_limited (v_user_id : option N) (now : Z)
    (db : list (confession D)) : bool :=
  match v_user_id with
  | Some u =>
      let v_last_post := last_post u db in
      Sql.holds (Sql.is_not_null v_last_post AND
                 Sql.cmp Z.gtb v_last_post (Some (now - seconds 15)))%sql
  | None => false
  end.

(** [insert_confession].  [auth_uid] is what [auth.uid()] returns, [now]
    what [now()] returns and [new_id] the identifier [gen_random_uuid()]
    gives the inserted row. *)
Definition insert_confession (auth_uid : option N) (now : Z) (new_id : N)
    (db : list (confession D))
    (p_text p_place_label : option Pg.text) (p_lat p_lng : option (double D))
    : outcome :=
  let v_user_id := auth_uid in
  match option_map btrim p_text with
  | None => Raised EMPTY_TEXT
  | Some v_text =>
      if match v_text with [] => true | _ => false end then Raised EMPTY_TEXT
      else if 120 <? char_length v_text then Raised TEXT_TOO_LONG
      else if has_at v_text then Raised CONTENT_BLOCKED
      else if has_url v_text then Raised CONTENT_BLOCKED
      else if has_tld v_text then Raised CONTENT_BLOCKED
      else if has_8_digits v_text then Raised CONTENT_BLOCKED
      else if has_plus_digit v_text then Raised CONTENT_BLOCKED
      else if has_two_names v_text then Raised CONTENT_BLOCKED
      else if rate_limited v_user_id now db then Raised RATE_LIMIT
      else
        let db' :=
          db ++ [mkConfession new_id v_text now (now + hours 24)
                   p_lat p_lng (Some false) v_user_id] in
        Returned
          (List.map select_fields
             (List.filter (fun c => (id c =? new_id)%N) db'))
          db'
  end.

End WithDouble.
End Admission.

(** ** get_confess_feed (migration 006, restated by migration 011) *)

Module Feed.
Import Store.

Section WithDouble.
Context {D : DoubleOps}.

(** The arguments of the call; an omitted one takes its [DEFAULT] before
    the record is built. *)
Record feed_args := mkFeedArgs {
  p_mode : option Pg.text;
  p_limit : option Z;
  p_cursor_created_at : option Z;
  p_cursor_id : option N;
  p_lat : option (double D);
  p_lng : option (double D);
  p_radius_m : option Z
}.

Definition greatest (a b : Z) : Z := Z.max a b.
Definition least (a b : Z) : Z := Z.min a b.

Definition clamp_limit (p_limit : option Z) : Z :=
  greatest 10 (least 50 (Sql.coalesce p_limit 30)).

Definition clamp_radius (p_radius_m : option Z) : Z :=
  greatest 100 (least 50000 (Sql.coalesce p_radius_m 10000)).

(** [6371000 * acos(LEAST(1.0, GREATEST(-1.0,
      cos(radians(p_lat)) * cos(radians(c.lat)) *
      cos(radians(c.lng) - radians(p_lng)) +
      sin(radians(p_lat)) * sin(radians(c.lat)))))] *)
Definition haversine_m (p_lat p_lng c_lat c_lng : double D) : double D :=
  d_mul D (d_of_int D 6371000)
    (d_acos D
       (d_least D (d_of_int D 1)
          (d_greatest D (d_of_int D (-1))
             (d_add D
                (d_mul D
                   (d_mul D (d_cos D (d_radians D p_lat))
                            (d_cos D (d_radians D c_lat)))
                   (d_cos D (d_sub D (d_radians D c_lng) (d_radians D p_lng))))
                (d_mul D (d_sin D (d_radians D p_lat))
                         (d_sin D (d_radians D c_lat))))))).

(** The distance of a row, null when an operand is. *)
Definition distance (p_lat p_lng : option (double D)) (c : confession D)
    : option (double D) :=
  match p_lat, p_lng, lat c, lng c with
  | Some pa, Some po, Some ca, Some co => Some (haversine_m pa po ca co)
  | _, _, _, _ => None
  end.

(** [expires_at > now() AND COALESCE(is_hidden, false) = false] *)
Definition visible (now : Z) (c : confession D) : Sql.cond :=
  (Sql.cmp Z.gtb (Some (expires_at c)) (Some now) AND
   Some (Bool.eqb (Sql.coalesce (is_hidden c) false) false))%sql.

(** [p_cursor_created_at IS NULL
     OR c.created_at < p_cursor_created_at
     OR (c.created_at = p_cursor_created_at AND c.id < p_cursor_id)] *)
Definition keyset (a : feed_args) (c : confession D) : Sql.cond :=
  (Sql.is_null (p_cursor_created_at a)
   OR Sql.cmp Z.ltb (Some (created_at c)) (p_cursor_created_at a)
   OR (Sql.cmp Z.eqb (Some (created_at c)) (p_cursor_created_at a)
       AND Sql.cmp N.ltb (Some (id c)) (p_cursor_id a)))%sql.

Definition where_near (now v_radius : Z) (a : feed_args) (c : confession D)
    : Sql.cond :=
  (visible now c
   AND Sql.is_not_null (lat c)
   AND Sql.is_not_null (lng c)
   AND Sql.cmp (d_le D) (distance (p_lat a) (p_lng a) c)
         (Some (d_of_int D v_radius))
   AND keyset a c)%sql.

Definition where_world (now : Z) (a : feed_args) (c : confession D)
    : Sql.cond :=
  (visible now c AND keyset a c)%sql.

Definition mode_is_near (p_mode : option Pg.text) : bool :=
  Sql.holds (Sql.cmp (fun x y : Pg.text => bool_decide (x = y))
               p_mode (Some (Pg.lit "near"))).

Definition select_where (w : confession D -> Sql.cond) (v_limit : Z)
    (db : list (confession D)) : list (feed_row D) :=
  List.map select_fields
    (limit v_limit
       (order_by_created_at_desc_id_desc
          (List.filter (fun c => Sql.holds (w c)) db))).

Definition get_confess_feed (now : Z) (db : list (confession D))
    (a : feed_args) : outcome :=
  let v_limit := clamp_limit (p_limit a) in
  let v_radius := clamp_radius (p_radius_m a) in
  if mode_is_near (p_mode a) then
    if Sql.holds (Sql.is_null (p_lat a) OR Sql.is_null (p_lng a))%sql
    then Raised NEAR_NEEDS_LAT_LNG
    else Returned (select_where (where_near now v_radius a) v_limit db) db
  else Returned (select_where (where_world now a) v_limit db) db.

End WithDouble.
Arguments feed_args : clear implicits.
End Feed.

(** ** The client wrappers of api.ts *)

Module Client.

(** [needle] occurs in [hay] ([String.prototype.includes]). *)
Fixpoint includes (hay needle : string) : bool :=
  String.prefix needle hay ||
  match hay with
  | EmptyString => false
  | String _ hay' => includes hay' needle
  end.

(** How a call ends: with a value, or by throwing. *)
Inductive completion (A : Type) :=
| Returns (a : A)
| Throws.
Arguments Returns {A} a.
Arguments Throws {A}.

Section WithDouble.
Context {D : DoubleOps} {L : Pg.Locale}.

(** What [await supabase.rpc(...)] gives: the pair [{ data, error }], or
    an exception. *)
Inductive rpc_reply :=
| Reply (data : option (list (Store.feed_row D))) (error : option string)
| RpcThrows.

Record insert_args := mkInsertArgs {
  p_text : option Pg.text;
  p_place_label : option Pg.text;
  p_lat : option (double D);
  p_lng : option (double D)
}.

(** A configured client, seen through the two procedures it can call. *)
Record SupabaseClient := mkSupabaseClient {
  rpc_get_confess_feed : Feed.feed_args D -> rpc_reply;
  rpc_insert_confession : insert_args -> rpc_reply
}.

Definition DEFAULT_LIMIT : Z := 30.

Inductive FeedMode := world | near.

Definition mode_name (m : FeedMode) : Pg.text :=
  match m with
  | world => Pg.lit "world"
  | near => Pg.lit "near"
  end.

(** [{ created_at, id } | null] *)
Definition PageCursor := option (Z * N).

Record FeedResult := mkFeedResult {
  confessions : list (Store.feed_row D);
  nextCursor : PageCursor;
  hasMore : bool
}.

(** An optional field left out is [None]. *)
Record FetchFeedParams := mkFetchFeedParams {
  mode : FeedMode;
  cursor : PageCursor;
  limit : option Z;
  lat : option (double D);
  lng : option (double D);
  radiusM : option Z
}.

Definition empty_result : FeedResult := mkFeedResult [] None false.

(** [x == null]: the value is null or undefined. *)
Definition nullish {A} (x : option A) : bool :=
  match x with None => true | Some _ => false end.

(** [items.slice(0, n)]: a negative [n] counts from the end. *)
Definition slice0 {A} (items : list A) (n : Z) : list A :=
  if n <? 0 then firstn (Z.to_nat (Z.of_nat (List.length items) + n)) items
  else firstn (Z.to_nat n) items.

Definition fetchFeed (supabase : option SupabaseClient)
    (params : FetchFeedParams) : completion FeedResult :=
  let limit := default DEFAULT_LIMIT (limit params) in
  let radiusM := default 1000 (radiusM params) in
  match supabase with
  | None => Returns empty_result
  | Some sb =>
      if match mode params with near => true | world => false end
         && (nullish (lat params) || nullish (lng params))
      then Returns empty_result
      else
        let requestLimit := Z.min limit 50 + 1 in
        let rpcParams :=
          Feed.mkFeedArgs (Some (mode_name (mode params)))
            (Some requestLimit)
            (fst <$> cursor params)
            (snd <$> cursor params)
            (lat params) (lng params) (Some radiusM) in
        match rpc_get_confess_feed sb rpcParams with
        | RpcThrows => Returns empty_result
        | Reply _ (Some _) => Returns empty_result
        | Reply data None =>
            let items := default [] data in
            let hasMore := limit <? Z.of_nat (List.length items) in
            let confessions := if hasMore then slice0 items limit else items in
            let nextCursor :=
              match List.last (List.map Some confessions) None with
              | Some r => Some (Store.r_created_at r, Store.r_id r)
              | None => None
              end in
            Returns (mkFeedResult confessions nextCursor hasMore)
        end
  end.

Inductive InsertError :=
| E_EMPTY_TEXT | E_TEXT_TOO_LONG | E_RATE_LIMIT | E_CONTENT_BLOCKED | E_ERROR.

(** [{ ok: true, confession } | { ok: false, error, message }] *)
Inductive InsertConfessionResult :=
| Ok (confession : Store.feed_row D)
| NotOk (error : InsertError) (message : string).

Record InsertConfessionParams := mkInsertConfessionParams {
  text : option Pg.text;
  placeLabel : option Pg.text;
  ilat : option (double D);
  ilng : option (double D)
}.

Definition newline : string := String (ascii_of_nat 10) EmptyString.

Definition insertConfession (supabase : option SupabaseClient)
    (params : InsertConfessionParams) : completion InsertConfessionResult :=
  match supabase with
  | None => Returns (NotOk E_ERROR "Not configured")
  | Some sb =>
      let rpcParams :=
        mkInsertArgs (text params) (placeLabel params)
          (ilat params) (ilng params) in
      match rpc_insert_confession sb rpcParams with
      | RpcThrows => Returns (NotOk E_ERROR "Could not save confession")
      | Reply _ (Some msg) =>
          if includes msg "EMPTY_TEXT"
          then Returns (NotOk E_EMPTY_TEXT "Write something first.")
          else if includes msg "TEXT_TOO_LONG"
          then Returns (NotOk E_TEXT_TOO_LONG "Keep it under 120 characters.")
          else if includes msg "CONTENT_BLOCKED"
          then Returns (NotOk E_CONTENT_BLOCKED
                 ("This can't be shared." ++ newline ++
                  "Avoid names, contact details, or anything that could identify someone."))
          else if includes msg "RATE_LIMIT"
          then Returns (NotOk E_RATE_LIMIT
                 "Slow down â€” try again in a few seconds.")
          else Returns (NotOk E_ERROR "Could not save confession")
      | Reply data None =>
          match data with
          | Some (row :: _) => Returns (Ok row)
          | _ => Returns (NotOk E_ERROR "Could not save confession")
          end
      end
  end.

(** The reply a procedure's outcome is turned into. *)
Definition reply_of (o : outcome) : rpc_reply :=
  match o with
  | Raised e => Reply None (Some (exception_message e))
  | Returned rows _ => Reply (Some rows) None
  end.

(** The arguments travel as JSON.  [JSON.stringify] writes a number that
    is NaN or infinite as [null]. *)
Definition json_number (x : option (double D)) : option (double D) :=
  match x with
  | Some v => if d_is_finite D v then Some v else None
  | None => None
  end.

(** A number fits the type [INTEGER] when it is in the 32-bit range; the
    call is refused with an error when one that should does not. *)
Definition is_integer (z : Z) : bool :=
  (-2147483648 <=? z) && (z <=? 2147483647).

Definition integer_or_null (x : option Z) : bool :=
  match x with Some z => is_integer z | None => true end.

Definition out_of_range : rpc_reply :=
  Reply None (Some "value is out of range for type integer"%string).

(** A client connected to a database in state [db] at time [now], for a
    caller whose [auth.uid()] is [auth_uid]. *)
Definition connected (auth_uid : option N) (now : Z) (new_id : N)
    (db : list (Store.confession D)) : SupabaseClient :=
  mkSupabaseClient
    (fun a =>
       if integer_or_null (Feed.p_limit a) && integer_or_null (Feed.p_radius_m a)
       then
         reply_of
           (Feed.get_confess_feed now db
              (Feed.mkFeedArgs (Feed.p_mode a) (Feed.p_limit a)
                 (Feed.p_cursor_created_at a) (Feed.p_cursor_id a)
                 (json_number (Feed.p_lat a)) (json_number (Feed.p_lng a))
                 (Feed.p_radius_m a)))
       else out_of_range)
    (fun a => reply_of (Admission.insert_confession auth_uid now new_id db
                          (p_text a) (p_place_label a)
                          (json_number (p_lat a)) (json_number (p_lng a)))).

End WithDouble.
Arguments SupabaseClient : clear implicits.
Arguments FeedResult : clear implicits.
Arguments FetchFeedParams : clear implicits.
Arguments InsertConfessionResult : clear implicits.
Arguments InsertConfessionParams : clear implicits.
End Client.

(** ** The resolve_place edge function *)

Module Place.

(** A JavaScript string: its UTF-16 code units. *)
Definition jsstring := list N.

Definition js (s : string) : jsstring :=
  List.map N_of_ascii (list_ascii_of_string s).

(** The code units [String.prototype.trim] removes: WhiteSpace and
    LineTerminator of ECMAScript. *)
Definition is_js_space (c : N) : bool :=
  (Pg.in_range 9 13 c || (c =? 32) || (c =? 160) || (c =? 5760)
   || Pg.in_range 8192 8202 c || (c =? 8232) || (c =? 8233) || (c =? 8239)
   || (c =? 8287) || (c =? 12288) || (c =? 65279))%N.

Fixpoint trimStart (s : jsstring) : jsstring :=
  match s with
  | c :: s' => if is_js_space c then trimStart s' else s
  | [] => []
  end.

Definition trim (s : jsstring) : jsstring :=
  rev (trimStart (rev (trimStart s))).

(** [s.split(',')[0]] *)
Fixpoint before_comma (s : jsstring) : jsstring :=
  match s with
  | c :: s' => if (c =? 44)%N then [] else c :: before_comma s'
  | [] => []
  end.

(** [String.prototype.isWellFormed]: no surrogate stands alone.  A leading
    surrogate is a code unit from D800 to DBFF, a trailing one from DC00 to
    DFFF.  These are the strings [encodeURIComponent] encodes; on any other
    it throws a URIError. *)
Definition is_leading (c : N) : bool := Pg.in_range 55296 56319 c.
Definition is_trailing (c : N) : bool := Pg.in_range 56320 57343 c.

Fixpoint isWellFormed (s : jsstring) : bool :=
  match s with
  | [] => true
  | c :: s' =>
      if is_leading c
      then match s' with
           | d :: s'' => is_trailing d && isWellFormed s''
           | [] => false
           end
      else negb (is_trailing c) && isWellFormed s'
  end.

(** [toLowerCase] on the letters A to Z only; the platform's function
    agrees with it on ASCII strings. *)
Definition ascii_toLowerCase (s : jsstring) : jsstring :=
  List.map Pg.to_lower s.

Section Handler.
(** Platform functions: [String.prototype.toLowerCase], and the numbers
    with [parseFloat] and [isNaN]. *)
Variable toLowerCase : jsstring -> jsstring.
Variable number : Type.
Variable parseFloat : jsstring -> number.
Variable isNaN : number -> bool.

Definition normalizeQuery (q : jsstring) : jsstring := toLowerCase (trim q).

(** A row of [place_cache], by the columns the function writes. *)
Record cache_row := mkCacheRow {
  q : jsstring;
  q_lower : jsstring;
  lat : number;
  lng : number;
  name : jsstring;
  provider : string
}.

(** The table under its unique index on [q_lower]. *)
Abbreviation place_cache := (gmap jsstring cache_row).

(** [insert] into the table: a row whose [q_lower] is taken is refused
    with an error and the table stays as it is. *)
Definition place_cache_insert (t : place_cache) (r : cache_row)
    : place_cache * option string :=
  match t !! q_lower r with
  | Some _ => (t, Some "duplicate key value violates unique constraint"%string)
  | None => (<[q_lower r := r]> t, None)
  end.

(** One element of Nominatim's answer. *)
Record nominatim_result := mkNominatimResult {
  n_lat : jsstring;
  n_lon : jsstring;
  display_name : jsstring
}.

(** How the call of the provider ends.  The elements of [Results] are
    those of an array whose first element, if there is one, has a string
    under [display_name]; [UnnamedResult] is an array whose first element
    has none, or is no object at all, on which [result.display_name.split]
    or [result.lat] throws. *)
Inductive nominatim_reply :=
| FetchThrows                                (* [fetch] rejects *)
| StatusNotOk                                (* [!nominatimRes.ok] *)
| BodyNotJson                                (* [json()] rejects *)
| BodyNotArray                               (* JSON, but no array *)
| UnnamedResult
| Results (rs : list nominatim_result).

(** What the function sees around it. *)
Record environment := mkEnvironment {
  configured : bool;      (* SUPABASE_URL and SUPABASE_SERVICE_ROLE_KEY set *)
  select_error : bool;    (* the cache query itself fails *)
  nominatim : jsstring -> nominatim_reply   (* by the query sent *)
}.

(** A request: a preflight, or one whose body is no JSON, is the JSON
    value [null], or is any other JSON value; of the last, [q] is what the
    body has under [q], [None] when that is absent, not a string, or some
    other falsy value. *)
Inductive request :=
| Options
| InvalidJson
| NullBody                        (* [const { q } = body] throws *)
| Post (q : option jsstring).

Inductive body :=
| Empty
| Error (error : string)
| Place (lat lng : number) (name : jsstring) (source : string)  (* ok: true *)
| NoPlace (reason : string).                                     (* ok: false *)

Record response := mkResponse { status : Z; content : body }.

Definition jsonResponse (b : body) (status : Z) : response :=
  mkResponse status b.

Definition length (s : jsstring) : Z := Z.of_nat (List.length s).

(** What the outer [catch] answers to anything thrown inside. *)
Definition internal_error : response * option cache_row :=
  (jsonResponse (Error "Internal server error") 500, None).

(** The handler: its response and the row it sends to the cache, if any,
    without waiting for the outcome. *)
Definition handler (env : environment) (t : place_cache) (req : request)
    : response * option cache_row :=
  match req with
  | Options => (mkResponse 200 Empty, None)
  | InvalidJson => (jsonResponse (Error "Invalid JSON body") 400, None)
  | NullBody => internal_error
  | Post None | Post (Some []) =>
      (jsonResponse (Error "Missing query parameter q") 400, None)
  | Post (Some q) =>
      let trimmed := trim q in
      if length trimmed <? 2
      then (jsonResponse (Error "Query too short (min 2 characters)") 400, None)
      else if 80 <? length trimmed
      then (jsonResponse (Error "Query too long (max 80 characters)") 400, None)
      else
        let qLower := normalizeQuery trimmed in
        if negb (configured env)
        then (jsonResponse (Error "Server configuration error") 500, None)
        else
          match (if select_error env then None else t !! qLower) with
          | Some cached =>
              (jsonResponse
                 (Place (lat cached) (lng cached) (name cached) "cache") 200,
               None)
          | None =>
              if negb (isWellFormed trimmed) then internal_error
              else
              match nominatim env trimmed with
              | FetchThrows | StatusNotOk | BodyNotJson =>
                  (jsonResponse (Error "Geocoding provider error") 502, None)
              | BodyNotArray | Results [] =>
                  (jsonResponse (NoPlace "NOT_FOUND") 200, None)
              | UnnamedResult => internal_error
              | Results (result :: _) =>
                  let lat := parseFloat (n_lat result) in
                  let lng := parseFloat (n_lon result) in
                  let name := trim (before_comma (display_name result)) in
                  if isNaN lat || isNaN lng
                  then (jsonResponse (Error "Geocoding provider error") 502,
                        None)
                  else
                    (jsonResponse (Place lat lng name "nominatim") 200,
                     Some (mkCacheRow trimmed qLower lat lng name "nominatim"))
              end
          end
  end.

(** The table once the pending write, if any, has reached it; the error of
    a refused write is dropped. *)
Definition after_write (t : place_cache) (w : option cache_row) : place_cache :=
  match w with
  | Some r => fst (place_cache_insert t r)
  | None => t
  end.

End Handler.

Arguments mkCacheRow {number}.
Arguments q {number}.
Arguments q_lower {number}.
Arguments lat {number}.
Arguments lng {number}.
Arguments name {number}.
Arguments provider {number}.
Arguments place_cache_insert {number}.
Arguments Empty {number}.
Arguments Error {number}.
Arguments Place {number}.
Arguments NoPlace {number}.
Arguments mkResponse {number}.
Arguments status {number}.
Arguments content {number}.
Arguments jsonResponse {number}.
Arguments internal_error {number}.
Arguments handler toLowerCase {number}.
Arguments after_write {number}.
End Place.

(** ** Vocabulary of the statements *)

Import Pg Store.

(** Some blocking condition of the content filter holds of [v]. *)
Definition content_blocked {L : Locale} (v : Pg.text) : bool :=
  Admission.has_at v || Admission.has_url v || Admission.has_tld v
  || Admission.has_8_digits v || Admission.has_plus_digit v
  || Admission.has_two_names v.

(** [v], already trimmed, gets through the whole admission filter. *)
Definition passes_filter {L : Locale} (v : Pg.text) : bool :=
  (0 <? char_length v) && (char_length v <=? 120) && negb (content_blocked v).

(** *** What the admission filter looks for, said of the text itself

    The definitions that follow read the trimming and the six blocking
    conditions off the text, position by position, without the functions
    of the procedure. *)

(** [v] is [t] without the spaces (U+0020, and no other character) at its
    two ends. *)
Definition spaces (s : Pg.text) : Prop := Forall (fun c => c = 32%N) s.

Definition stripped (t v : Pg.text) : Prop :=
  exists pre post,
    t = pre ++ v ++ post /\ spaces pre /\ spaces post /\
    head v <> Some 32%N /\ last v <> Some 32%N.

(** The character of [v] at position [i] is one of [P]. *)
Definition char_at (P : N -> bool) (v : Pg.text) (i : nat) : Prop :=
  exists c, nth_error v i = Some c /\ P c = true.

(** The characters of [v] from position [i] up to position [j], which is
    left out, are all of [P]. *)
Definition run_of (P : N -> bool) (v : Pg.text) (i j : nat) : Prop :=
  forall k, (i <= k < j)%nat -> char_at P v k.

(** The classes of characters the patterns speak of, by code point.
    Digits and letters are those of ASCII.  White space is the space, the
    five control characters from the tab to the carriage return, and what
    the locale of the database counts as white space beyond ASCII; a word
    character is an ASCII digit or letter, what the locale counts as
    alphanumeric beyond ASCII, or the underscore. *)
Definition digit (c : N) : bool := ((48 <=? c) && (c <=? 57))%N.
Definition capital (c : N) : bool := ((65 <=? c) && (c <=? 90))%N.
Definition small (c : N) : bool := ((97 <=? c) && (c <=? 122))%N.
Definition white_space {L : Locale} (c : N) : bool :=
  ((c =? 32) || ((9 <=? c) && (c <=? 13)) || ((128 <=? c) && wide_space c))%N.
Definition word_character {L : Locale} (c : N) : bool :=
  (digit c || capital c || small c || ((128 <=? c) && wide_alnum c)
   || (c =? 95))%N.

(** [c] is the character [p], in either case when [p] is a letter. *)
Definition same_letter (p c : N) : bool :=
  ((c =? p) || (capital p && (c =? p + 32)) || (small p && (c =? p - 32)))%N.

(** [w] stands in [v] at position [i], letters in any case. *)
Definition spelled (w v : Pg.text) (i : nat) : Prop :=
  forall n p, nth_error w n = Some p -> char_at (same_letter p) v (i + n).

(** No word character (letter, digit or underscore) stands at position
    [i], or just before it. *)
Definition no_word_at {L : Locale} (v : Pg.text) (i : nat) : Prop :=
  forall c, nth_error v i = Some c -> word_character c = false.

Definition no_word_before {L : Locale} (v : Pg.text) (i : nat) : Prop :=
  match i with
  | O => True
  | S j => no_word_at v j
  end.

(** An at sign. *)
Definition names_address (v : Pg.text) : Prop := In 64%N v.

(** "http://" or "https://" anywhere, or "www." at the beginning of a
    word. *)
Definition names_link {L : Locale} (v : Pg.text) : Prop :=
  exists i,
    spelled (lit "http://") v i \/ spelled (lit "https://") v i \/
    (spelled (lit "www.") v i /\ no_word_before v i).

(** A dot and one of seven domain endings, at the end of a word. *)
Definition domain_endings : list string :=
  ["com"; "net"; "org"; "no"; "io"; "co"; "app"]%string.

Definition names_domain {L : Locale} (v : Pg.text) : Prop :=
  exists i w,
    In w domain_endings /\ spelled (lit "." ++ lit w) v i /\
    no_word_at v (i + 1 + String.length w).

(** Eight digits or more, wherever they stand. *)
Fixpoint digit_count (v : Pg.text) : nat :=
  match v with
  | [] => 0
  | c :: v' => (if digit c then 1 else 0) + digit_count v'
  end.

Definition names_number (v : Pg.text) : Prop := (8 <= digit_count v)%nat.

(** A plus sign and, after any white space, a digit. *)
Definition names_country_code {L : Locale} (v : Pg.text) : Prop :=
  exists i j,
    char_at (fun c => c =? 43)%N v i /\ (i < j)%nat /\
    run_of white_space v (S i) j /\ char_at digit v j.

(** A capital letter at [i] and small letters, one at least, up to [j]. *)
Definition capitalised (v : Pg.text) (i j : nat) : Prop :=
  char_at capital v i /\ (S i < j)%nat /\ run_of small v (S i) j.

(** Two capitalised words with white space, and nothing else, between
    them; the first begins a word and the second ends one. *)
Definition names_person {L : Locale} (v : Pg.text) : Prop :=
  exists i j k l,
    no_word_before v i /\ capitalised v i j /\
    (j < k)%nat /\ run_of white_space v j k /\
    capitalised v k l /\ no_word_at v l.

Definition identifies {L : Locale} (v : Pg.text) : Prop :=
  names_address v \/ names_link v \/ names_domain v \/ names_number v
  \/ names_country_code v \/ names_person v.

(** [u] posted the row [c]. *)
Definition by_actor {D : DoubleOps} (u : N) (c : confession D) : Prop :=
  user_id c = Some u.

(** A row lies strictly after the cursor in the feed's order. *)
Definition after_cursor {D : DoubleOps} (cur : Z * N) (r : feed_row D) : Prop :=
  r_created_at r < cur.1 \/ (r_created_at r = cur.1 /\ (r_id r < cur.2)%N).

(** [r1] may stand before [r2] in a page. *)
Definition page_order {D : DoubleOps} (r1 r2 : feed_row D) : Prop :=
  before_b (r_created_at r1, r_id r1) (r_created_at r2, r_id r2) = true.

(** The filters of a feed query other than pagination: unexpired and not
    hidden, and in near mode carrying coordinates within [radius] metres of
    the query point. *)
Definition unexpired_and_shown {D : DoubleOps} (now : Z) (c : confession D)
    : Prop :=
  now < expires_at c /\ Sql.coalesce (is_hidden c) false = false.

Definition within {D : DoubleOps} (a : Feed.feed_args D) (radius : Z)
    (c : confession D) : Prop :=
  exists pa po ca co,
    Feed.p_lat a = Some pa /\ Feed.p_lng a = Some po /\
    lat c = Some ca /\ lng c = Some co /\
    d_le D (Feed.haversine_m pa po ca co) (d_of_int D radius) = true.

(** The rows a query may return when it carries no cursor. *)
Definition eligible {D : DoubleOps} (now : Z) (a : Feed.feed_args D)
    (c : confession D) : bool :=
  if Feed.mode_is_near (Feed.p_mode a)
  then Sql.holds
         (Feed.visible now c AND Sql.is_not_null (lat c)
          AND Sql.is_not_null (lng c)
          AND Sql.cmp (d_le D) (Feed.distance (Feed.p_lat a) (Feed.p_lng a) c)
                (Some (d_of_int D (Feed.clamp_radius (Feed.p_radius_m a)))))%sql
  else Sql.holds (Feed.visible now c).

(** Sample data: [n] visible rows without coordinates, one per microsecond. *)
Definition sample_row (i : nat) : confession RealOps :=
  mkConfession (N.of_nat i) (lit "x") (Z.of_nat i) 1000 None None
    (Some false) None.

Definition sample_db (n : nat) : list (confession RealOps) :=
  List.map sample_row (seq 1 n).

(** A row of actor 7 created at [t]. *)
Definition post_at (t : Z) : confession RealOps :=
  mkConfession 1 (lit "x") t (t + Admission.hours 24) None None
    (Some false) (Some 7%N).

(** A row on the equator at longitude [lo] degrees. *)
Definition equator_row (lo : R) : confession RealOps :=
  @mkConfession RealOps 1 (lit "x") 0 1000 (Some 0%R) (Some lo)
    (Some false) None.

Definition near_args (radius : Z) : Feed.feed_args RealOps :=
  @Feed.mkFeedArgs RealOps (Some (lit "near")) None None None
    (Some 0%R) (Some 0%R) (Some radius).

(** Numbers for the sample runs of [resolve_place]: an integer, or NaN. *)
Definition sample_number := option Z.

Fixpoint digits_value (acc : Z) (s : Place.jsstring) : option Z :=
  match s with
  | [] => Some acc
  | c :: s' =>
      if is_digit c then digits_value (10 * acc + Z.of_N (c - 48)) s'
      else None
  end.

Definition sample_parseFloat (s : Place.jsstring) : sample_number :=
  match s with
  | [] => None
  | _ => digits_value 0 s
  end.

Definition sample_isNaN (x : sample_number) : bool :=
  match x with None => true | Some _ => false end.

Definition oslo : Place.nominatim_result :=
  Place.mkNominatimResult (Place.js "59") (Place.js "10")
    (Place.js "Oslo, Norway").

Definition sample_env (reply : Place.nominatim_reply) : Place.environment :=
  Place.mkEnvironment true false (fun _ => reply).

(** The state of the ad gate a tally can be in: the flag is never on once
    an ad was shown, and each tally is at most one. *)
Definition gate_invariant (t : Session.Tally) : Prop :=
  let s := Session.state (Session.world t) in
  (Session.adShown s = true -> Session.adArmed s = false) /\
  ((Session.armings t = 0%nat /\
    Session.adArmed s = false /\ Session.adShown s = false) \/
   (Session.armings t = 0%nat /\ Session.adShown s = true) \/
   (Session.armings t = 1%nat /\
    (Session.adArmed s = true \/ Session.adShown s = true))) /\
  (Session.showings t = 0%nat \/
   (Session.showings t = 1%nat /\ Session.adShown s = true)).

(** [prior] is the creation time of the latest row [u] posted in [db], or
    [None] when [u] posted none. *)
Definition latest_post {D : DoubleOps} (u : N) (db : list (confession D))
    (prior : option Z) : Prop :=
  match prior with
  | Some tl =>
      (exists c, In c db /\ by_actor u c /\ created_at c = tl) /\
      (forall c, In c db -> by_actor u c -> created_at c <= tl)
  | None => forall c, In c db -> ~ by_actor u c
  end.

(** The procedure went through and inserted a row. *)
Definition accepted {D : DoubleOps} (r : @outcome D) : Prop :=
  exists rows db', r = Returned rows db'.

Global Instance later_first_total : Total (flip Z.le).
Proof. intros x y. unfold flip. lia. Qed.

(** The rows a query selects, in the feed's order, before [LIMIT]. *)
Definition matching {D : DoubleOps} (now : Z) (a : Feed.feed_args D)
    (db : list (confession D)) : list (confession D) :=
  order_by_created_at_desc_id_desc
    (List.filter
       (fun c =>
          Sql.holds
            (if Feed.mode_is_near (Feed.p_mode a)
             then Feed.where_near now (Feed.clamp_radius (Feed.p_radius_m a)) a c
             else Feed.where_world now a c))
       db).

(** The cursor a page ends with. *)
Definition cursor_of_last {D : DoubleOps} (page : list (feed_row D))
    : Client.PageCursor :=
  match List.last (List.map Some page) None with
  | Some r => Some (r_created_at r, r_id r)
  | None => None
  end.

Definition world_args (p_limit : option Z) (cur : Client.PageCursor)
    : Feed.feed_args RealOps :=
  @Feed.mkFeedArgs RealOps (Some (lit "world")) p_limit
    (fst <$> cur) (snd <$> cur) None None None.

(** The arguments [fetchFeed] sends for [params] when the page size is
    [n]. *)
Definition request_for {D : DoubleOps} (params : Client.FetchFeedParams D)
    (n : Z) : Feed.feed_args D :=
  Feed.mkFeedArgs (Some (Client.mode_name (Client.mode params)))
    (Some (n + 1))
    (fst <$> Client.cursor params) (snd <$> Client.cursor params)
    (Client.lat params) (Client.lng params)
    (Some (default 1000 (Client.radiusM params))).

(** A near request names both coordinates. *)
Definition well_formed {D : DoubleOps} (params : Client.FetchFeedParams D)
    : Prop :=
  match Client.mode params with
  | Client.near =>
      is_Some (Client.lat params) /\ is_Some (Client.lng params)
  | Client.world => True
  end.

(** A world request for the first page, of size [n]. *)
Definition first_page (n : Z) : Client.FetchFeedParams RealOps :=
  @Client.mkFetchFeedParams RealOps Client.world None (Some n) None None None.

(** A server that answers every feed request with the same [n] rows. *)
Definition fixed_reply (n : nat) : Client.SupabaseClient RealOps :=
  @Client.mkSupabaseClient RealOps
    (fun _ => Client.Reply (Some (List.map select_fields (sample_db n))) None)
    (fun _ => Client.RpcThrows).

(** A string that is empty or begins with a character [trim] keeps. *)
Definition head_kept (s : Place.jsstring) : Prop :=
  match s with
  | c :: _ => Place.is_js_space c = false
  | [] => True
  end.

(** ** insert_confession before the content filter (migration 007) *)

Module Admission007.
Section WithDouble.
Context {D : DoubleOps}.

(** The procedure of migration 007: trimming, the two length checks, the
    rate-limiting block and the insertion, without the pattern checks that
    migration 008 puts between them. *)
Definition insert_confession (auth_uid : option N) (now : Z) (new_id : N)
    (db : list (confession D))
    (p_text p_place_label : option Pg.text) (p_lat p_lng : option (double D))
    : outcome :=
  let v_user_id := auth_uid in
  match option_map btrim p_text with
  | None => Raised EMPTY_TEXT
  | Some v_text =>
      if match v_text with [] => true | _ => false end then Raised EMPTY_TEXT
      else if 120 <? char_length v_text then Raised TEXT_TOO_LONG
      else if Admission.rate_limited v_user_id now db then Raised RATE_LIMIT
      else
        let db' :=
          db ++ [mkConfession new_id v_text now (now + Admission.hours 24)
                   p_lat p_lng (Some false) v_user_id] in
        Returned
          (List.map select_fields
             (List.filter (fun c => (id c =? new_id)%N) db'))
          db'
  end.

End WithDouble.
End Admission007.

(** ** Removal of old confessions (cron job and cleanup_confessions) *)

Module Cleanup.
Section WithDouble.
Context {D : DoubleOps}.

(** [DELETE FROM confessions WHERE created_at < threshold]: the rows that
    go, and the rows that stay. *)
Definition deleted_rows (threshold : Z) (db : list (confession D))
    : list (confession D) :=
  List.filter (fun c => created_at c <? threshold) db.

Definition remaining_rows (threshold : Z) (db : list (confession D))
    : list (confession D) :=
  List.filter (fun c => negb (created_at c <? threshold)) db.

(** The statement the cron job runs every hour. *)
Definition cleanup_old_confessions (now : Z) (db : list (confession D))
    : list (confession D) :=
  remaining_rows (now - Admission.hours 24) db.

(** The edge function.  [now_ms] is [Date.now()], in milliseconds; the
    threshold it sends is that instant less 24 hours. *)
Record environment := mkEnvironment {
  configured : bool;               (* both environment variables set *)
  delete_error : option string     (* the error of the delete, if it fails *)
}.

Inductive body :=
| Failure (error : string)         (* ok: false *)
| Success (deleted : Z).           (* ok: true *)

Record response := mkResponse { status : Z; content : body }.

Definition cleanup_confessions (env : environment) (now_ms : Z)
    (db : list (confession D)) : response * list (confession D) :=
  if negb (configured env)
  then (mkResponse 500 (Failure "Missing configuration"), db)
  else
    match delete_error env with
    | Some message => (mkResponse 500 (Failure message), db)
    | None =>
        let threshold := (now_ms - 24 * 60 * 60 * 1000) * 1000 in
        let data := deleted_rows threshold db in
        (mkResponse 200 (Success (Z.of_nat (List.length data))),
         remaining_rows threshold db)
    end.

End WithDouble.
End Cleanup.

(** ** The feed loaders of the application (App) *)

Module App.
Section WithDouble.
Context {D : DoubleOps}.

Definition NEAR_ME_RADII : list Z := [100; 250; 500; 1000; 2000].
Definition MIN_RESULTS : Z := 10.
Definition MAX_ATTEMPTS : Z := 3.

(** [type FeedState] *)
Record FeedState := mkFeedState {
  confessions : list (feed_row D);
  cursor : Client.PageCursor;
  hasMore : bool;
  loading : bool;
  hasFetched : bool
}.

Definition emptyFeed : FeedState := mkFeedState [] None false false false.

(** The state the loaders read and write: the two feeds, the radius kept
    for the near feed, and the session manager's world. *)
Record AppState := mkAppState {
  worldFeed : FeedState;
  placeFeed : FeedState;
  nearMeRadius : Z;
  session : Session.World
}.

(** [await p] followed by the rest of the function. *)
Definition await {A B} (p : Client.completion A)
    (k : A -> Client.completion B) : Client.completion B :=
  match p with
  | Client.Returns a => k a
  | Client.Throws => Client.Throws
  end.

(** The feed after a fetch: replaced on a reset, extended otherwise. *)
Definition merged (reset : bool) (prev : FeedState)
    (result : Client.FeedResult D) : FeedState :=
  mkFeedState
    (if reset then Client.confessions result
     else confessions prev ++ Client.confessions result)
    (Client.nextCursor result) (Client.hasMore result) false true.

(** [recordPageFetch()] when the fetch was a pagination that brought
    rows. *)
Definition count_fetch (reset : bool) (result : Client.FeedResult D)
    (w : Session.World) : Session.World :=
  if negb reset && (0 <? Z.of_nat (List.length (Client.confessions result)))
  then Session.recordPageFetch w else w.

Definition loadWorld (supabase : option (Client.SupabaseClient D))
    (reset : bool) (st : AppState) : Client.completion AppState :=
  let cursor := if reset then None else cursor (worldFeed st) in
  await (Client.fetchFeed supabase
           (Client.mkFetchFeedParams Client.world cursor None None None None))
    (fun result =>
       Client.Returns
         (mkAppState (merged reset (worldFeed st) result) (placeFeed st)
            (nearMeRadius st) (count_fetch reset result (session st)))).

(** The fetch of the near feed at [radius]. *)
Definition fetch_near (supabase : option (Client.SupabaseClient D))
    (lat lng : double D) (radius : Z) (cursor : Client.PageCursor)
    : Client.completion (Client.FeedResult D) :=
  Client.fetchFeed supabase
    (Client.mkFetchFeedParams Client.near cursor None (Some lat) (Some lng)
       (Some radius)).

Definition last_radius : Z := List.last NEAR_ME_RADII 0.

(** What a reset of the near feed settles on: the radius and its result. *)
Definition fallback (supabase : option (Client.SupabaseClient D))
    (lat lng : double D) (usedRadius : Z)
    : Client.completion (Z * Client.FeedResult D) :=
  await (fetch_near supabase lat lng usedRadius None)
    (fun result => Client.Returns (usedRadius, result)).

(** The loop over [NEAR_ME_RADII], entered with the radii still to try, the
    attempts made and the radius last tried. *)
Fixpoint auto_expand (supabase : option (Client.SupabaseClient D))
    (lat lng : double D) (radii : list Z) (attempts usedRadius : Z)
    : Client.completion (Z * Client.FeedResult D) :=
  match radii with
  | [] => fallback supabase lat lng usedRadius
  | radius :: rest =>
      if MAX_ATTEMPTS <=? attempts then fallback supabase lat lng usedRadius
      else
        let attempts := attempts + 1 in
        let usedRadius := radius in
        await (fetch_near supabase lat lng radius None)
          (fun result =>
             if (MIN_RESULTS <=? Z.of_nat (List.length (Client.confessions result)))
                || (radius =? last_radius)
             then Client.Returns (radius, result)
             else auto_expand supabase lat lng rest attempts usedRadius)
  end.

Definition loadNearMe (supabase : option (Client.SupabaseClient D))
    (lat lng : double D) (reset : bool) (st : AppState)
    : Client.completion AppState :=
  if negb reset then
    await (fetch_near supabase lat lng (nearMeRadius st) (cursor (placeFeed st)))
      (fun result =>
         Client.Returns
           (mkAppState (worldFeed st) (merged false (placeFeed st) result)
              (nearMeRadius st) (count_fetch false result (session st))))
  else
    await (auto_expand supabase lat lng NEAR_ME_RADII 0
             (List.hd 0 NEAR_ME_RADII))
      (fun '(radius, result) =>
         Client.Returns
           (mkAppState (worldFeed st) (merged true (placeFeed st) result)
              radius (session st))).

End WithDouble.
Arguments FeedState : clear implicits.
Arguments AppState : clear implicits.
End App.

(** ** The in-memory cache of resolved places (client) *)

Module PlaceCache.
Section Cache.
Variable toLowerCase : Place.jsstring -> Place.jsstring.
Variable number : Type.

(** [type ResolvedPlace] *)
Record ResolvedPlace := mkResolvedPlace {
  query : Place.jsstring;
  name : Place.jsstring;
  lat : number;
  lng : number
}.

Definition normalizeQuery (q : Place.jsstring) : Place.jsstring :=
  toLowerCase (Place.trim q).

(** [cache.get(key) || null] on the [Map] held by the module. *)
Definition getCachedPlace (cache : gmap Place.jsstring ResolvedPlace)
    (query : Place.jsstring) : option ResolvedPlace :=
  let key := normalizeQuery query in
  cache !! key.

Definition setCachedPlace (cache : gmap Place.jsstring ResolvedPlace)
    (place : ResolvedPlace) : gmap Place.jsstring ResolvedPlace :=
  let key := normalizeQuery (query place) in
  <[key := place]> cache.

End Cache.
Arguments mkResolvedPlace {number}.
Arguments query {number}.
Arguments name {number}.
Arguments lat {number}.
Arguments lng {number}.
Arguments getCachedPlace toLowerCase {number}.
Arguments setCachedPlace toLowerCase {number}.
End PlaceCache.

(** ** The analytics session hash (client) *)

Module Analytics.

Definition SESSION_TTL_MS : Z := 24 * 60 * 60 * 1000.

(** Local storage as this module uses it: unavailable, or holding the two
    items [lethe_session_hash] and [lethe_session_created_at], the second
    as the timestamp that was written. *)
Inductive storage :=
| Unavailable
| Available (hash : option string) (created_at : option Z).

Definition truthy (s : option string) : bool :=
  match s with
  | Some (String _ _) => true
  | _ => false
  end.

(** [getSessionHash].  [now_read] and [now_write] are the two readings of
    [Date.now()], [fresh] is what [generateUUID()] returns. *)
Definition getSessionHash (now_read now_write : Z) (fresh : string)
    (st : storage) : string * storage :=
  match st with
  | Unavailable => (fresh, Unavailable)
  | Available existingHash createdAt =>
      match existingHash, createdAt with
      | Some h, Some t =>
          if truthy existingHash && (now_read - t <? SESSION_TTL_MS)
          then (h, st)
          else (fresh, Available (Some fresh) (Some now_write))
      | _, _ => (fresh, Available (Some fresh) (Some now_write))
      end
  end.

End Analytics.

(** ** Vocabulary of the further statements *)

(** The same query with the cursor set to [cur]. *)
Definition with_cursor {D : DoubleOps} (a : Feed.feed_args D)
    (cur : Client.PageCursor) : Feed.feed_args D :=
  Feed.mkFeedArgs (Feed.p_mode a) (Feed.p_limit a)
    (fst <$> cur) (snd <$> cur)
    (Feed.p_lat a) (Feed.p_lng a) (Feed.p_radius_m a).

(** Identifiers are unique in the table (the primary key). *)
Definition unique_ids {D : DoubleOps} (db : list (confession D)) : Prop :=
  NoDup (List.map id db).

(** Every row expires 24 hours after its creation, as inserted rows and
    backfilled rows do. *)
Definition expiry_set {D : DoubleOps} (db : list (confession D)) : Prop :=
  forall c, In c db -> expires_at c = created_at c + Admission.hours 24.

(** The key a row is ordered and paged by. *)
Definition row_cursor {D : DoubleOps} (c : confession D) : Z * N :=
  (created_at c, id c).

(** [c] comes strictly after the position [cur] in the feed's order. *)
Definition after_key {D : DoubleOps} (cur : Z * N) (c : confession D) : bool :=
  (created_at c <? cur.1) || ((created_at c =? cur.1) && (id c <? cur.2)%N).


(** The ad flag is only on once four fetches were counted, and never
    together with the shown flag. *)
Definition armed_invariant (w : Session.World) : Prop :=
  Session.adArmed (Session.state w) = true ->
  (4 <= Session.pageFetchCount (Session.state w))%N /\
  Session.adShown (Session.state w) = false.

(** The numbers of a request are ones the server takes: the page size
    sent and the radius are in the range of [INTEGER] and, in near mode,
    the coordinates are finite. *)
Definition finite_or_null {D : DoubleOps} (x : option (double D)) : bool :=
  match x with Some v => d_is_finite D v | None => true end.

Definition in_32_bits (z : Z) : bool := (- 2 ^ 31 <=? z) && (z <? 2 ^ 31).

Definition reaches_server {D : DoubleOps} (params : Client.FetchFeedParams D)
    : bool :=
  in_32_bits (Z.min (default Client.DEFAULT_LIMIT (Client.limit params)) 50 + 1)
  && in_32_bits (default 1000 (Client.radiusM params))
  && match Client.mode params with
     | Client.world => true
     | Client.near =>
         finite_or_null (Client.lat params)
         && finite_or_null (Client.lng params)
     end.

(** The request for the page that follows the cursor [cur]. *)
Definition page_after {D : DoubleOps} (params : Client.FetchFeedParams D)
    (cur : Client.PageCursor) : Client.FetchFeedParams D :=
  Client.mkFetchFeedParams (Client.mode params) cur (Client.limit params)
    (Client.lat params) (Client.lng params) (Client.radiusM params).

(** A reset of the world feed followed by [k] further loads. *)
Definition world_loads {D : DoubleOps}
    (supabase : option (Client.SupabaseClient D)) (k : nat)
    (st : App.AppState D) : Client.completion (App.AppState D) :=
  Nat.iter k (fun p => App.await p (App.loadWorld supabase false))
    (App.loadWorld supabase true st).

(** The world request the application sends: default page size, no
    location. *)
Definition world_request {D : DoubleOps} : Client.FetchFeedParams D :=
  Client.mkFetchFeedParams Client.world None None None None None.

(** Every row of the cache sits under its own normalised query. *)
Definition keyed_by_query {number : Type}
    (t : gmap Place.jsstring (Place.cache_row number)) : Prop :=
  forall k r, t !! k = Some r -> Place.q_lower r = k.

(** A string of characters that [trim] removes. *)
Definition blank (s : Place.jsstring) : Prop :=
  forallb Place.is_js_space s = true.

(** Sample values for the further statements. *)
Definition hello_row : confession RealOps :=
  mkConfession 2 (lit "hello") 20000000 (20000000 + Admission.hours 24)
    None None (Some false) (Some 7%N).

Definition sample_app : App.AppState RealOps :=
  App.mkAppState App.emptyFeed App.emptyFeed 2000
    (Session.mkWorld Session.initial_state None).


Definition oslo_place : PlaceCache.ResolvedPlace sample_number :=
  PlaceCache.mkResolvedPlace (Place.js "Oslo") (Place.js "Oslo")
    (Some 59) (Some 10).

(** The sample runs are made in the locale C. *)
#[global] Existing Instance Pg.C_locale.

(** * Properties *)

(** ** Session manager *)

Section SessionFacts.
Import Session.

Lemma gate_invariant_cold_start fresh w : gate_invariant (cold_start fresh w).
Proof. unfold gate_invariant; simpl. intuition congruence. Qed.

Lemma gate_invariant_step t e :
  gate_invariant t -> gate_invariant (tally_step t e).
Proof.
  destruct t as [[[sid n armed shown] bg] a s].
  unfold gate_invariant, tally_step; simpl.
  intros (Hflag & Harm & Hshow).
  destruct e as [now | now fresh | | ];
    unfold arms, isAdArmed; simpl;
    unfold onAppForeground, recordPageFetch, getLastBackgroundAt; simpl;
    try destruct bg as [t0|]; simpl;
    try destruct (BACKGROUND_THRESHOLD_MS <=? now - t0); simpl;
    destruct armed, shown; simpl in *;
    try destruct (AD_TRIGGER_THRESHOLD <=? n + 1)%N; simpl;
    rewrite ?Nat.add_0_r;
    intuition (try congruence; try lia).
Qed.

Lemma gate_invariant_run fresh w es : gate_invariant (run fresh w es).
Proof.
  unfold run. generalize (gate_invariant_cold_start fresh w).
  generalize (cold_start fresh w) as t.
  induction es as [|e es IH]; intros t Ht; simpl; [exact Ht|].
  apply IH, gate_invariant_step, Ht.
Qed.

Lemma fetches_from_cold_start fresh w n :
  let w' := Nat.iter n recordPageFetch (initSessionIfNeeded fresh w) in
  pageFetchCount (state w') = N.of_nat n /\
  adShown (state w') = false /\
  adArmed (state w') = (4 <=? N.of_nat n)%N.
Proof.
  induction n as [|n (Hc & Hs & Ha)]; [by simpl|].
  cbn zeta in *. rewrite Nat.iter_succ.
  set (w' := Nat.iter n recordPageFetch (initSessionIfNeeded fresh w)) in *.
  unfold recordPageFetch. rewrite Hs. cbn [state pageFetchCount adShown adArmed].
  rewrite Hc, Ha. split; [lia|split; [done|]].
  unfold AD_TRIGGER_THRESHOLD.
  replace (N.of_nat n + 1)%N with (N.of_nat (S n)) by lia.
  destruct (N.leb_spec 4 (N.of_nat n)), (N.leb_spec 4 (N.of_nat (S n)));
    simpl; try done; lia.
Qed.

(** C7.  A cold start gives a session with no page fetch counted and the ad
    neither armed nor shown.  Recording a page fetch adds one to the counter
    unless the ad was shown in this session, when it changes nothing; the
    flag is set by the fetch that takes the counter to 4, so after [n]
    fetches from a cold start the ad is armed exactly when [n] is at least
    4.  Marking the ad shown sets [adShown] and clears [adArmed].  Whatever
    events follow a cold start, the running session has armed its ad at most
    once and shown an armed ad at most once. *)
Theorem session_one_ad_per_session :
  (forall fresh w,
     let s := state (initSessionIfNeeded fresh w) in
     pageFetchCount s = 0%N /\ adArmed s = false /\ adShown s = false) /\
  (forall w,
     (if hasAdShown w then recordPageFetch w = w else True) /\
     getPageFetchCount (recordPageFetch w) =
       (if hasAdShown w then getPageFetchCount w
        else getPageFetchCount w + 1)%N /\
     adArmed (state (recordPageFetch w)) =
       (if hasAdShown w then adArmed (state w)
        else adArmed (state w) || (4 <=? getPageFetchCount w + 1)%N)) /\
  (forall fresh w n,
     let w' := Nat.iter n recordPageFetch (initSessionIfNeeded fresh w) in
     getPageFetchCount w' = N.of_nat n /\
     isAdArmed w' = (4 <=? N.of_nat n)%N) /\
  (forall w,
     let w' := markAdShown w in
     hasAdShown w' = true /\ adArmed (state w') = false /\
     isAdArmed w' = false /\ recordPageFetch w' = w') /\
  (forall fresh w es,
     (armings (run fresh w es) <= 1)%nat /\
     (showings (run fresh w es) <= 1)%nat).
Proof.
  split; [|split; [|split; [|split]]].
  - intros fresh w. by simpl.
  - intros [[sid n armed shown] bg].
    unfold hasAdShown, getPageFetchCount, recordPageFetch; simpl.
    destruct shown; simpl; [done|].
    unfold AD_TRIGGER_THRESHOLD. by destruct armed, (4 <=? n + 1)%N.
  - intros fresh w n.
    destruct (fetches_from_cold_start fresh w n) as (Hc & Hs & Ha).
    unfold getPageFetchCount, isAdArmed. cbn zeta.
    rewrite Hc, Hs, Ha. by rewrite andb_true_r.
  - intros [[sid n armed shown] bg]. by simpl.
  - intros fresh w es.
    pose proof (gate_invariant_run fresh w es) as (_ & Ha & Hs). lia.
Qed.

End SessionFacts.

(** The scenario of the specification: four fetches arm the ad on the
    fourth, showing it clears the flag, and a fifth fetch is not counted. *)
Example session_scenario :
  let w0 := Session.initSessionIfNeeded "s1"
              (Session.mkWorld Session.initial_state None) in
  let w3 := Nat.iter 3 Session.recordPageFetch w0 in
  let w4 := Session.recordPageFetch w3 in
  let w5 := Session.recordPageFetch (Session.markAdShown w4) in
  (Session.getPageFetchCount w0, Session.isAdArmed w0) = (0%N, false) /\
  (Session.getPageFetchCount w3, Session.isAdArmed w3) = (3%N, false) /\
  (Session.getPageFetchCount w4, Session.isAdArmed w4) = (4%N, true) /\
  (Session.hasAdShown (Session.markAdShown w4),
   Session.isAdArmed (Session.markAdShown w4)) = (true, false) /\
  Session.getPageFetchCount w5 = 4%N.
Proof. repeat split. Qed.

(** ** The regular expressions of the content filter *)

Section RegexFacts.
Import Pg.
Context {L : Locale}.
Variable icase : bool.
Variable s : text.

Lemma in_ends_atom a i j :
  In j (ends icase s (RAtom a) i)
  <-> j = S i /\ char_at (atom_matches icase a) s i.
Proof.
  cbn [ends]. unfold char_at.
  destruct (nth_error s i) as [c|]; [destruct (atom_matches icase a c) eqn:E|].
  - split.
    + intros [<-|[]]. eauto.
    + intros (-> & _). by left.
  - split; [done|]. intros (_ & c' & [= <-] & H). congruence.
  - split; [done|]. by intros (_ & c' & [=] & _).
Qed.

Lemma in_ends_seq r1 r2 i k :
  In k (ends icase s (RSeq r1 r2) i)
  <-> exists j, In j (ends icase s r1 i) /\ In k (ends icase s r2 j).
Proof. cbn [ends]. apply in_flat_map. Qed.

Lemma in_ends_empty i j : In j (ends icase s REmpty i) <-> j = i.
Proof. cbn [ends]. split; [by intros [<-|[]]|intros ->; by left]. Qed.

Lemma in_ends_last r i j :
  In j (ends icase s (RSeq r REmpty) i) <-> In j (ends icase s r i).
Proof.
  rewrite in_ends_seq. split.
  - by intros (j' & H & ->%in_ends_empty).
  - intros H. exists j. split; [done|]. by apply in_ends_empty.
Qed.

Lemma in_ends_opt r i j :
  In j (ends icase s (ROpt r) i) <-> j = i \/ In j (ends icase s r i).
Proof. cbn [ends In]. intuition. Qed.

Lemma in_ends_alt r rs i j :
  In j (ends icase s (Admission.alt r rs) i)
  <-> exists r', In r' (r :: rs) /\ In j (ends icase s r' i).
Proof.
  revert r. induction rs as [|r1 rs IH]; intros r.
  - cbn. split; [eauto|]. by intros (r' & [<-|[]] & H).
  - cbn [Admission.alt ends]. rewrite in_app_iff, IH. split.
    + intros [H|(r' & Hr' & H)]; [exists r; split; [by left|done]|].
      exists r'. split; [by right|done].
    + intros (r' & [<-|Hr'] & H); [by left|]. right. eauto.
Qed.

Lemma in_ends_word_begin i j :
  In j (ends icase s RWordBegin i) <-> j = i /\ word_begins s i = true.
Proof.
  cbn [ends]. destruct (word_begins s i).
  - split; [by intros [<-|[]]|intros (-> & _); by left].
  - split; [done|]. by intros (_ & ?).
Qed.

Lemma in_ends_word_end i j :
  In j (ends icase s RWordEnd i) <-> j = i /\ word_ends s i = true.
Proof.
  cbn [ends]. destruct (word_ends s i).
  - split; [by intros [<-|[]]|intros (-> & _); by left].
  - split; [done|]. by intros (_ & ?).
Qed.

Lemma char_at_bound P i : char_at P s i -> (i < List.length s)%nat.
Proof. intros (c & Hc & _). apply nth_error_Some. congruence. Qed.

Lemma run_of_bound P i j :
  run_of P s i j -> (i < j)%nat -> (j <= List.length s)%nat.
Proof.
  intros Hrun Hlt. pose proof (char_at_bound _ _ (Hrun (j - 1)%nat ltac:(lia))).
  lia.
Qed.

(** Repeating one atom: from a position of [from], through characters the
    atom matches. *)
Lemma in_closure_atom a n from j :
  In j (closure n (ends icase s (RAtom a)) from)
  <-> exists i, In i from /\ (i <= j <= i + n)%nat /\
                run_of (atom_matches icase a) s i j.
Proof.
  revert from. induction n as [|n IH]; intros from.
  - cbn [closure]. split.
    + intros H. exists j. split; [done|]. split; [lia|]. intros k Hk. lia.
    + intros (i & Hi & Hle & _). by replace j with i by lia.
  - cbn [closure]. rewrite in_app_iff, IH. split.
    + intros [H|(i1 & Hi1 & Hle & Hrun)].
      * exists j. split; [done|]. split; [lia|]. intros k Hk. lia.
      * apply in_flat_map in Hi1 as (i0 & Hi0 & (-> & Hc)%in_ends_atom).
        exists i0. split; [done|]. split; [lia|]. intros k Hk.
        destruct (decide (k = i0)) as [->|]; [done|]. apply Hrun. lia.
    + intros (i & Hi & Hle & Hrun).
      destruct (decide (j = i)) as [->|]; [by left|]. right.
      exists (S i). split; [|split; [lia|]].
      * apply in_flat_map. exists i. split; [done|].
        apply in_ends_atom. split; [done|]. apply Hrun. lia.
      * intros k Hk. apply Hrun. lia.
Qed.

Lemma in_ends_star_atom a i j :
  In j (ends icase s (RStar (RAtom a)) i)
  <-> (i <= j)%nat /\ run_of (atom_matches icase a) s i j.
Proof.
  change (ends icase s (RStar (RAtom a)) i)
    with (closure (List.length s) (ends icase s (RAtom a)) [i]).
  rewrite in_closure_atom. split.
  - intros (i0 & [<-|[]] & Hle & Hrun). split; [lia|done].
  - intros (Hle & Hrun). exists i. split; [by left|]. split; [|done].
    destruct (decide (i = j)) as [->|]; [lia|].
    pose proof (run_of_bound _ _ _ Hrun). lia.
Qed.

Lemma in_ends_plus_atom a i j :
  In j (ends icase s (RPlus (RAtom a)) i)
  <-> (i < j)%nat /\ run_of (atom_matches icase a) s i j.
Proof.
  change (ends icase s (RPlus (RAtom a)) i)
    with (closure (List.length s) (ends icase s (RAtom a))
            (ends icase s (RAtom a) i)).
  rewrite in_closure_atom. split.
  - intros (i0 & (-> & Hc)%in_ends_atom & Hle & Hrun). split; [lia|].
    intros k Hk. destruct (decide (k = i)) as [->|]; [done|]. apply Hrun. lia.
  - intros (Hlt & Hrun). exists (S i). split; [|split].
    + apply in_ends_atom. split; [done|]. apply Hrun. lia.
    + pose proof (run_of_bound _ _ _ Hrun). lia.
    + intros k Hk. apply Hrun. lia.
Qed.

Lemma in_ends_chars cs k i j :
  In j (ends icase s (chars cs k) i)
  <-> (forall n p, nth_error cs n = Some p ->
         char_at (atom_matches icase (AChar (N_of_ascii p))) s (i + n))
      /\ In j (ends icase s k (i + List.length cs)).
Proof.
  revert i. induction cs as [|c cs IH]; intros i.
  - cbn [chars List.length]. rewrite Nat.add_0_r. split; [|by intros (_ & ?)].
    intros H. split; [|done]. by intros [|n] p.
  - cbn [chars List.length]. rewrite in_ends_seq. split.
    + intros (j1 & (-> & Hc)%in_ends_atom & (Hcs & Hk)%IH). split.
      * intros [|n] p Hp.
        -- injection Hp as <-. by rewrite Nat.add_0_r.
        -- replace (i + S n)%nat with (S i + n)%nat by lia. by apply Hcs.
      * by replace (i + S (List.length cs))%nat
          with (S i + List.length cs)%nat by lia.
    + intros (Hcs & Hk). exists (S i). split.
      * apply in_ends_atom. split; [done|].
        rewrite <- (Nat.add_0_r i). by apply (Hcs 0%nat).
      * apply IH. split.
        -- intros n p Hp. replace (S i + n)%nat with (i + S n)%nat by lia.
           by apply Hcs.
        -- by replace (S i + List.length cs)%nat
             with (i + S (List.length cs))%nat by lia.
Qed.

Lemma regex_match_spec r :
  regex_match icase r s = true
  <-> exists i j, (i <= List.length s)%nat /\ In j (ends icase s r i).
Proof.
  unfold regex_match. rewrite existsb_exists. unfold matches_from. split.
  - intros (i & Hi%in_seq & H). exists i.
    destruct (ends icase s r i) as [|j l]; [done|]. exists j.
    split; [lia|by left].
  - intros (i & j & Hle & H). exists i. split; [apply in_seq; lia|].
    by destruct (ends icase s r i).
Qed.

End RegexFacts.

(** ** The content filter, pattern by pattern *)

Section PatternFacts.
Import Pg Admission.
Context {L : Locale}.
Implicit Types (v w : Pg.text) (i j : nat).

Lemma length_list_ascii (w : string) :
  List.length (list_ascii_of_string w) = String.length w.
Proof. induction w as [|c w IH]; cbn; by rewrite ?IH. Qed.

Lemma length_lit (w : string) : List.length (lit w) = String.length w.
Proof. unfold lit. by rewrite length_map, length_list_ascii. Qed.

Lemma spelled_app w1 w2 v i :
  spelled (w1 ++ w2) v i
  <-> spelled w1 v i /\ spelled w2 v (i + List.length w1).
Proof.
  unfold spelled. split.
  - intros H. split.
    + intros n p Hp. apply H. rewrite nth_error_app1; [done|].
      apply nth_error_Some. congruence.
    + intros n p Hp. replace (i + List.length w1 + n)%nat
        with (i + (List.length w1 + n))%nat by lia.
      apply H. rewrite nth_error_app2 by lia.
      by replace (List.length w1 + n - List.length w1)%nat with n by lia.
  - intros (H1 & H2) n p Hp.
    destruct (le_lt_dec (List.length w1) n) as [Hle|Hlt].
    + rewrite nth_error_app2 in Hp by done.
      replace (i + n)%nat
        with (i + List.length w1 + (n - List.length w1))%nat by lia.
      by apply H2.
    + rewrite nth_error_app1 in Hp by done. by apply H1.
Qed.

Lemma same_letter_spec p c :
  same_letter p c = atom_matches true (AChar p) c.
Proof.
  unfold same_letter, capital, small. cbn [atom_matches].
  unfold to_lower, to_upper, is_upper, is_lower, in_range.
  destruct ((65 <=? p) && (p <=? 90))%N eqn:Hu;
    destruct ((97 <=? p) && (p <=? 122))%N eqn:Hl; cbn [andb orb].
  - apply andb_true_iff in Hu as (_ & ?%N.leb_le).
    apply andb_true_iff in Hl as (?%N.leb_le & _). lia.
  - rewrite orb_false_r. apply orb_comm.
  - by rewrite orb_false_r.
  - by rewrite !orb_false_r, orb_diag.
Qed.

Lemma char_at_ext (P Q : N -> bool) v i :
  (forall c, P c = Q c) -> char_at P v i <-> char_at Q v i.
Proof.
  intros H. unfold char_at. split; intros (c & Hc & Hp); exists c;
    (split; [done|]); [by rewrite <- H|by rewrite H].
Qed.

Lemma char_at_same_letter p v i :
  char_at (atom_matches true (AChar p)) v i <-> char_at (same_letter p) v i.
Proof. apply char_at_ext. intros c. by rewrite same_letter_spec. Qed.

Lemma spelled_one p v i : spelled [p] v i <-> char_at (same_letter p) v i.
Proof.
  unfold spelled. split.
  - intros H. rewrite <- (Nat.add_0_r i). by apply (H 0%nat).
  - intros H [|[|n]] q [= <-]. by rewrite Nat.add_0_r.
Qed.

(** A word of the expression, matched without regard to case. *)
Lemma in_ends_word v (w : string) i j :
  In j (ends true v (word w) i)
  <-> spelled (lit w) v i /\ j = (i + String.length w)%nat.
Proof.
  unfold word. rewrite in_ends_chars, in_ends_empty, length_list_ascii.
  unfold spelled, lit. split.
  - intros (H & ->). split; [|done]. intros n p Hp.
    rewrite nth_error_map in Hp.
    destruct (nth_error (list_ascii_of_string w) n) as [a|] eqn:Ha; [|done].
    injection Hp as <-. apply (char_at_ext _ _ _ _ (same_letter_spec _)).
    by apply H.
  - intros (H & ->). split; [|done]. intros n a Ha.
    apply (char_at_ext _ _ _ _ (same_letter_spec _)).
    apply (H n (N_of_ascii a)). by rewrite nth_error_map, Ha.
Qed.

Lemma word_at_char v i : char_at is_word v i -> word_at v i = true.
Proof. intros (c & Hc & H). unfold word_at. by rewrite Hc. Qed.

Lemma no_word_at_spec v i : negb (word_at v i) = true <-> no_word_at v i.
Proof.
  unfold word_at, no_word_at. destruct (nth_error v i) as [c|].
  - rewrite negb_true_iff. split; [by intros H c' [= <-]|]. intros H. by apply H.
  - split; [by intros _ c' [=]|done].
Qed.

Lemma word_begins_spec v i :
  char_at is_word v i -> word_begins v i = true <-> no_word_before v i.
Proof.
  intros H%word_at_char. unfold word_begins, no_word_before. rewrite H.
  cbn [andb]. destruct i as [|j]; [done|]. apply no_word_at_spec.
Qed.

Lemma word_ends_spec v j :
  char_at is_word v j -> word_ends v (S j) = true <-> no_word_at v (S j).
Proof.
  intros H%word_at_char. unfold word_ends. rewrite H. cbn [andb].
  apply no_word_at_spec.
Qed.

Lemma upper_is_word c : is_upper c = true -> is_word c = true.
Proof. unfold is_word, is_alnum. intros ->. by rewrite orb_true_r. Qed.

Lemma lower_is_word c : is_lower c = true -> is_word c = true.
Proof. unfold is_word, is_alnum. intros ->. by rewrite !orb_true_r. Qed.

Lemma char_at_weaken (P Q : N -> bool) v i :
  (forall c, P c = true -> Q c = true) -> char_at P v i -> char_at Q v i.
Proof. intros H (c & Hc & Hp). exists c. auto. Qed.

(** A small letter, in either case, is a word character. *)
Lemma small_letter_is_word p c :
  is_lower p = true -> same_letter p c = true -> is_word c = true.
Proof.
  rewrite same_letter_spec. cbn [atom_matches].
  unfold to_lower, to_upper, is_word, is_alnum, is_upper,
    is_lower, is_digit, in_range.
  intros Hl. rewrite Hl.
  assert (((65 <=? p) && (p <=? 90))%N = false) as ->
    by (apply andb_true_iff in Hl as (?%N.leb_le & ?%N.leb_le);
        apply andb_false_iff; right; apply N.leb_gt; lia).
  apply andb_true_iff in Hl as (Hlo%N.leb_le & Hhi%N.leb_le).
  intros [->%N.eqb_eq | ->%N.eqb_eq]%orb_true_iff.
  - assert ((97 <=? p)%N = true) as -> by (apply N.leb_le; lia).
    assert ((p <=? 122)%N = true) as -> by (apply N.leb_le; lia).
    by rewrite !orb_true_r.
  - assert ((65 <=? p - 32)%N = true) as -> by (apply N.leb_le; lia).
    assert ((p - 32 <=? 90)%N = true) as -> by (apply N.leb_le; lia).
    by rewrite orb_true_r.
Qed.

Lemma has_at_spec v : has_at v = true <-> names_address v.
Proof.
  unfold has_at, contains_char, names_address. rewrite existsb_exists. split.
  - by intros (c & Hc & <-%N.eqb_eq).
  - intros H. exists 64%N. split; [done|]. apply N.eqb_refl.
Qed.

Lemma digit_count_length v : List.length (digits_only v) = digit_count v.
Proof.
  unfold digits_only. induction v as [|c v IH]; [done|].
  cbn [List.filter digit_count]. change (digit c) with (is_digit c).
  destruct (is_digit c); cbn [List.length]; lia.
Qed.

Lemma has_8_digits_spec v : has_8_digits v = true <-> names_number v.
Proof.
  unfold has_8_digits, names_number, char_length. cbn zeta.
  rewrite digit_count_length, Z.leb_le. lia.
Qed.

Lemma has_plus_digit_spec v : has_plus_digit v = true <-> names_country_code v.
Proof.
  unfold has_plus_digit, names_country_code. rewrite regex_match_spec.
  unfold re_plus_digit, cat, ch, range. cbn [fold_right]. split.
  - intros (i & j & _ & H).
    apply in_ends_seq in H as (j1 & (-> & H1)%in_ends_atom & H).
    apply in_ends_seq in H as (j2 & (Hle & Hrun)%in_ends_star_atom & H).
    apply in_ends_last, in_ends_atom in H as (-> & H3).
    exists i, j2. split; [exact H1|]. split; [lia|]. split; [exact Hrun|exact H3].
  - intros (i & j & H1 & Hlt & Hrun & H3). exists i, (S j).
    split; [pose proof (char_at_bound _ _ _ H1); lia|].
    apply in_ends_seq. exists (S i).
    split; [apply in_ends_atom; split; [done|exact H1]|].
    apply in_ends_seq. exists j.
    split; [apply in_ends_star_atom; split; [lia|exact Hrun]|].
    apply in_ends_last, in_ends_atom. split; [done|exact H3].
Qed.

Lemma has_two_names_spec v : has_two_names v = true <-> names_person v.
Proof.
  unfold has_two_names, names_person, capitalised. rewrite regex_match_spec.
  unfold re_two_names, cat, range. cbn [fold_right]. split.
  - intros (i & j & _ & H).
    apply in_ends_seq in H as (? & (-> & Hwb)%in_ends_word_begin & H).
    apply in_ends_seq in H as (? & (-> & Hu1)%in_ends_atom & H).
    apply in_ends_seq in H as (j1 & (Hlt1 & Hrun1)%in_ends_plus_atom & H).
    apply in_ends_seq in H as (j2 & (Hlt2 & Hrun2)%in_ends_plus_atom & H).
    apply in_ends_seq in H as (? & (-> & Hu2)%in_ends_atom & H).
    apply in_ends_seq in H as (j3 & (Hlt3 & Hrun3)%in_ends_plus_atom & H).
    apply in_ends_last, in_ends_word_end in H as (-> & Hwe).
    exists i, j1, j2, j3.
    assert (char_at is_upper v i) as Hu1' by exact Hu1.
    assert (char_at is_upper v j2) as Hu2' by exact Hu2.
    assert (run_of is_lower v (S i) j1) as Hrun1' by exact Hrun1.
    assert (run_of is_lower v (S j2) j3) as Hrun3' by exact Hrun3.
    split.
    { apply word_begins_spec; [|done].
      by apply (char_at_weaken _ _ _ _ upper_is_word). }
    split; [done|]. split; [done|]. split; [exact Hrun2|]. split; [done|].
    destruct j3 as [|j3]; [lia|].
    apply word_ends_spec; [|done].
    apply (char_at_weaken _ _ _ _ lower_is_word), Hrun3'. lia.
  - intros (i & j & k & l & Hb & (Hu1 & Hlt1 & Hrun1) & Hlt2 & Hrun2
            & (Hu2 & Hlt3 & Hrun3) & He).
    exists i, l. split; [pose proof (char_at_bound _ _ _ Hu1); lia|].
    apply in_ends_seq. exists i. split.
    { apply in_ends_word_begin. split; [done|].
      apply word_begins_spec; [|done].
      by apply (char_at_weaken _ _ _ _ upper_is_word). }
    apply in_ends_seq. exists (S i).
    split; [apply in_ends_atom; split; [done|exact Hu1]|].
    apply in_ends_seq. exists j.
    split; [apply in_ends_plus_atom; split; [lia|exact Hrun1]|].
    apply in_ends_seq. exists k.
    split; [apply in_ends_plus_atom; split; [lia|exact Hrun2]|].
    apply in_ends_seq. exists (S k).
    split; [apply in_ends_atom; split; [done|exact Hu2]|].
    apply in_ends_seq. exists l.
    split; [apply in_ends_plus_atom; split; [lia|exact Hrun3]|].
    apply in_ends_last, in_ends_word_end. split; [done|].
    destruct l as [|l]; [lia|].
    apply word_ends_spec; [|done].
    apply (char_at_weaken _ _ _ _ lower_is_word), Hrun3. lia.
Qed.

Lemma scheme_spec v :
  (v ~* re_scheme) = true
  <-> exists i, spelled (lit "http://") v i \/ spelled (lit "https://") v i.
Proof.
  rewrite regex_match_spec. unfold re_scheme, cat, ch. cbn [fold_right].
  change (lit "http://") with (lit "http" ++ lit "://").
  change (lit "https://") with (lit "http" ++ [115%N] ++ lit "://").
  split.
  - intros (i & j & _ & H).
    apply in_ends_seq in H as (j1 & (Hhttp & ->)%in_ends_word & H).
    apply in_ends_seq in H as (j2 & Hs%in_ends_opt & H).
    apply in_ends_last, in_ends_word in H as (Hrest & _).
    exists i. destruct Hs as [-> | (-> & Hs)%in_ends_atom].
    + left. apply spelled_app. split; [done|]. by rewrite length_lit.
    + right. apply spelled_app. rewrite length_lit. split; [done|].
      apply spelled_app. split; [by apply spelled_one, char_at_same_letter|].
      cbn [List.length]. by replace (i + String.length "http" + 1)%nat
        with (S (i + String.length "http")) by lia.
  - intros (i & [H|H]).
    + apply spelled_app in H as (Hhttp & Hrest). rewrite length_lit in Hrest.
      exists i, (i + String.length "http" + String.length "://")%nat. split.
      { pose proof (char_at_bound _ _ _ (Hhttp 0%nat _ eq_refl)). lia. }
      apply in_ends_seq. exists (i + String.length "http")%nat.
      split; [by apply in_ends_word|].
      apply in_ends_seq. exists (i + String.length "http")%nat.
      split; [apply in_ends_opt; by left|].
      by apply in_ends_last, in_ends_word.
    + apply spelled_app in H as (Hhttp & H). rewrite length_lit in H.
      apply spelled_app in H as (Hs%spelled_one & Hrest).
      cbn [List.length] in Hrest.
      exists i, (i + String.length "http" + 1 + String.length "://")%nat. split.
      { pose proof (char_at_bound _ _ _ (Hhttp 0%nat _ eq_refl)). lia. }
      apply in_ends_seq. exists (i + String.length "http")%nat.
      split; [by apply in_ends_word|].
      apply in_ends_seq. exists (i + String.length "http" + 1)%nat. split.
      { apply in_ends_opt. right. apply in_ends_atom. split; [lia|].
        by apply char_at_same_letter. }
      by apply in_ends_last, in_ends_word.
Qed.

Lemma www_spec v :
  (v ~* re_www) = true
  <-> exists i, spelled (lit "www.") v i /\ no_word_before v i.
Proof.
  rewrite regex_match_spec. unfold re_www, cat. cbn [fold_right].
  assert (forall i, spelled (lit "www.") v i -> char_at is_word v i) as Hw.
  { intros i H. rewrite <- (Nat.add_0_r i).
    apply (char_at_weaken (same_letter 119)); [|by apply (H 0%nat)].
    intros c. by apply (small_letter_is_word 119). }
  split.
  - intros (i & j & _ & H).
    apply in_ends_seq in H as (? & (-> & Hwb)%in_ends_word_begin & H).
    apply in_ends_last, in_ends_word in H as (Hsp & _).
    exists i. split; [done|]. apply word_begins_spec; auto.
  - intros (i & Hsp & Hb). exists i, (i + String.length "www.")%nat. split.
    { pose proof (char_at_bound _ _ _ (Hw i Hsp)). lia. }
    apply in_ends_seq. exists i. split.
    + apply in_ends_word_begin. split; [done|]. apply word_begins_spec; auto.
    + by apply in_ends_last, in_ends_word.
Qed.

Lemma has_url_spec v : has_url v = true <-> names_link v.
Proof.
  unfold has_url, names_link. rewrite orb_true_iff, scheme_spec, www_spec.
  split.
  - intros [(i & H)|(i & H)]; exists i; tauto.
  - intros (i & [H|[H|H]]); [left|left|right]; exists i; tauto.
Qed.

(** The letter a domain ending stops on is a word character. *)
Lemma ending_is_word (w : string) v i :
  In w domain_endings -> spelled (lit "." ++ lit w) v i ->
  char_at is_word v (i + String.length w).
Proof.
  intros Hw Hsp.
  assert (exists p, nth_error (lit "." ++ lit w) (String.length w) = Some p /\
                    is_lower p = true) as (p & Hp & Hl).
  { unfold domain_endings in Hw.
    repeat (destruct Hw as [<-|Hw]; [eexists; split; reflexivity|]).
    destruct Hw. }
  apply (char_at_weaken (same_letter p)); [|by apply Hsp].
  intros c. by apply small_letter_is_word.
Qed.

Lemma has_tld_spec v : has_tld v = true <-> names_domain v.
Proof.
  unfold has_tld, names_domain. rewrite regex_match_spec.
  unfold re_tld, cat, ch. cbn [fold_right].
  change [word "net"; word "org"; word "no"; word "io"; word "co"; word "app"]
    with (List.map word (tl domain_endings)).
  split.
  - intros (i & j & _ & H).
    apply in_ends_seq in H as (? & (-> & Hdot)%in_ends_atom & H).
    apply in_ends_seq in H as (j1 & (r' & Hr' & Hw)%in_ends_alt & H).
    apply in_ends_last, in_ends_word_end in H as (-> & Hwe).
    assert (exists w : string, In w domain_endings /\ r' = word w)
      as (w & Hin & ->).
    { change (word "com" :: List.map word (tl domain_endings))
        with (List.map word domain_endings) in Hr'.
      apply in_map_iff in Hr' as (w & <- & Hin). eauto. }
    apply in_ends_word in Hw as (Hsp & ->).
    assert (spelled (lit "." ++ lit w) v i) as Hall.
    { apply spelled_app.
      split; [by apply spelled_one, char_at_same_letter|].
      cbn [List.length lit List.map list_ascii_of_string].
      by replace (i + 1)%nat with (S i) by lia. }
    exists i, w. split; [done|]. split; [done|].
    replace (i + 1 + String.length w)%nat with (S i + String.length w)%nat
      by lia.
    cbn [Nat.add] in *. apply word_ends_spec; [|done].
    by apply ending_is_word.
  - intros (i & w & Hin & Hall & He).
    pose proof (ending_is_word w v i Hin Hall) as Hlast.
    apply spelled_app in Hall as (Hdot%spelled_one & Hsp).
    cbn [List.length lit List.map list_ascii_of_string] in Hsp.
    exists i, (i + 1 + String.length w)%nat.
    split; [pose proof (char_at_bound _ _ _ Hdot); lia|].
    apply in_ends_seq. exists (S i).
    split; [apply in_ends_atom; split; [done|by apply char_at_same_letter]|].
    apply in_ends_seq. exists (i + 1 + String.length w)%nat. split.
    + apply in_ends_alt. exists (word w). split.
      * change (word "com" :: List.map word (tl domain_endings))
          with (List.map word domain_endings).
        by apply in_map.
      * apply in_ends_word. split; [|lia].
        by replace (S i) with (i + 1)%nat by lia.
    + apply in_ends_last, in_ends_word_end. split; [done|].
      replace (i + 1 + String.length w)%nat with (S (i + String.length w))
        in * by lia.
      by apply word_ends_spec.
Qed.

Lemma content_blocked_spec v : content_blocked v = true <-> identifies v.
Proof.
  unfold content_blocked, identifies.
  rewrite !orb_true_iff, has_at_spec, has_url_spec, has_tld_spec,
    has_8_digits_spec, has_plus_digit_spec, has_two_names_spec.
  tauto.
Qed.

Lemma ltrim_spec (s : Pg.text) :
  exists pre, s = pre ++ ltrim s /\ spaces pre /\ head (ltrim s) <> Some 32%N.
Proof.
  induction s as [|c s (pre & Hs & Hpre & Hhead)].
  - exists []. repeat split; [constructor|done].
  - cbn [ltrim]. destruct (N.eqb_spec c 32) as [->|Hc].
    + exists (32%N :: pre). split; [cbn; by rewrite <- Hs|].
      split; [by constructor|done].
    + exists []. split; [done|]. split; [constructor|]. cbn. congruence.
Qed.

(** [btrim] takes the spaces off both ends, and nothing else. *)
Lemma btrim_stripped (t : Pg.text) : stripped t (btrim t).
Proof.
  unfold stripped, btrim, rtrim.
  destruct (ltrim_spec t) as (pre & Ht & Hpre & Hhead).
  destruct (ltrim_spec (rev (ltrim t))) as (post & Hu & Hpost & Hlast).
  set (u := ltrim t) in *. set (w := ltrim (rev u)) in *.
  assert (u = rev w ++ rev post) as Hu'.
  { rewrite <- rev_app_distr, <- Hu. by rewrite rev_involutive. }
  exists pre, (rev post). split; [by rewrite Ht at 1; rewrite Hu' at 1|].
  split; [done|]. split; [by apply Forall_rev|]. split.
  - destruct (rev w) as [|c l] eqn:E; [done|]. rewrite Hu' in Hhead. exact Hhead.
  - destruct w as [|c w']; [done|]. cbn [rev]. rewrite last_snoc. exact Hlast.
Qed.

End PatternFacts.

(** ** Admission *)

Section AdmissionFacts.
Import Admission.
Context {D : DoubleOps} {L : Pg.Locale}.

Lemma existsb_rev' {A} (f : A -> bool) (l : list A) :
  existsb f (rev l) = existsb f l.
Proof.
  induction l as [|x l IH]; simpl; [done|].
  rewrite existsb_app, IH. simpl. by rewrite orb_false_r, orb_comm.
Qed.

Lemma contains_char_ltrim c s :
  c <> 32%N -> contains_char c (ltrim s) = contains_char c s.
Proof.
  intros Hc. unfold contains_char.
  induction s as [|x s IH]; simpl; [done|].
  destruct (N.eqb_spec x 32) as [->|]; [|done].
  rewrite IH. by destruct (N.eqb_spec c 32).
Qed.

Lemma contains_char_btrim c s :
  c <> 32%N -> contains_char c (btrim s) = contains_char c s.
Proof.
  intros Hc. unfold btrim, rtrim.
  unfold contains_char at 1. rewrite existsb_rev'.
  fold (contains_char c (ltrim (rev (ltrim s)))).
  rewrite contains_char_ltrim by done.
  unfold contains_char at 1. rewrite existsb_rev'.
  by apply contains_char_ltrim.
Qed.

Lemma char_length_zero (v : Pg.text) :
  (char_length v =? 0) = match v with [] => true | _ => false end.
Proof. by destruct v. Qed.

(** The procedure as one cascade over the trimmed text. *)
Lemma insert_confession_cascade uid now nid (db : list (confession D)) t label la lo :
  insert_confession uid now nid db (Some t) label la lo =
    let v := btrim t in
    if char_length v =? 0 then Raised EMPTY_TEXT
    else if 120 <? char_length v then Raised TEXT_TOO_LONG
    else if content_blocked v then Raised CONTENT_BLOCKED
    else if rate_limited uid now db then Raised RATE_LIMIT
    else
      let db' := db ++ [mkConfession nid v now (now + hours 24) la lo
                          (Some false) uid] in
      Returned
        (List.map select_fields (List.filter (fun c => (id c =? nid)%N) db'))
        db'.
Proof.
  unfold insert_confession, content_blocked. cbn [option_map]. cbn zeta.
  rewrite char_length_zero.
  destruct (btrim t) as [|c v]; [done|].
  destruct (120 <? _); [done|].
  destruct (has_at _); [done|]. destruct (has_url _); [done|].
  destruct (has_tld _); [done|]. destruct (has_8_digits _); [done|].
  destruct (has_plus_digit _); [done|]. by destruct (has_two_names _).
Qed.

(** C4, as amended.  The checks run in order and the first that fails
    decides.  An absent text is [EMPTY_TEXT].  Otherwise the text is taken
    without the space characters (U+0020) at its two ends, other white
    space such as a tab or a line break staying where it is; let [v] be
    what is left.  When [v] is empty the outcome is [EMPTY_TEXT]; when [v]
    has more than 120 characters it is [TEXT_TOO_LONG], whatever [v]
    contains; and only a [v] of 1 to 120 characters reaches the pattern
    checks, where the outcome is [CONTENT_BLOCKED] exactly when [v] has an
    at sign, a link, a dot with a domain ending, eight digits, a plus sign
    before a digit, or two capitalised words in a row. *)
Theorem admission_checks_in_order uid now nid (db : list (confession D)) p_text label la lo :
  let r := insert_confession uid now nid db p_text label la lo in
  match p_text with
  | None => r = Raised EMPTY_TEXT
  | Some t =>
      exists v,
        stripped t v /\
        (v = [] -> r = Raised EMPTY_TEXT) /\
        (120 < char_length v -> r = Raised TEXT_TOO_LONG) /\
        (v <> [] -> char_length v <= 120 ->
         r <> Raised EMPTY_TEXT /\ r <> Raised TEXT_TOO_LONG /\
         (r = Raised CONTENT_BLOCKED <-> identifies v))
  end.
Proof.
  destruct p_text as [t|]; [|done]. cbn zeta.
  exists (btrim t). split; [apply btrim_stripped|].
  rewrite insert_confession_cascade. cbn zeta.
  rewrite <- content_blocked_spec, char_length_zero.
  destruct (btrim t) as [|c v] eqn:E; [by repeat split|].
  split; [done|].
  destruct (Z.ltb_spec 120 (char_length (c :: v))).
  { split; [done|]. intros _ Hle. lia. }
  split; [lia|]. intros _ _.
  destruct (content_blocked (c :: v)); [by intuition|].
  destruct (rate_limited uid now db); by intuition.
Qed.

(** C6, as amended.  A text with an at sign is always rejected: as
    [CONTENT_BLOCKED] when, trimmed, it has at most 120 characters, and as
    [TEXT_TOO_LONG] when it has more. *)
Theorem at_sign_rejected uid now nid (db : list (confession D)) t label la lo :
  contains_char 64 t = true ->
  insert_confession uid now nid db (Some t) label la lo =
    if 120 <? char_length (btrim t) then Raised TEXT_TOO_LONG
    else Raised CONTENT_BLOCKED.
Proof.
  intros Hat. rewrite insert_confession_cascade. cbn zeta.
  assert (has_at (btrim t) = true) as Hb.
  { unfold has_at. by rewrite contains_char_btrim. }
  assert (content_blocked (btrim t) = true) as ->.
  { unfold content_blocked. by rewrite Hb. }
  rewrite char_length_zero.
  destruct (btrim t) as [|c v] eqn:E; [by unfold has_at in Hb|].
  by destruct (120 <? _).
Qed.

Lemma posted_by_spec u (c : confession D) :
  posted_by u c = true <-> by_actor u c.
Proof.
  unfold posted_by, by_actor. destruct (user_id c) as [x|]; simpl.
  - destruct (N.eqb_spec x u); split; congruence.
  - split; congruence.
Qed.

Lemma last_post_latest u (db : list (confession D)) :
  latest_post u db (last_post u db).
Proof.
  unfold last_post.
  set (l := List.map created_at (List.filter (posted_by u) db)).
  pose proof (merge_sort_Permutation (flip Z.le) l) as Hp.
  pose proof (StronglySorted_merge_sort (flip Z.le) l) as Hs.
  assert (forall c, In c db -> by_actor u c -> In (created_at c) l) as Hin.
  { intros c Hc Hu. apply in_map, filter_In. split; [done|].
    by apply posted_by_spec. }
  destruct (merge_sort (flip Z.le) l) as [|h s'] eqn:E; simpl.
  - intros c Hc Hu. apply Permutation_nil in Hp.
    specialize (Hin c Hc Hu). rewrite Hp in Hin. destruct Hin.
  - split.
    + assert (In h l) as Hh by (eapply Permutation_in; [exact Hp|by left]).
      apply in_map_iff in Hh as (c & <- & Hc).
      apply filter_In in Hc as (Hc & Hu). exists c.
      split; [done|]. split; [by apply posted_by_spec|done].
    + intros c Hc Hu. specialize (Hin c Hc Hu).
      apply Permutation_sym in Hp.
      apply (Permutation_in _ Hp) in Hin as [<-|Hin]; [lia|].
      apply StronglySorted_inv in Hs as (_ & Hall).
      rewrite List.Forall_forall in Hall. exact (Hall _ Hin).
Qed.

Lemma latest_post_unique u (db : list (confession D)) p1 p2 :
  latest_post u db p1 -> latest_post u db p2 -> p1 = p2.
Proof.
  destruct p1 as [t1|], p2 as [t2|]; simpl.
  - intros ((c1 & Hc1 & Hu1 & <-) & Hmax1) ((c2 & Hc2 & Hu2 & <-) & Hmax2).
    f_equal. specialize (Hmax1 c2 Hc2 Hu2). specialize (Hmax2 c1 Hc1 Hu1). lia.
  - intros ((c & Hc & Hu & _) & _) Hnone. destruct (Hnone c Hc Hu).
  - intros Hnone ((c & Hc & Hu & _) & _). destruct (Hnone c Hc Hu).
  - done.
Qed.

Lemma rate_limited_spec u now (db : list (confession D)) prior :
  latest_post u db prior ->
  rate_limited (Some u) now db =
    match prior with
    | Some tl => now - tl <? seconds 15
    | None => false
    end.
Proof.
  intros Hl.
  rewrite (latest_post_unique u db _ _ Hl (last_post_latest u db)).
  unfold rate_limited. destruct (last_post u db) as [tl|]; simpl; [|done].
  destruct (Z.gtb_spec tl (now - seconds 15)), (Z.ltb_spec (now - tl) (seconds 15));
    try done; lia.
Qed.

(** C5.  Let [u] be an actor.  If [u] has posted before, the latest of
    those posts being at [tl], the rate limiter rejects exactly when less
    than 15 seconds have passed since [tl]; so a submission is only ever
    rejected with [RATE_LIMIT] inside that window, and one whose text gets
    through the admission filter is rejected with [RATE_LIMIT] exactly when
    less than 15 seconds have passed, and accepted at 15 seconds or more.
    If [u] has not posted before, the rate limiter lets the submission
    through: it is never rejected with [RATE_LIMIT], and is accepted when
    its text gets through the filter. *)
Theorem rate_limit_cooldown (u : N) now nid (db : list (confession D))
    t label la lo prior :
  latest_post u db prior ->
  let r := insert_confession (Some u) now nid db (Some t) label la lo in
  match prior with
  | Some tl =>
      rate_limited (Some u) now db = (now - tl <? seconds 15) /\
      (r = Raised RATE_LIMIT -> now - tl < seconds 15) /\
      (passes_filter (btrim t) = true ->
       (r = Raised RATE_LIMIT <-> now - tl < seconds 15) /\
       (seconds 15 <= now - tl -> accepted r))
  | None =>
      rate_limited (Some u) now db = false /\
      r <> Raised RATE_LIMIT /\
      (passes_filter (btrim t) = true -> accepted r)
  end.
Proof.
  intros Hl. cbn zeta.
  rewrite insert_confession_cascade. cbn zeta.
  pose proof (rate_limited_spec u now db prior Hl) as Hrl.
  assert (passes_filter (btrim t) = true ->
          (char_length (btrim t) =? 0) = false /\
          (120 <? char_length (btrim t)) = false /\
          content_blocked (btrim t) = false) as Hpass.
  { unfold passes_filter. rewrite !andb_true_iff, negb_true_iff.
    intros ((Hpos & Hlen) & Hblk). repeat split; [lia|lia|done]. }
  destruct prior as [tl|]; rewrite Hrl.
  - split; [done|]. split.
    + destruct (_ =? 0); [done|]. destruct (120 <? _); [done|].
      destruct (content_blocked _); [done|].
      destruct (Z.ltb_spec (now - tl) (seconds 15)); [done|done].
    + intros (-> & -> & ->)%Hpass.
      destruct (Z.ltb_spec (now - tl) (seconds 15)).
      * split; [by split|]. lia.
      * split; [split; [done|lia]|]. intros _. unfold accepted. eauto.
  - split; [done|]. split.
    + destruct (_ =? 0); [done|]. destruct (120 <? _); [done|].
      by destruct (content_blocked _).
    + intros (-> & -> & ->)%Hpass. unfold accepted. eauto.
Qed.

(** C10.  A submission whose caller has no actor identifier is never
    rejected with [RATE_LIMIT], whatever the table holds: the rate limiter
    lets it through, and the outcome is decided by the admission filter
    alone. *)
Theorem anonymous_never_rate_limited now nid (db : list (confession D))
    p_text label la lo :
  let r := insert_confession None now nid db p_text label la lo in
  rate_limited None now db = false /\
  r <> Raised RATE_LIMIT /\
  match p_text with
  | Some t =>
      if passes_filter (btrim t) then accepted r
      else r = Raised EMPTY_TEXT \/ r = Raised TEXT_TOO_LONG
           \/ r = Raised CONTENT_BLOCKED
  | None => r = Raised EMPTY_TEXT
  end.
Proof.
  cbn zeta. split; [done|].
  destruct p_text as [t|]; [|by split].
  rewrite insert_confession_cascade. cbn zeta. unfold passes_filter.
  destruct (Z.eqb_spec (char_length (btrim t)) 0) as [E|E].
  { rewrite E. simpl. split; [done|by left]. }
  assert ((0 <? char_length (btrim t)) = true) as ->
    by (unfold char_length in *; lia).
  destruct (Z.ltb_spec 120 (char_length (btrim t))).
  { assert ((char_length (btrim t) <=? 120) = false) as -> by lia.
    simpl. split; [done|by right; left]. }
  assert ((char_length (btrim t) <=? 120) = true) as -> by lia.
  destruct (content_blocked (btrim t)); simpl.
  { split; [done|by right; right]. }
  split; [done|]. unfold accepted. eauto.
Qed.

End AdmissionFacts.

(** The length boundary: 120 characters are accepted, 121 are not, and the
    length check comes before the at-sign check. *)
Example admission_accepts_120_characters :
  exists rows db',
    Admission.insert_confession (D := RealOps) None 0 1 []
      (Some (repeat 97%N 120)) None None None = Returned rows db'.
Proof. eexists _, _. vm_compute. reflexivity. Qed.

Example admission_rejects_121_characters :
  Admission.insert_confession (D := RealOps) None 0 1 []
    (Some (repeat 97%N 121)) None None None = Raised TEXT_TOO_LONG.
Proof. vm_compute. reflexivity. Qed.

Example admission_trims_before_measuring :
  exists rows db',
    Admission.insert_confession (D := RealOps) None 0 1 []
      (Some (lit "  " ++ repeat 97%N 120 ++ lit "   ")) None None None
    = Returned rows db'.
Proof. eexists _, _. vm_compute. reflexivity. Qed.

Example admission_scenarios :
  Admission.insert_confession (D := RealOps) None 0 1 []
    (Some (lit "contact@x.com")) None None None = Raised CONTENT_BLOCKED /\
  Admission.insert_confession (D := RealOps) None 0 1 []
    (Some (lit "Call 55512345")) None None None = Raised CONTENT_BLOCKED /\
  Admission.insert_confession (D := RealOps) None 0 1 []
    (Some (lit "   ")) None None None = Raised EMPTY_TEXT /\
  accepted
    (Admission.insert_confession (D := RealOps) None 0 1 []
       (Some (lit "meet me at noon")) None None None).
Proof.
  repeat split; try (vm_compute; reflexivity).
  eexists _, _. vm_compute. reflexivity.
Qed.

(** C6, the statement as given fails: a text of 121 characters that begins
    with an at sign is rejected as [TEXT_TOO_LONG], not as
    [CONTENT_BLOCKED]. *)
Lemma at_sign_over_length_is_too_long :
  contains_char 64 (lit "@" ++ repeat 97%N 120) = true /\
  Admission.insert_confession (D := RealOps) None 0 1 []
    (Some (lit "@" ++ repeat 97%N 120)) None None None
  = Raised TEXT_TOO_LONG /\
  Admission.insert_confession (D := RealOps) None 0 1 []
    (Some (lit "@" ++ repeat 97%N 120)) None None None
  <> Raised CONTENT_BLOCKED.
Proof. vm_compute. repeat split; congruence. Qed.

(** The readings at work, in the locale C: a name, a domain in capitals
    and a country code after a blank are found; words all in capitals, a
    plus sign before a letter and a plain sentence are not. *)
Example filter_readings :
  names_person (lit "ask John Smith") /\
  names_domain (lit "see x.COM") /\
  names_country_code (lit "+ 47") /\
  ~ identifies (lit "JOHN SMITH") /\
  ~ identifies (lit "a+b") /\
  ~ identifies (lit "meet me at noon").
Proof.
  split; [by apply has_two_names_spec|].
  split; [by apply has_tld_spec|].
  split; [by apply has_plus_digit_spec|].
  repeat split; by intros H%content_blocked_spec.
Qed.

(** C4, the statement as given fails on the trimming: a text made of a tab
    and a line break, white space and nothing else, is not empty to the
    procedure, which stores it as it is. *)
Lemma whitespace_only_text_is_stored :
  forallb white_space [9; 10]%N = true /\
  Admission.insert_confession (D := RealOps) None 0 1 []
    (Some [9; 10]%N) None None None
  = Returned
      [mkFeedRow 1 [9; 10]%N 0 (Admission.hours 24) None None]
      [mkConfession 1 [9; 10]%N 0 (Admission.hours 24) None None
         (Some false) None] /\
  Admission.insert_confession (D := RealOps) None 0 1 []
    (Some [9; 10]%N) None None None
  <> Raised EMPTY_TEXT.
Proof. vm_compute. repeat split; congruence. Qed.

Lemma at_sign_rejected_witness :
  contains_char 64 (lit "a@b") = true /\
  Admission.insert_confession (D := RealOps) None 0 1 []
    (Some (lit "a@b")) None None None = Raised CONTENT_BLOCKED.
Proof.
  split; [reflexivity|].
  exact (at_sign_rejected (D := RealOps) None 0 1 [] (lit "a@b")
           None None None eq_refl).
Defined.

Lemma rate_limit_cooldown_witness :
  latest_post 7 [post_at 0] (Some 0) /\
  Admission.rate_limited (Some 7%N) 15000000 [post_at 0]
    = (15000000 - 0 <? Admission.seconds 15) /\
  (Admission.insert_confession (Some 7%N) 15000000 2 [post_at 0]
     (Some (lit "hello")) None None None = Raised RATE_LIMIT ->
   15000000 - 0 < Admission.seconds 15) /\
  (passes_filter (btrim (lit "hello")) = true ->
   (Admission.insert_confession (Some 7%N) 15000000 2 [post_at 0]
      (Some (lit "hello")) None None None = Raised RATE_LIMIT
    <-> 15000000 - 0 < Admission.seconds 15) /\
   (Admission.seconds 15 <= 15000000 - 0 ->
    accepted
      (Admission.insert_confession (Some 7%N) 15000000 2 [post_at 0]
         (Some (lit "hello")) None None None))).
Proof.
  assert (latest_post 7 [post_at 0] (Some 0)) as Hl.
  { split.
    - exists (post_at 0). split; [by left|]. by split.
    - intros c [<-|[]] _. simpl. lia. }
  split; [exact Hl|].
  exact (rate_limit_cooldown (D := RealOps) 7 15000000 2 [post_at 0]
           (lit "hello") None None None (Some 0) Hl).
Defined.

(** The cooldown boundary: one microsecond short of 15 seconds is
    rejected, 15 seconds is accepted. *)
Example rate_limit_boundary :
  Admission.insert_confession (Some 7%N) 14999999 2 [post_at 0]
    (Some (lit "hello")) None None None = Raised RATE_LIMIT /\
  accepted
    (Admission.insert_confession (Some 7%N) 15000000 2 [post_at 0]
       (Some (lit "hello")) None None None) /\
  accepted
    (Admission.insert_confession None 1 2 [post_at 0]
       (Some (lit "hello")) None None None).
Proof.
  split; [vm_compute; reflexivity|].
  split; eexists _, _; vm_compute; reflexivity.
Qed.

(** ** Feed query *)

Section FeedFacts.
Import Feed.
Context {D : DoubleOps}.
Implicit Types (c : confession D) (r : feed_row D) (a : feed_args D).
Implicit Types (db : list (confession D)).

Lemma holds_and (x y : Sql.cond) :
  Sql.holds (x AND y)%sql = Sql.holds x && Sql.holds y.
Proof. by destruct x as [[]|], y as [[]|]. Qed.

Lemma In_firstn {A} n (l : list A) x : In x (firstn n l) -> In x l.
Proof.
  revert l; induction n as [|n IH]; intros [|y l]; simpl; try done.
  intros [->|H]; [by left|right; by apply IH].
Qed.

Lemma StronglySorted_firstn {A} (R : A -> A -> Prop) n (l : list A) :
  StronglySorted R l -> StronglySorted R (firstn n l).
Proof.
  revert l; induction n as [|n IH]; intros [|y l] Hs; simpl;
    try by constructor.
  apply StronglySorted_inv in Hs as (Hs & Hall). constructor; [by apply IH|].
  rewrite List.Forall_forall in *. intros x Hx. by apply Hall, In_firstn with n.
Qed.

Lemma StronglySorted_select (l : list (confession D)) :
  StronglySorted feed_order l ->
  StronglySorted page_order (List.map select_fields l).
Proof.
  induction 1 as [|c l Hs IH Hall]; simpl; constructor; [done|].
  rewrite List.Forall_forall in *. intros r Hr.
  apply in_map_iff in Hr as (c' & <- & Hc'). exact (Hall _ Hc').
Qed.

(** The procedure returns the first [v_limit] matching rows, unless it
    refuses a near query without coordinates. *)
Lemma get_confess_feed_rows now db a :
  get_confess_feed now db a =
    if mode_is_near (p_mode a)
       && (bool_decide (p_lat a = None) || bool_decide (p_lng a = None))
    then Raised NEAR_NEEDS_LAT_LNG
    else Returned
           (List.map select_fields
              (limit (clamp_limit (p_limit a)) (matching now a db)))
           db.
Proof.
  unfold get_confess_feed, matching, select_where.
  destruct (mode_is_near (p_mode a)); [|done].
  by destruct (p_lat a), (p_lng a).
Qed.

Lemma matching_sorted now db a : StronglySorted feed_order (matching now a db).
Proof. apply StronglySorted_merge_sort; apply _. Qed.

Lemma matching_In now db a c :
  In c (matching now a db) <->
  In c db /\
  Sql.holds
    (if mode_is_near (p_mode a)
     then where_near now (clamp_radius (p_radius_m a)) a c
     else where_world now a c) = true.
Proof.
  unfold matching, order_by_created_at_desc_id_desc.
  pose (f := fun c0 : confession D =>
          Sql.holds
            (if mode_is_near (p_mode a)
             then where_near now (clamp_radius (p_radius_m a)) a c0
             else where_world now a c0)).
  change (In c (merge_sort feed_order (List.filter f db)) <->
          In c db /\ f c = true).
  rewrite <- filter_In. split; apply Permutation_in.
  - apply merge_sort_Permutation.
  - symmetry. apply merge_sort_Permutation.
Qed.

Lemma returned_row now db a rows db' r :
  get_confess_feed now db a = Returned rows db' -> In r rows ->
  exists c, r = select_fields c /\ In c (matching now a db).
Proof.
  rewrite get_confess_feed_rows. destruct (_ && _); [done|].
  intros [= <- <-] Hr. apply in_map_iff in Hr as (c & <- & Hc).
  exists c. split; [done|]. by apply In_firstn in Hc.
Qed.

Lemma keyset_no_cursor a c :
  p_cursor_created_at a = None -> keyset a c = Some true.
Proof. unfold keyset. by intros ->. Qed.

Lemma keyset_after_cursor a c t i :
  p_cursor_created_at a = Some t -> p_cursor_id a = Some i ->
  Sql.holds (keyset a c) = true -> after_cursor (t, i) (select_fields c).
Proof.
  unfold keyset, after_cursor. intros -> ->. simpl.
  destruct (Z.ltb_spec (created_at c) t); [by left|].
  destruct (Z.eqb_spec (created_at c) t); simpl; [|done].
  destruct (N.ltb_spec (id c) i); [by right|done].
Qed.

Lemma where_keyset now a c :
  Sql.holds
    (if mode_is_near (p_mode a)
     then where_near now (clamp_radius (p_radius_m a)) a c
     else where_world now a c) = true ->
  Sql.holds (keyset a c) = true.
Proof.
  unfold where_near, where_world. destruct (mode_is_near _);
    rewrite !holds_and, !andb_true_iff; tauto.
Qed.

Lemma where_no_cursor now a c :
  p_cursor_created_at a = None ->
  Sql.holds
    (if mode_is_near (p_mode a)
     then where_near now (clamp_radius (p_radius_m a)) a c
     else where_world now a c) = eligible now a c.
Proof.
  intros Hcur. unfold eligible, where_near, where_world.
  destruct (mode_is_near _); rewrite holds_and, (keyset_no_cursor _ _ Hcur);
    by rewrite andb_true_r.
Qed.

(** C2.  The rows of a page come in the order (created_at DESC, id DESC).
    With a cursor (created_at, id), each row is strictly below the cursor in
    that order: created earlier, or at the same instant with a smaller id.
    Without a cursor the page is the first page: the leading rows, in that
    order, of all rows that pass the other filters, none being held back by
    pagination. *)
Theorem feed_keyset_pagination now db a rows db' :
  get_confess_feed now db a = Returned rows db' ->
  StronglySorted page_order rows /\
  match p_cursor_created_at a, p_cursor_id a with
  | Some t, Some i => forall r, In r rows -> after_cursor (t, i) r
  | Some _, None => True
  | None, _ =>
      (forall c, keyset a c = Some true) /\
      rows = List.map select_fields
               (limit (clamp_limit (p_limit a))
                  (order_by_created_at_desc_id_desc
                     (List.filter (eligible now a) db)))
  end.
Proof.
  intros Hret. split.
  - revert Hret. rewrite get_confess_feed_rows. destruct (_ && _); [done|].
    intros [= <- <-]. apply StronglySorted_select, StronglySorted_firstn.
    apply matching_sorted.
  - destruct (p_cursor_created_at a) as [t|] eqn:Ht.
    + destruct (p_cursor_id a) as [i|] eqn:Hi; [|done].
      intros r Hr.
      destruct (returned_row _ _ _ _ _ _ Hret Hr) as (c & -> & Hc).
      apply matching_In in Hc as (_ & Hc).
      eapply keyset_after_cursor; eauto using where_keyset.
    + assert (forall c, keyset a c = Some true) as Hk
        by (intros c; by apply keyset_no_cursor).
      destruct (p_cursor_id a); (split; [exact Hk|]);
        revert Hret; rewrite get_confess_feed_rows;
        (destruct (_ && _); [done|]); intros [= <- <-];
        unfold matching; do 3 f_equal;
        apply filter_ext; intros c; by apply where_no_cursor.
Qed.

Lemma where_visible now a c :
  Sql.holds
    (if mode_is_near (p_mode a)
     then where_near now (clamp_radius (p_radius_m a)) a c
     else where_world now a c) = true ->
  unexpired_and_shown now c.
Proof.
  intros H.
  assert (Sql.holds (visible now c) = true) as Hv.
  { revert H. unfold where_near, where_world. destruct (mode_is_near _);
      rewrite !holds_and, !andb_true_iff; tauto. }
  revert Hv. unfold visible, unexpired_and_shown. rewrite holds_and. simpl.
  destruct (Z.gtb_spec (expires_at c) now); [|done].
  destruct (Sql.coalesce (is_hidden c) false); [done|]. intros _. split; [lia|done].
Qed.

Lemma where_near_within now a c radius :
  Sql.holds (where_near now radius a c) = true -> within a radius c.
Proof.
  unfold where_near, within, distance. rewrite !holds_and, !andb_true_iff.
  intros ((((_ & _) & _) & Hd) & _). revert Hd.
  destruct (p_lat a) as [pa|], (p_lng a) as [po|],
    (lat c) as [ca|], (lng c) as [co|]; try done.
  simpl. destruct (d_le D _ _) eqn:E; [|done]. intros _.
  exists pa, po, ca, co. by repeat split.
Qed.

(** C3, as amended.  In both modes every returned row is a stored
    confession that has not expired and is not hidden.  In near mode it also
    carries both coordinates, and its great-circle distance from the query
    point is within the radius the server works with: the requested radius
    brought into the range from 100 to 50000 metres.  So a confession
    without coordinates is never returned in near mode, whatever the
    radius. *)
Theorem feed_filters now db a rows db' r :
  get_confess_feed now db a = Returned rows db' -> In r rows ->
  exists c,
    In c db /\ r = select_fields c /\ unexpired_and_shown now c /\
    if mode_is_near (p_mode a)
    then is_Some (r_lat r) /\ is_Some (r_lng r) /\
         within a (clamp_radius (p_radius_m a)) c
    else True.
Proof.
  intros Hret Hr.
  destruct (returned_row _ _ _ _ _ _ Hret Hr) as (c & -> & Hc).
  apply matching_In in Hc as (Hc & Hw).
  exists c. split; [done|]. split; [done|].
  split; [by eapply where_visible|].
  destruct (mode_is_near (p_mode a)); [|done].
  pose proof (where_near_within _ _ _ _ Hw) as Hin.
  destruct Hin as (pa & po & ca & co & Hpa & Hpo & Hca & Hco & Hle).
  simpl. rewrite Hca, Hco. repeat split; eauto.
  exists pa, po, ca, co. by repeat split.
Qed.

(** The radius the server works with is the requested one when that lies
    between 100 and 50000 metres, and never more than a requested radius of
    at least 100. *)
Lemma clamp_radius_spec (p : option Z) :
  100 <= clamp_radius p <= 50000 /\
  match p with
  | Some radius =>
      (100 <= radius <= 50000 -> clamp_radius p = radius) /\
      (100 <= radius -> clamp_radius p <= radius) /\
      (radius < 100 -> clamp_radius p = 100)
  | None => clamp_radius p = 10000
  end.
Proof.
  unfold clamp_radius, greatest, least. destruct p as [radius|]; simpl; lia.
Qed.

Lemma clamp_limit_spec (p : option Z) :
  10 <= clamp_limit p <= 50 /\
  match p with
  | Some n => (10 <= n <= 50 -> clamp_limit p = n) /\
              (50 <= n -> clamp_limit p = 50)
  | None => clamp_limit p = 30
  end.
Proof.
  unfold clamp_limit, greatest, least. destruct p as [n|]; simpl; lia.
Qed.

End FeedFacts.

(** *** Over the real numbers *)

Lemma Rle_bool_spec (x y : R) : Rle_bool x y = true <-> (x <= y)%R.
Proof. unfold Rle_bool. destruct (Rle_dec x y); split; auto; discriminate. Qed.

Lemma mode_is_near_near : Feed.mode_is_near (Some (lit "near")) = true.
Proof. reflexivity. Qed.

(** On the equator the formula gives the arc for the difference in
    longitude. *)
Lemma haversine_equator (lo : R) :
  (0 <= lo * (PI / 180) <= PI)%R ->
  Feed.haversine_m (D := RealOps) 0%R 0%R 0%R lo
  = (6371000 * (lo * (PI / 180)))%R.
Proof.
  intros Hlo. unfold Feed.haversine_m.
  cbn [d_mul d_add d_sub d_cos d_sin d_acos d_radians d_least d_greatest
       d_of_int RealOps].
  rewrite Rmult_0_l, cos_0, sin_0, Rminus_0_r, !Rmult_1_l, Rmult_0_l, Rplus_0_r.
  pose proof (COS_bound (lo * (PI / 180))) as [Hlow Hhigh].
  rewrite Rmax_right by lra. rewrite Rmin_right by lra.
  by rewrite acos_cos.
Qed.

Lemma equator_arc_bounds :
  (0 <= 7 / 10000 * (PI / 180) <= PI)%R /\
  (50 < 6371000 * (7 / 10000 * (PI / 180)) <= 100)%R.
Proof.
  pose proof PI2_3_2. pose proof PI_4. lra.
Qed.

(** A near query with radius 50 at the origin finds the row 0.0007 degrees
    east of it. *)
Lemma near_feed_equator_row :
  Feed.get_confess_feed 0 [equator_row (7 / 10000)] (near_args 50)
  = Returned [select_fields (equator_row (7 / 10000))]
             [equator_row (7 / 10000)].
Proof.
  destruct equator_arc_bounds as (Harc & _ & Hle).
  rewrite get_confess_feed_rows.
  change (Feed.p_mode (near_args 50)) with (Some (lit "near")).
  rewrite mode_is_near_near.
  change (bool_decide (Feed.p_lat (near_args 50) = None)) with false.
  change (bool_decide (Feed.p_lng (near_args 50) = None)) with false.
  cbn [andb orb]. unfold matching.
  change (Feed.p_mode (near_args 50)) with (Some (lit "near")).
  rewrite mode_is_near_near. cbn [List.filter].
  assert (Sql.holds
            (Feed.where_near 0 (Feed.clamp_radius (Feed.p_radius_m (near_args 50)))
               (near_args 50) (equator_row (7 / 10000))) = true) as ->.
  { unfold Feed.where_near. rewrite !holds_and.
    change (Sql.holds (Feed.visible 0 (equator_row (7 / 10000)))) with true.
    change (Feed.clamp_radius (Feed.p_radius_m (near_args 50))) with 100.
    unfold Feed.distance, near_args, equator_row, Feed.keyset.
    cbn [Feed.p_lat Feed.p_lng Feed.p_cursor_created_at Feed.p_cursor_id
         lat lng created_at id Sql.cmp Sql.is_not_null Sql.is_null
         Sql.holds Sql.or Sql.and d_le d_of_int RealOps andb].
    rewrite haversine_equator by exact Harc.
    assert (Rle_bool (6371000 * (7 / 10000 * (PI / 180))) 100 = true) as ->
      by (by apply Rle_bool_spec).
    reflexivity. }
  reflexivity.
Qed.

(** C3, the statement as given fails for a requested radius under 100
    metres: asked for the confessions within 50 metres of the origin, the
    procedure returns a confession that lies more than 50 metres away. *)
Lemma near_feed_exceeds_small_radius :
  Feed.get_confess_feed 0 [equator_row (7 / 10000)] (near_args 50)
  = Returned [select_fields (equator_row (7 / 10000))]
             [equator_row (7 / 10000)] /\
  ~ within (near_args 50) 50 (equator_row (7 / 10000)).
Proof.
  split; [exact near_feed_equator_row|].
  destruct equator_arc_bounds as (Harc & Hfar & _).
  intros (pa & po & ca & co & Hpa & Hpo & Hca & Hco & Hle).
  injection Hpa as <-. injection Hpo as <-.
  injection Hca as <-. injection Hco as <-.
  cbn [d_le d_of_int RealOps] in Hle.
  rewrite haversine_equator in Hle by exact Harc.
  apply Rle_bool_spec in Hle. lra.
Qed.

Lemma feed_filters_witness :
  Feed.get_confess_feed 0 [equator_row (7 / 10000)] (near_args 50)
  = Returned [select_fields (equator_row (7 / 10000))]
             [equator_row (7 / 10000)] /\
  In (select_fields (equator_row (7 / 10000)))
     [select_fields (equator_row (7 / 10000))] /\
  exists c,
    In c [equator_row (7 / 10000)] /\
    select_fields (equator_row (7 / 10000)) = select_fields c /\
    unexpired_and_shown 0 c /\
    (is_Some (r_lat (select_fields (equator_row (7 / 10000)))) /\
     is_Some (r_lng (select_fields (equator_row (7 / 10000)))) /\
     within (near_args 50) 100 c).
Proof.
  split; [exact near_feed_equator_row|]. split; [by left|].
  exact (feed_filters 0 [equator_row (7 / 10000)] (near_args 50) _ _ _
           near_feed_equator_row (or_introl eq_refl)).
Defined.

(** With a requested radius of at least 100 metres, every row of a near
    page lies within the requested radius. *)
Lemma near_feed_within_requested_radius now db (a : Feed.feed_args RealOps)
    rows db' r radius :
  Feed.get_confess_feed now db a = Returned rows db' -> In r rows ->
  Feed.mode_is_near (Feed.p_mode a) = true ->
  Feed.p_radius_m a = Some radius -> 100 <= radius ->
  exists c, In c db /\ r = select_fields c /\ within a radius c.
Proof.
  intros Hret Hr Hnear Hrad Hbig.
  destruct (returned_row _ _ _ _ _ _ Hret Hr) as (c & -> & Hc).
  apply matching_In in Hc as (Hc & Hw). rewrite Hnear in Hw.
  apply where_near_within in Hw
    as (pa & po & ca & co & Hpa & Hpo & Hca & Hco & Hle).
  exists c. split; [done|]. split; [done|].
  exists pa, po, ca, co. repeat split; try done.
  cbn [d_le d_of_int RealOps] in *. apply Rle_bool_spec in Hle.
  apply Rle_bool_spec. eapply Rle_trans; [exact Hle|]. apply IZR_le.
  rewrite Hrad. unfold Feed.clamp_radius, Feed.greatest, Feed.least. simpl. lia.
Qed.

Lemma feed_keyset_pagination_witness :
  Feed.get_confess_feed 500 (sample_db 3) (world_args None (Some (2, 2%N)))
  = Returned [select_fields (sample_row 1)] (sample_db 3) /\
  StronglySorted page_order [select_fields (sample_row 1)] /\
  (forall r, In r [select_fields (sample_row 1)] -> after_cursor (2, 2%N) r).
Proof.
  split; [vm_compute; reflexivity|].
  apply (feed_keyset_pagination 500 (sample_db 3)
           (world_args None (Some (2, 2%N)))
           [select_fields (sample_row 1)] (sample_db 3)).
  vm_compute. reflexivity.
Defined.

(** ** Client wrappers *)

Section ClientFacts.
Import Client.
Context {D : DoubleOps} {L : Pg.Locale}.

Lemma near_check_passes (params : FetchFeedParams D) :
  well_formed params ->
  match mode params with near => true | world => false end
  && (nullish (lat params) || nullish (lng params))
  = false.
Proof.
  unfold well_formed. destruct (mode params); [done|].
  by intros ([x ->] & [y ->]).
Qed.

(** What the wrapper makes of the rows it receives, for a page size in
    range: it has asked for one row more than the page size, keeps the first
    [n] rows, and reports more exactly when more than [n] rows came back. *)
Lemma fetchFeed_page_mechanics sb (params : FetchFeedParams D) n items :
  default DEFAULT_LIMIT (limit params) = n -> 10 <= n <= 50 ->
  well_formed params ->
  rpc_get_confess_feed sb (request_for params n) = Reply (Some items) None ->
  fetchFeed (Some sb) params =
    Returns (mkFeedResult (firstn (Z.to_nat n) items)
               (cursor_of_last (firstn (Z.to_nat n) items))
               (n <? Z.of_nat (List.length items))).
Proof.
  intros Hlim Hn Hwf Hreply. unfold fetchFeed. cbn zeta.
  rewrite Hlim, (near_check_passes _ Hwf).
  replace (Z.min n 50 + 1) with (n + 1) by lia.
  unfold request_for in Hreply. rewrite Hreply.
  change (default [] (Some items)) with items.
  fold (cursor_of_last (if n <? Z.of_nat (List.length items)
                        then slice0 items n else items)).
  unfold slice0. assert ((n <? 0) = false) as -> by lia.
  destruct (Z.ltb_spec n (Z.of_nat (List.length items))); [done|].
  rewrite firstn_all2 by lia. done.
Qed.

(** C1.  For a page size [n] from 10 to 50 (30 when the request names
    none) the wrapper asks the server for [n + 1] rows, one more than the
    page, and what it returns depends on the server through the answer to
    that request alone.  When more than [n] rows come back, it keeps the
    first [n], so that the extra row is dropped, and reports [hasMore];
    when at most [n] come back, it keeps them all and reports no more.  The
    next cursor is made of the creation time and the identifier of the last
    row kept, and is null when no row is kept. *)
Theorem fetchFeed_one_extra_row sb (params : FetchFeedParams D) n items :
  default DEFAULT_LIMIT (limit params) = n -> 10 <= n <= 50 ->
  well_formed params ->
  rpc_get_confess_feed sb (request_for params n) = Reply (Some items) None ->
  Feed.p_limit (request_for params n) = Some (n + 1) /\
  exists result,
    fetchFeed (Some sb) params = Returns result /\
    (n < Z.of_nat (List.length items) ->
     confessions result = firstn (Z.to_nat n) items /\
     hasMore result = true) /\
    (Z.of_nat (List.length items) <= n ->
     confessions result = items /\ hasMore result = false) /\
    nextCursor result
      = match last (confessions result) with
        | Some r => Some (r_created_at r, r_id r)
        | None => None
        end /\
    (confessions result = [] -> nextCursor result = None).
Proof.
  intros Hlim Hn Hwf Hreply. split; [done|].
  eexists. split; [by apply fetchFeed_page_mechanics|].
  cbn [confessions hasMore nextCursor].
  assert (forall l : list (feed_row D),
            cursor_of_last l
            = match last l with
              | Some r => Some (r_created_at r, r_id r)
              | None => None
              end) as Hcur.
  { intros l. unfold cursor_of_last. f_equal.
    induction l as [|x l IH]; [done|]. cbn [List.map List.last last].
    destruct l as [|y l]; [done|]. exact IH. }
  split; [|split; [|split]].
  - intros Hlt. split; [done|]. apply Z.ltb_lt. lia.
  - intros Hle. split; [by rewrite firstn_all2 by lia|]. apply Z.ltb_ge. lia.
  - apply Hcur.
  - intros ->. done.
Qed.

(** C9.  Without a configured client, [fetchFeed] returns the empty result
    and [insertConfession] returns an error result, and neither throws. *)
Theorem unconfigured_client_fails_closed
    (fp : FetchFeedParams D) (ip : InsertConfessionParams D) :
  fetchFeed None fp = Returns (mkFeedResult [] None false) /\
  insertConfession None ip = Returns (NotOk E_ERROR "Not configured") /\
  fetchFeed None fp <> Throws /\
  insertConfession None ip <> Throws.
Proof. by repeat split. Qed.

(** With any client at all, neither wrapper throws. *)
Lemma wrappers_never_throw sb
    (fp : FetchFeedParams D) (ip : InsertConfessionParams D) :
  fetchFeed sb fp <> Throws /\ insertConfession sb ip <> Throws.
Proof.
  split.
  - unfold fetchFeed. destruct sb as [sb|]; [|done].
    destruct (_ && _); [done|].
    by destruct (rpc_get_confess_feed _ _) as [? [?|]|].
  - unfold insertConfession. destruct sb as [sb|]; [|done].
    destruct (rpc_insert_confession _ _) as [data [msg|]|]; [| |done].
    + by repeat destruct (includes _ _).
    + by destruct data as [[|? ?]|].
Qed.

End ClientFacts.

Lemma fetchFeed_one_extra_row_witness :
  default Client.DEFAULT_LIMIT (Client.limit (first_page 50)) = 50 /\
  10 <= 50 <= 50 /\
  well_formed (first_page 50) /\
  Client.rpc_get_confess_feed (fixed_reply 51) (request_for (first_page 50) 50)
  = Client.Reply (Some (List.map select_fields (sample_db 51))) None /\
  Feed.p_limit (request_for (first_page 50) 50) = Some (50 + 1) /\
  exists result,
    Client.fetchFeed (Some (fixed_reply 51)) (first_page 50)
    = Client.Returns result /\
    Client.confessions result
    = firstn (Z.to_nat 50) (List.map select_fields (sample_db 51)) /\
    Client.hasMore result = true.
Proof.
  assert (10 <= 50 <= 50) as Hn by lia.
  split; [reflexivity|]. split; [exact Hn|]. split; [exact I|].
  split; [reflexivity|].
  destruct (fetchFeed_one_extra_row (D := RealOps) (fixed_reply 51)
              (first_page 50) 50 (List.map select_fields (sample_db 51))
              eq_refl Hn I eq_refl)
    as (Hsent & result & Hfetch & Hextra & _).
  split; [exact Hsent|]. exists result. split; [exact Hfetch|].
  apply Hextra. rewrite length_map. unfold sample_db.
  rewrite length_map, length_seq. lia.
Defined.

(** ** Place resolution *)

Section PlaceFacts.
Import Place.

Lemma trimStart_head s : head_kept (trimStart s).
Proof.
  induction s as [|c s IH]; simpl; [done|].
  destruct (is_js_space c) eqn:E; [done|]. exact E.
Qed.

Lemma trimStart_suffix s : exists pre, s = pre ++ trimStart s.
Proof.
  induction s as [|c s (pre & IH)]; simpl; [by exists []|].
  destruct (is_js_space c).
  - exists (c :: pre). simpl. by rewrite <- IH.
  - by exists [].
Qed.

Lemma trimStart_kept s : head_kept s -> trimStart s = s.
Proof. destruct s as [|c s]; simpl; [done|]. by intros ->. Qed.

(** Trimming twice is trimming once, so the key the handler computes from
    the trimmed text is the normalised query itself. *)
Lemma trim_idempotent s : trim (trim s) = trim s.
Proof.
  unfold trim.
  set (a := trimStart s). set (b := trimStart (rev a)).
  assert (head_kept (rev b)) as Hb.
  { destruct (trimStart_suffix (rev a)) as (pre & Hpre). fold b in Hpre.
    assert (a = rev b ++ rev pre) as Ha
      by (rewrite <- rev_app_distr, <- Hpre; by rewrite rev_involutive).
    pose proof (trimStart_head s) as Hs. fold a in Hs. rewrite Ha in Hs.
    by destruct (rev b). }
  rewrite (trimStart_kept _ Hb), rev_involutive.
  by rewrite (trimStart_kept b (trimStart_head _)).
Qed.

Variable toLowerCase : jsstring -> jsstring.
Variable number : Type.
Variable parseFloat : jsstring -> number.
Variable isNaN : number -> bool.

(** C8, as amended.  For a query of 2 to 80 characters after trimming, on
    a configured server, with [key] the trimmed and lowercased query:
    when the cache holds [key], the cached coordinates come back tagged
    "cache" and nothing is written; on a miss where the provider's first
    result has numeric coordinates, those come back tagged "nominatim" and
    one row keyed by [key] is sent to the cache, which keeps its row when it
    already has one for [key] and takes the new one otherwise; and when the
    provider has no result, the answer is the structured NOT_FOUND with
    status 200.  The provider is asked when the trimmed query can be put in
    the address, that is when no surrogate stands alone in it. *)
Theorem resolve_place_outcomes (env : environment)
    (t : gmap jsstring (cache_row number)) (q : jsstring) :
  2 <= Place.length (trim q) <= 80 -> configured env = true ->
  let key := normalizeQuery toLowerCase q in
  let out :=
    handler toLowerCase parseFloat isNaN env t (Post (Some q)) in
  (forall cached,
     select_error env = false -> t !! key = Some cached ->
     out = (mkResponse 200
              (Place (lat cached) (lng cached)
                 (name cached) "cache"%string),
            None)) /\
  (forall result rest,
     select_error env = true \/ t !! key = None ->
     isWellFormed (trim q) = true ->
     nominatim env (trim q) = Results (result :: rest) ->
     isNaN (parseFloat (n_lat result)) = false ->
     isNaN (parseFloat (n_lon result)) = false ->
     let row :=
       mkCacheRow (trim q) key
         (parseFloat (n_lat result)) (parseFloat (n_lon result))
         (trim (before_comma (display_name result))) "nominatim"%string in
     out = (mkResponse 200
              (Place (lat row) (lng row) (name row)
                 "nominatim"%string),
            Some row) /\
     forall t' : gmap jsstring (cache_row number),
       after_write t' (Some row) =
         match t' !! key with
         | Some _ => t'
         | None => <[key := row]> t'
         end) /\
  (select_error env = true \/ t !! key = None ->
   isWellFormed (trim q) = true ->
   nominatim env (trim q) = Results [] ->
   out = (mkResponse 200 (NoPlace "NOT_FOUND"%string), None)).
Proof.
  intros Hlen Hconf key out.
  assert (out =
    match (if select_error env then None else t !! key) with
    | Some cached =>
        (jsonResponse
           (Place (lat cached) (lng cached)
              (name cached) "cache"%string) 200, None)
    | None =>
        if negb (isWellFormed (trim q)) then internal_error
        else
        match nominatim env (trim q) with
        | FetchThrows | StatusNotOk | BodyNotJson =>
            (jsonResponse (Error "Geocoding provider error"%string) 502, None)
        | BodyNotArray | Results [] =>
            (jsonResponse (NoPlace "NOT_FOUND"%string) 200, None)
        | UnnamedResult => internal_error
        | Results (result :: _) =>
            if isNaN (parseFloat (n_lat result))
               || isNaN (parseFloat (n_lon result))
            then (jsonResponse (Error "Geocoding provider error"%string) 502, None)
            else
              (jsonResponse
                 (Place (parseFloat (n_lat result)) (parseFloat (n_lon result))
                    (trim (before_comma (display_name result))) "nominatim"%string)
                 200,
               Some (mkCacheRow (trim q) key
                       (parseFloat (n_lat result)) (parseFloat (n_lon result))
                       (trim (before_comma (display_name result)))
                       "nominatim"%string))
        end
    end) as ->.
  { subst out key. unfold handler, normalizeQuery.
    destruct q as [|c q]; [unfold Place.length in Hlen; simpl in Hlen; lia|].
    rewrite trim_idempotent, Hconf.
    assert ((Place.length (trim (c :: q)) <? 2) = false) as -> by lia.
    assert ((80 <? Place.length (trim (c :: q))) = false) as -> by lia.
    reflexivity. }
  split; [|split].
  - intros cached -> ->. reflexivity.
  - intros result rest Hmiss -> -> -> ->. cbn zeta. split.
    + by destruct Hmiss as [-> | ->]; [|destruct (select_error env)].
    + intros t'. unfold after_write, place_cache_insert. simpl.
      by destruct (t' !! key).
  - intros Hmiss -> ->.
    by destruct Hmiss as [-> | ->]; [|destruct (select_error env)].
Qed.

End PlaceFacts.

(** C8, the statement as given fails on the tag: looked up at the provider,
    "Oslo" comes back with the source tag "nominatim", not "provider". *)
Lemma provider_lookup_is_tagged_nominatim :
  Place.handler Place.ascii_toLowerCase sample_parseFloat sample_isNaN
    (sample_env (Place.Results [oslo])) ∅ (Place.Post (Some (Place.js " Oslo ")))
  = (Place.mkResponse 200
       (Place.Place (Some 59) (Some 10) (Place.js "Oslo") "nominatim"),
     Some (Place.mkCacheRow (Place.js "Oslo") (Place.js "oslo")
             (Some 59) (Some 10) (Place.js "Oslo") "nominatim")) /\
  "nominatim"%string <> "provider"%string.
Proof. split; [vm_compute; reflexivity|discriminate]. Qed.

Lemma resolve_place_outcomes_witness :
  2 <= Place.length (Place.trim (Place.js " Oslo ")) <= 80 /\
  Place.configured (sample_env (Place.Results [oslo])) = true /\
  Place.handler Place.ascii_toLowerCase sample_parseFloat sample_isNaN
    (sample_env (Place.Results [oslo])) ∅ (Place.Post (Some (Place.js " Oslo ")))
  = (Place.mkResponse 200
       (Place.Place (Some 59) (Some 10) (Place.js "Oslo") "nominatim"),
     Some (Place.mkCacheRow (Place.js "Oslo") (Place.js "oslo")
             (Some 59) (Some 10) (Place.js "Oslo") "nominatim")).
Proof.
  assert (2 <= Place.length (Place.trim (Place.js " Oslo ")) <= 80) as Hlen
    by (vm_compute; split; discriminate).
  split; [exact Hlen|]. split; [reflexivity|].
  destruct (resolve_place_outcomes Place.ascii_toLowerCase sample_number
              sample_parseFloat sample_isNaN
              (sample_env (Place.Results [oslo])) ∅ (Place.js " Oslo ")
              Hlen eq_refl) as (_ & Hmiss & _).
  exact (proj1 (Hmiss oslo [] (or_intror eq_refl) eq_refl eq_refl eq_refl
                  eq_refl)).
Defined.

(** A second lookup of the same place is served from the cache, and a
    place the provider does not know is reported as not found. *)
Example resolve_place_scenarios :
  let serve :=
    Place.handler Place.ascii_toLowerCase sample_parseFloat sample_isNaN in
  let row :=
    Place.mkCacheRow (Place.js "Oslo") (Place.js "oslo")
      (Some 59) (Some 10) (Place.js "Oslo") "nominatim" in
  serve (sample_env (Place.Results [])) (Place.after_write ∅ (Some row))
    (Place.Post (Some (Place.js "OSLO")))
  = (Place.mkResponse 200
       (Place.Place (Some 59) (Some 10) (Place.js "Oslo") "cache"), None) /\
  serve (sample_env (Place.Results [])) ∅ (Place.Post (Some (Place.js "Atlantis")))
  = (Place.mkResponse 200 (Place.NoPlace "NOT_FOUND"), None) /\
  serve (sample_env Place.FetchThrows) ∅ (Place.Post (Some (Place.js "Oslo")))
  = (Place.mkResponse 502 (Place.Error "Geocoding provider error"), None) /\
  serve (sample_env (Place.Results [oslo])) ∅ (Place.Post (Some (Place.js "x")))
  = (Place.mkResponse 400 (Place.Error "Query too short (min 2 characters)"),
     None).
Proof. repeat split; vm_compute; reflexivity. Qed.

(** What is thrown inside the handler is answered with status 500: a body
    that is the JSON value null, a query with a surrogate on its own, which
    cannot be put in the address of the provider, and a first result
    without a name. *)
Example resolve_place_internal_errors :
  let serve :=
    Place.handler Place.ascii_toLowerCase sample_parseFloat sample_isNaN in
  let failed
    : Place.response sample_number * option (Place.cache_row sample_number) :=
    (Place.mkResponse 500 (Place.Error "Internal server error"), None) in
  serve (sample_env (Place.Results [oslo])) ∅ Place.NullBody = failed /\
  serve (sample_env (Place.Results [oslo])) ∅
    (Place.Post (Some [79; 55357; 115]%N)) = failed /\
  serve (sample_env Place.UnnamedResult) ∅
    (Place.Post (Some (Place.js "Oslo"))) = failed /\
  Place.isWellFormed [79; 55357; 56832; 115]%N = true.
Proof. repeat split; vm_compute; reflexivity. Qed.

(** * Further properties *)

(** ** Session manager: lifecycle *)

Section SessionLifecycle.
Import Session.


Lemma armed_invariant_step e w :
  armed_invariant w -> armed_invariant (step e w).
Proof.
  destruct w as [[sid n armed shown] bg]. unfold armed_invariant.
  destruct e as [now | now fresh | | ]; cbn.
  - done.
  - unfold onAppForeground, getLastBackgroundAt. cbn.
    destruct bg as [t0|]; [|done].
    by destruct (BACKGROUND_THRESHOLD_MS <=? now - t0).
  - unfold recordPageFetch. cbn. destruct shown; [done|]. cbn.
    unfold AD_TRIGGER_THRESHOLD.
    destruct armed; cbn.
    + intros Hinv _. destruct (Hinv eq_refl) as (Hn & _). split; [lia|done].
    + intros _. destruct (N.leb_spec 4 (n + 1)); [|done].
      intros _. by split.
  - done.
Qed.

(** X2.  Whatever events follow a cold start, the ad is armed only when at
    least four page fetches were counted in the running session and no ad
    was shown in it. *)
Theorem armed_only_after_four_fetches fresh w es :
  adArmed (state (world (run fresh w es))) = true ->
  (4 <= pageFetchCount (state (world (run fresh w es))))%N /\
  adShown (state (world (run fresh w es))) = false.
Proof.
  change (armed_invariant (world (run fresh w es))). unfold run.
  assert (armed_invariant (world (cold_start fresh w))) as H0 by done.
  revert H0. generalize (cold_start fresh w) as t.
  induction es as [|e es IH]; intros t Ht; [exact Ht|].
  cbn [fold_left]. apply IH. unfold tally_step.
  destruct (starts_session e (world t)); cbn [world];
    by apply armed_invariant_step.
Qed.

End SessionLifecycle.

(** ** Admission: what an insertion leaves behind *)

Section AdmissionEffects.
Import Admission.
Context {D : DoubleOps} {L : Pg.Locale}.
Implicit Types (db : list (confession D)) (la lo : option (double D)).

Lemma filter_fresh_id nid db :
  (forall c, In c db -> id c <> nid) ->
  List.filter (fun c : confession D => (id c =? nid)%N) db = [].
Proof.
  induction db as [|c db IH]; intros Hfresh; [done|]. cbn.
  destruct (N.eqb_spec (id c) nid) as [E|_].
  - destruct (Hfresh c (or_introl eq_refl) E).
  - apply IH. intros c' Hc'. apply Hfresh. by right.
Qed.

Lemma returned_is_filtered uid now nid db t label la lo rows db' :
  insert_confession uid now nid db (Some t) label la lo = Returned rows db' ->
  passes_filter (btrim t) = true /\
  rate_limited uid now db = false /\
  db' = db ++ [mkConfession nid (btrim t) now (now + hours 24) la lo
                 (Some false) uid].
Proof.
  rewrite insert_confession_cascade. cbn zeta. unfold passes_filter.
  destruct (Z.eqb_spec (char_length (btrim t)) 0); [done|].
  destruct (Z.ltb_spec 120 (char_length (btrim t))); [done|].
  destruct (content_blocked (btrim t)); [done|].
  destruct (rate_limited uid now db); [done|].
  intros [= _ <-]. repeat split.
  assert (0 <= char_length (btrim t)) by (unfold char_length; lia).
  rewrite !andb_true_iff. repeat split; [lia|lia].
Qed.

(** X3.  When a submission is accepted and the new identifier is not yet
    in the table, the table grows by exactly one row, placed after the old
    ones: it holds the trimmed text, the caller's coordinates and actor,
    [created_at = now], [expires_at = now + 24 hours] and [is_hidden =
    false]; the call returns that one row and no other; and the stored text
    is one the whole filter lets through (not empty, at most 120 characters,
    no blocking pattern). *)
Theorem accepted_submission_row uid now nid db t label la lo rows db' :
  insert_confession uid now nid db (Some t) label la lo = Returned rows db' ->
  (forall c, In c db -> id c <> nid) ->
  let row := mkConfession nid (btrim t) now (now + hours 24) la lo
               (Some false) uid in
  db' = db ++ [row] /\
  rows = [select_fields row] /\
  passes_filter (text row) = true.
Proof.
  intros Hret Hfresh. cbn zeta.
  destruct (returned_is_filtered _ _ _ _ _ _ _ _ _ _ Hret) as (Hpass & Hrl & ->).
  split; [done|]. split; [|done].
  revert Hret. rewrite insert_confession_cascade. cbn zeta.
  unfold passes_filter in Hpass.
  apply andb_true_iff in Hpass as (Hlen & Hblk).
  apply andb_true_iff in Hlen as (Hpos & Hlen).
  apply negb_true_iff in Hblk. rewrite Hblk, Hrl.
  assert ((char_length (btrim t) =? 0) = false) as -> by lia.
  assert ((120 <? char_length (btrim t)) = false) as -> by lia.
  intros [= <-]. rewrite List.filter_app, (filter_fresh_id _ _ Hfresh). cbn.
  by rewrite N.eqb_refl.
Qed.

Lemma last_post_app_other u (c : confession D) db :
  user_id c <> Some u -> last_post u (db ++ [c]) = last_post u db.
Proof.
  intros Hc. unfold last_post. rewrite List.filter_app. cbn [List.filter].
  assert (posted_by u c = false) as ->.
  { destruct (posted_by u c) eqn:E; [|done].
    apply posted_by_spec in E. destruct (Hc E). }
  by rewrite app_nil_r.
Qed.

(** X4.  After an accepted submission by actor [u] at [now], a further
    submission by [u] less than 15 seconds later is rejected with
    [RATE_LIMIT] when its text gets through the filter, whatever else the
    table holds; and the rate limiter decides for every other actor as it
    did before that submission. *)
Theorem cooldown_after_own_submission u now nid db t label la lo rows db'
    now' nid' t' label' la' lo' :
  insert_confession (Some u) now nid db (Some t) label la lo
    = Returned rows db' ->
  passes_filter (btrim t') = true ->
  now' - now < seconds 15 ->
  insert_confession (Some u) now' nid' db' (Some t') label' la' lo'
    = Raised RATE_LIMIT /\
  forall u', u' <> u ->
    rate_limited (Some u') now' db' = rate_limited (Some u') now' db.
Proof.
  intros Hret Hpass Hsoon.
  destruct (returned_is_filtered _ _ _ _ _ _ _ _ _ _ Hret) as (_ & _ & ->).
  set (row := mkConfession nid (btrim t) now (now + hours 24) la lo
                (Some false) (Some u)).
  split.
  - pose proof (last_post_latest u (db ++ [row])) as Hl.
    destruct (last_post u (db ++ [row])) as [tl|] eqn:E; cbn in Hl.
    + destruct Hl as (_ & Hmax).
      assert (now <= tl) as Hle.
      { apply (Hmax row); [apply in_app_iff; right; by left|done]. }
      rewrite insert_confession_cascade. cbn zeta.
      unfold passes_filter in Hpass.
      apply andb_true_iff in Hpass as (Hlen & Hblk).
      apply andb_true_iff in Hlen as (Hpos & Hlen).
      apply negb_true_iff in Hblk. rewrite Hblk.
      assert ((char_length (btrim t') =? 0) = false) as -> by lia.
      assert ((120 <? char_length (btrim t')) = false) as -> by lia.
      unfold rate_limited. rewrite E. cbn.
      destruct (Z.gtb_spec tl (now' - seconds 15)); [done|lia].
    + exfalso. apply (Hl row); [apply in_app_iff; right; by left|done].
  - intros u' Hu'. unfold rate_limited.
    rewrite last_post_app_other; [done|]. cbn. congruence.
Qed.

(** X5.  Migration 008 changes the procedure of migration 007 in one way
    only: a trimmed text of 1 to 120 characters that a pattern check blocks
    is now rejected with [CONTENT_BLOCKED]; on every other input the two
    procedures do the same, and the older one never raises
    [CONTENT_BLOCKED]. *)
Theorem content_filter_only_adds_rejections uid now nid db p_text label la lo :
  let r8 := insert_confession uid now nid db p_text label la lo in
  let r7 := Admission007.insert_confession uid now nid db p_text label la lo in
  r7 <> Raised CONTENT_BLOCKED /\
  match p_text with
  | Some t =>
      r8 = if (0 <? char_length (btrim t)) && (char_length (btrim t) <=? 120)
              && content_blocked (btrim t)
           then Raised CONTENT_BLOCKED else r7
  | None => r8 = r7
  end.
Proof.
  cbn zeta. destruct p_text as [t|]; [|by split].
  rewrite insert_confession_cascade. cbn zeta.
  unfold Admission007.insert_confession. cbn [option_map]. cbn zeta.
  rewrite <- char_length_zero.
  assert (0 <= char_length (btrim t)) by (unfold char_length; lia).
  destruct (Z.eqb_spec (char_length (btrim t)) 0) as [E|E].
  { rewrite E. by cbn. }
  assert ((0 <? char_length (btrim t)) = true) as -> by lia.
  destruct (Z.ltb_spec 120 (char_length (btrim t))).
  { assert ((char_length (btrim t) <=? 120) = false) as -> by lia. by cbn. }
  assert ((char_length (btrim t) <=? 120) = true) as -> by lia. cbn [andb].
  destruct (content_blocked (btrim t)).
  - split; [|done]. by destruct (rate_limited uid now db).
  - split; [|done]. by destruct (rate_limited uid now db).
Qed.

(** X6.  An accepted submission keeps what the table relies on: every row
    still expires 24 hours after its creation, the identifiers stay unique
    when the new one is not yet in the table, and every row that was there
    is still there, unchanged. *)
Theorem accepted_submission_keeps_table uid now nid db t label la lo rows db' :
  insert_confession uid now nid db (Some t) label la lo = Returned rows db' ->
  (expiry_set db -> expiry_set db') /\
  (unique_ids db -> (forall c, In c db -> id c <> nid) -> unique_ids db') /\
  (forall c, In c db -> In c db') /\
  List.length db' = S (List.length db).
Proof.
  intros Hret.
  destruct (returned_is_filtered _ _ _ _ _ _ _ _ _ _ Hret) as (_ & _ & ->).
  split; [|split; [|split]].
  - intros Hexp c [Hc|[<-|[]]]%in_app_iff; [by apply Hexp|done].
  - unfold unique_ids. intros Hnd Hfresh. rewrite map_app. cbn.
    apply NoDup_app. split; [done|]. split; [|apply NoDup_singleton].
    intros i Hi [->|[]]%list_elem_of_In. apply list_elem_of_In in Hi.
    apply in_map_iff in Hi as (c & Hid & Hc). by apply (Hfresh c Hc).
  - intros c Hc. apply in_app_iff. by left.
  - rewrite length_app. cbn. lia.
Qed.

(** X22.  A text with eight or more digit characters is never accepted,
    however the digits are spread: it is rejected with [CONTENT_BLOCKED], or
    with [TEXT_TOO_LONG] when it is longer than 120 characters after
    trimming. *)
Theorem eight_digits_rejected uid now nid db t label la lo :
  8 <= char_length (digits_only t) ->
  insert_confession uid now nid db (Some t) label la lo =
    if 120 <? char_length (btrim t) then Raised TEXT_TOO_LONG
    else Raised CONTENT_BLOCKED.
Proof.
  intros Hdigits.
  assert (forall s, digits_only (ltrim s) = digits_only s) as Hl.
  { unfold digits_only. induction s as [|c s IH]; [done|]. cbn [ltrim].
    destruct (N.eqb_spec c 32) as [->|]; [|done]. rewrite IH. by cbn. }
  assert (forall s, digits_only (rev s) = rev (digits_only s)) as Hr.
  { intros s. unfold digits_only. induction s as [|c s IH]; [done|]. cbn.
    rewrite List.filter_app, IH. cbn. by destruct (is_digit c); cbn;
      rewrite ?app_nil_r. }
  assert (digits_only (btrim t) = digits_only t) as Hd.
  { unfold btrim, rtrim. by rewrite Hr, Hl, Hr, rev_involutive, Hl. }
  rewrite insert_confession_cascade. cbn zeta.
  assert (has_8_digits (btrim t) = true) as H8.
  { unfold has_8_digits. cbn zeta. rewrite Hd. lia. }
  assert (content_blocked (btrim t) = true) as ->.
  { unfold content_blocked. rewrite H8. by rewrite !orb_true_r. }
  destruct (Z.eqb_spec (char_length (btrim t)) 0) as [E|_].
  - exfalso. destruct (btrim t); [|done].
    unfold char_length in Hdigits. rewrite <- Hd in Hdigits. cbn in Hdigits. lia.
  - by destruct (120 <? _).
Qed.

End AdmissionEffects.

(** ** Feed query: pages *)

Section FeedPages.
Import Feed.
Context {D : DoubleOps}.
Implicit Types (c : confession D) (a : feed_args D).
Implicit Types (db : list (confession D)).

Lemma filter_both {A} (P Q : A -> bool) (l : list A) :
  List.filter (fun x => P x && Q x) l = List.filter Q (List.filter P l).
Proof.
  induction l as [|x l IH]; [done|]. cbn.
  destruct (P x); cbn; [|done]. destruct (Q x); by rewrite IH.
Qed.

Lemma filter_true {A} (P : A -> bool) (l : list A) :
  (forall x, In x l -> P x = true) -> List.filter P l = l.
Proof.
  induction l as [|x l IH]; intros H; [done|]. cbn.
  rewrite (H x (or_introl eq_refl)). f_equal. apply IH.
  intros y Hy. apply H. by right.
Qed.

Lemma filter_implied {A} (P Q : A -> bool) (l : list A) :
  (forall x, In x l -> P x = true -> Q x = true) ->
  List.filter P (List.filter Q l) = List.filter P l.
Proof.
  induction l as [|x l IH]; intros H; [done|]. cbn.
  assert (forall y, In y l -> P y = true -> Q y = true) as H'
    by (intros y Hy; apply H; by right).
  destruct (Q x) eqn:EQ; cbn.
  - destruct (P x); by rewrite IH.
  - destruct (P x) eqn:EP; [|by apply IH].
    rewrite (H x (or_introl eq_refl) EP) in EQ. done.
Qed.

Lemma filter_Permutation' {A} (P : A -> bool) (l1 l2 : list A) :
  Permutation l1 l2 -> Permutation (List.filter P l1) (List.filter P l2).
Proof.
  induction 1 as [|x l1 l2 _ IH|x y l|l1 l2 l3 _ IH1 _ IH2]; cbn.
  - done.
  - destruct (P x); [by constructor|done].
  - destruct (P x), (P y); try done. by constructor.
  - by etransitivity.
Qed.

Lemma StronglySorted_filter' {A} (R : A -> A -> Prop) (P : A -> bool)
    (l : list A) :
  StronglySorted R l -> StronglySorted R (List.filter P l).
Proof.
  induction 1 as [|x l Hs IH Hall]; cbn; [constructor|].
  destruct (P x); [|done]. constructor; [done|].
  rewrite List.Forall_forall in *. intros y Hy.
  apply filter_In in Hy as (Hy & _). by apply Hall.
Qed.

(** Two sorted lists with the same elements are the same list, when no two
    different elements are each before the other. *)
Lemma sorted_same_elements {A} (R : A -> A -> Prop) (l1 l2 : list A) :
  StronglySorted R l1 -> StronglySorted R l2 -> Permutation l1 l2 ->
  (forall x y, In x l1 -> In y l1 -> R x y -> R y x -> x = y) ->
  l1 = l2.
Proof.
  intros Hs1. revert l2.
  induction Hs1 as [|x l1 Hs1 IH Hall1]; intros l2 Hs2 Hp Hanti.
  - by apply Permutation_nil in Hp.
  - destruct Hs2 as [|y l2 Hs2 Hall2].
    { apply Permutation_sym, Permutation_nil in Hp. done. }
    rewrite List.Forall_forall in Hall1, Hall2.
    assert (x = y) as <-.
    { assert (In y (x :: l1)) as Hy
        by (eapply Permutation_in; [symmetry; exact Hp|by left]).
      assert (In x (y :: l2)) as Hx
        by (eapply Permutation_in; [exact Hp|by left]).
      destruct Hy as [->|Hy]; [done|].
      destruct Hx as [->|Hx]; [done|].
      apply Hanti; [by left|by right|by apply Hall1|by apply Hall2]. }
    f_equal. apply IH; [done|by apply Permutation_cons_inv in Hp|].
    intros a b Ha Hb. apply Hanti; by right.
Qed.

Lemma same_id_same_row db c1 c2 :
  unique_ids db -> In c1 db -> In c2 db -> id c1 = id c2 -> c1 = c2.
Proof.
  unfold unique_ids. induction db as [|c db IH]; [done|]. cbn.
  intros [Hnotin Hnd]%NoDup_cons [<-|H1] [<-|H2] Hid; try done.
  - exfalso. apply Hnotin. rewrite Hid. apply list_elem_of_In. by apply in_map.
  - exfalso. apply Hnotin. rewrite <- Hid. apply list_elem_of_In. by apply in_map.
  - by apply IH.
Qed.

Lemma feed_order_same_id c1 c2 :
  feed_order c1 c2 -> feed_order c2 c1 -> id c1 = id c2.
Proof.
  unfold feed_order, before_b, sort_key. cbn.
  rewrite !orb_true_iff, !andb_true_iff, !Z.ltb_lt, !Z.eqb_eq, !N.leb_le. lia.
Qed.

Lemma matching_subset now db a c : In c (matching now a db) -> In c db.
Proof. intros H. by apply matching_In in H as (H & _). Qed.

Lemma keyset_with_cursor a cur c :
  Sql.holds (keyset (with_cursor a (Some cur)) c) = after_key cur c.
Proof.
  destruct cur as [t i]. unfold keyset, after_key. cbn.
  by destruct (created_at c <? t), (created_at c =? t), (id c <? i)%N.
Qed.

Lemma where_with_cursor now a cur c :
  Sql.holds
    (if mode_is_near (p_mode a)
     then where_near now (clamp_radius (p_radius_m a))
            (with_cursor a (Some cur)) c
     else where_world now (with_cursor a (Some cur)) c)
  = Sql.holds
      (if mode_is_near (p_mode a)
       then where_near now (clamp_radius (p_radius_m a)) (with_cursor a None) c
       else where_world now (with_cursor a None) c)
    && after_key cur c.
Proof.
  unfold where_near, where_world. destruct (mode_is_near _);
    rewrite !holds_and, keyset_with_cursor;
    rewrite (keyset_no_cursor (with_cursor a None)) by done;
    cbn [Sql.holds]; by rewrite andb_true_r.
Qed.

(** With a cursor the query selects, of the rows it selects without one,
    those after the cursor, in the same order. *)
Lemma matching_after_cursor now db a cur :
  unique_ids db ->
  matching now (with_cursor a (Some cur)) db
  = List.filter (after_key cur) (matching now (with_cursor a None) db).
Proof.
  intros Hids.
  apply sorted_same_elements with (R := feed_order).
  - apply matching_sorted.
  - apply StronglySorted_filter', matching_sorted.
  - unfold matching, order_by_created_at_desc_id_desc.
    cbn [with_cursor p_mode p_radius_m].
    rewrite (filter_ext _ _ (where_with_cursor now a cur)), filter_both.
    rewrite merge_sort_Permutation.
    apply filter_Permutation'. symmetry. apply merge_sort_Permutation.
  - intros c1 c2 H1%matching_subset H2%matching_subset H12 H21.
    apply (same_id_same_row db); try done. by apply feed_order_same_id.
Qed.

Lemma after_own_position (l : list (confession D)) k c :
  StronglySorted feed_order l -> NoDup (List.map id l) ->
  nth_error l k = Some c ->
  List.filter (after_key (row_cursor c)) l = skipn (S k) l.
Proof.
  intros Hs. revert k. induction Hs as [|x l Hs IH Hall]; intros k Hnd Hk.
  { by destruct k. }
  cbn in Hnd. apply NoDup_cons in Hnd as (Hx & Hnd).
  rewrite List.Forall_forall in Hall.
  assert (forall y, In y l -> id y <> id x) as Hne.
  { intros y Hy E. apply Hx. rewrite <- E. apply list_elem_of_In. by apply in_map. }
  destruct k as [|k]; cbn in Hk.
  - injection Hk as ->. cbn [List.filter skipn].
    assert (after_key (row_cursor c) c = false) as ->.
    { unfold after_key, row_cursor. cbn.
      rewrite Z.ltb_irrefl, N.ltb_irrefl. by rewrite andb_false_r. }
    apply filter_true. intros y Hy.
    pose proof (Hall y Hy) as Hord. pose proof (Hne y Hy) as Hid.
    revert Hord. unfold feed_order, before_b, sort_key, after_key, row_cursor.
    cbn. rewrite !orb_true_iff, !andb_true_iff, !Z.ltb_lt, !Z.eqb_eq,
      !N.leb_le, !N.ltb_lt. lia.
  - cbn [List.filter skipn]. rewrite <- (IH k Hnd Hk).
    assert (In c l) as Hc by (by apply nth_error_In in Hk).
    pose proof (Hall c Hc) as Hord. pose proof (Hne c Hc) as Hid.
    assert (after_key (row_cursor c) x = false) as ->; [|done].
    apply not_true_is_false. revert Hord.
    unfold feed_order, before_b, sort_key, after_key, row_cursor.
    cbn. rewrite !orb_true_iff, !andb_true_iff, !Z.ltb_lt, !Z.eqb_eq,
      !N.leb_le, !N.ltb_lt. lia.
Qed.

Lemma matching_unique_ids now db a :
  unique_ids db -> NoDup (List.map id (matching now a db)).
Proof.
  unfold unique_ids, matching, order_by_created_at_desc_id_desc.
  intros Hnd. rewrite merge_sort_Permutation.
  induction db as [|c db IH]; [done|]. cbn in *.
  apply NoDup_cons in Hnd as (Hc & Hnd).
  destruct (Sql.holds _); [|by apply IH].
  cbn. apply NoDup_cons. split; [|by apply IH].
  intros Hin. apply Hc. apply list_elem_of_In in Hin.
  apply in_map_iff in Hin as (c' & <- & Hc').
  apply list_elem_of_In, in_map. by apply filter_In in Hc' as (Hc' & _).
Qed.

(** X7.  A query that returns gives back a page of the rows it selects:
    as many of them as there are, up to the page size, which is the
    requested size brought into the range from 10 to 50 (30 when none is
    requested); so never more than 50 rows, and no row twice when
    identifiers are unique. *)
Theorem page_size_bounds now db a rows db' :
  get_confess_feed now db a = Returned rows db' ->
  List.length rows
    = Nat.min (Z.to_nat (clamp_limit (p_limit a)))
              (List.length (matching now a db)) /\
  (List.length rows <= 50)%nat /\
  db' = db /\
  (unique_ids db -> NoDup (List.map r_id rows)).
Proof.
  rewrite get_confess_feed_rows. destruct (_ && _); [done|].
  intros [= <- <-]. unfold Store.limit. rewrite length_map, length_firstn.
  pose proof (clamp_limit_spec (p_limit a)) as ((Hlo & Hhi) & _).
  split; [done|]. split; [lia|]. split; [done|].
  intros Hids. rewrite List.map_map.
  change (List.map (fun c => r_id (select_fields c))
            (firstn (Z.to_nat (clamp_limit (p_limit a))) (matching now a db)))
    with (List.map id
            (firstn (Z.to_nat (clamp_limit (p_limit a))) (matching now a db))).
  rewrite <- firstn_map.
  pose proof (matching_unique_ids now db a Hids) as Hnd.
  rewrite <- (firstn_skipn (Z.to_nat (clamp_limit (p_limit a)))
                (List.map id (matching now a db))) in Hnd.
  by apply NoDup_app in Hnd as (Hnd & _).
Qed.

(** X8.  Paging leaves no gap and repeats nothing.  When identifiers are
    unique and [c] is the row at position [k] among the rows a query selects
    without a cursor, the same query with the cursor of [c] returns the rows
    that follow position [k], in order, up to the page size. *)
Theorem next_page_continues now db a k c rows db' :
  unique_ids db ->
  nth_error (matching now (with_cursor a None) db) k = Some c ->
  get_confess_feed now db (with_cursor a (Some (row_cursor c)))
    = Returned rows db' ->
  rows = List.map select_fields
           (firstn (Z.to_nat (clamp_limit (p_limit a)))
              (skipn (S k) (matching now (with_cursor a None) db))).
Proof.
  intros Hids Hk. rewrite get_confess_feed_rows. destruct (_ && _); [done|].
  intros [= <- _]. unfold Store.limit. cbn [with_cursor p_limit].
  rewrite (matching_after_cursor now db a _ Hids).
  rewrite (after_own_position _ k c); try done.
  - apply matching_sorted.
  - by apply matching_unique_ids.
Qed.

End FeedPages.

(** ** Feed query: expiry, cleanup and fresh rows *)

Section FeedLifetime.
Import Feed.
Context {D : DoubleOps} {L : Pg.Locale}.
Implicit Types (c : confession D) (a : feed_args D).
Implicit Types (db : list (confession D)).

Lemma selected_is_visible now a c :
  Sql.holds
    (if mode_is_near (p_mode a)
     then where_near now (clamp_radius (p_radius_m a)) a c
     else where_world now a c) = true ->
  now < expires_at c.
Proof.
  unfold where_near, where_world, visible. destruct (mode_is_near _);
    rewrite !holds_and, !andb_true_iff; cbn;
    destruct (Z.gtb_spec (expires_at c) now); intuition (try done; lia).
Qed.

Lemma matching_remaining now threshold db a :
  expiry_set db -> threshold <= now - Admission.hours 24 ->
  matching now a (Cleanup.remaining_rows threshold db) = matching now a db.
Proof.
  intros Hexp Hthr. unfold matching, Cleanup.remaining_rows. f_equal.
  apply filter_implied. intros c Hc Hsel.
  apply selected_is_visible in Hsel. rewrite (Hexp c Hc) in Hsel.
  apply negb_true_iff, Z.ltb_ge. lia.
Qed.

Lemma filter_split_length {A} (P : A -> bool) (l : list A) :
  (List.length (List.filter P l)
   + List.length (List.filter (fun x => negb (P x)) l))%nat = List.length l.
Proof.
  induction l as [|x l IH]; [done|]. cbn. destruct (P x); cbn; lia.
Qed.

(** X9.  Removing old confessions never changes what readers see.  When
    every row expires 24 hours after its creation, a feed query at [now']
    gives the same answer on the table as the hourly job left it at an
    earlier or equal instant [now] as on the table itself; the same holds
    after the edge function ran at [now_ms] milliseconds, which moreover
    reports the number of rows it removed and keeps all the others. *)
Theorem cleanup_is_invisible now now' now_ms db a env :
  expiry_set db -> now <= now' -> now_ms * 1000 <= now' ->
  Cleanup.configured env = true -> Cleanup.delete_error env = None ->
  let swept := Cleanup.cleanup_old_confessions now db in
  let answer := Cleanup.cleanup_confessions env now_ms db in
  matching now' a swept = matching now' a db /\
  matching now' a (snd answer) = matching now' a db /\
  (forall rows db', get_confess_feed now' db a = Returned rows db' ->
     get_confess_feed now' swept a = Returned rows swept) /\
  (forall e, get_confess_feed now' db a = Raised e ->
     get_confess_feed now' swept a = Raised e) /\
  fst answer
    = Cleanup.mkResponse 200
        (Cleanup.Success
           (Z.of_nat (List.length db) - Z.of_nat (List.length (snd answer)))).
Proof.
  intros Hexp Hnow Hms Hconf Herr. cbn zeta.
  assert (matching now' a (Cleanup.cleanup_old_confessions now db)
          = matching now' a db) as Hswept.
  { apply matching_remaining; [done|]. lia. }
  unfold Cleanup.cleanup_confessions. rewrite Hconf, Herr. cbn [negb fst snd].
  split; [done|]. split.
  { apply matching_remaining; [done|]. unfold Admission.hours, Admission.seconds.
    lia. }
  split; [|split].
  - intros rows db'. rewrite !get_confess_feed_rows. destruct (_ && _); [done|].
    intros [= <- _]. by rewrite Hswept.
  - intros e. rewrite !get_confess_feed_rows. by destruct (_ && _).
  - do 2 f_equal. unfold Cleanup.deleted_rows, Cleanup.remaining_rows.
    pose proof (filter_split_length
                  (fun c => created_at c <? (now_ms - 24 * 60 * 60 * 1000) * 1000)
                  db). lia.
Qed.

(** X10.  An accepted confession can be read at once and for 24 hours: at
    any instant [t] a world query without a cursor selects the new row
    exactly when [t] is before [now + 24 hours]; and a near query never
    selects a row that was stored without a latitude or without a
    longitude. *)
Theorem accepted_submission_is_readable uid now nid db txt label la lo rows db'
    t a :
  Admission.insert_confession uid now nid db (Some txt) label la lo
    = Returned rows db' ->
  let row := mkConfession nid (btrim txt) now (now + Admission.hours 24) la lo
               (Some false) uid in
  (mode_is_near (p_mode a) = false -> p_cursor_created_at a = None ->
   (In row (matching t a db') <-> t < now + Admission.hours 24)) /\
  (mode_is_near (p_mode a) = true -> la = None \/ lo = None ->
   ~ In row (matching t a db')).
Proof.
  intros Hret. cbn zeta.
  destruct (returned_is_filtered _ _ _ _ _ _ _ _ _ _ Hret) as (_ & _ & ->).
  set (row := mkConfession nid (btrim txt) now (now + Admission.hours 24) la lo
                (Some false) uid).
  assert (In row (db ++ [row])) as Hin by (apply in_app_iff; right; by left).
  split.
  - intros Hworld Hcur. rewrite matching_In, Hworld.
    unfold where_world. rewrite holds_and, (keyset_no_cursor _ _ Hcur).
    unfold visible. rewrite holds_and. cbn.
    destruct (Z.gtb_spec (now + Admission.hours 24) t); cbn.
    + split; [lia|by split].
    + split; [intros (_ & ?); done|lia].
  - intros Hnear Hnull (_ & Hsel)%matching_In. revert Hsel.
    rewrite Hnear. unfold where_near. rewrite !holds_and. cbn.
    destruct Hnull as [-> | ->]; cbn; rewrite ?andb_false_r; done.
Qed.

End FeedLifetime.

(** ** Client wrappers against the server *)

Section ClientPages.
Import Client.
Context {D : DoubleOps} {L : Pg.Locale}.
Implicit Types (db : list (confession D)) (params : FetchFeedParams D).

Lemma page_of_items {A} (k m : nat) (M : list A) :
  (m < 50 -> m < k)%nat -> (50 <= m -> k = 50)%nat ->
  (if (Z.of_nat m <? Z.of_nat (List.length (firstn k M)))
   then firstn m (firstn k M) else firstn k M)
  = firstn (Nat.min m 50) M /\
  (Z.of_nat m <? Z.of_nat (List.length (firstn k M)))
  = (Z.of_nat m <? 50) && (Z.of_nat m <? Z.of_nat (List.length M)).
Proof.
  intros Hlt Hge. rewrite length_firstn.
  destruct (Z.ltb_spec (Z.of_nat m) (Z.of_nat (Nat.min k (List.length M))))
    as [H1|H1];
    destruct (Z.ltb_spec (Z.of_nat m) 50) as [H2|H2];
    destruct (Z.ltb_spec (Z.of_nat m) (Z.of_nat (List.length M))) as [H3|H3];
    cbn [andb]; try lia.
  - split; [|done]. rewrite firstn_firstn. f_equal. lia.
  - split; [|done]. rewrite !firstn_all2 by lia. done.
  - split; [|done]. f_equal. lia.
  - split; [|done]. f_equal. lia.
Qed.

(** What the connected client answers to the arguments the wrapper
    builds, when the numbers are ones the server takes. *)
Lemma in_32_bits_spec z : in_32_bits z = Client.is_integer z.
Proof.
  unfold in_32_bits, is_integer.
  destruct (Z.leb_spec (- 2 ^ 31) z), (Z.leb_spec (-2147483648) z),
    (Z.ltb_spec z (2 ^ 31)), (Z.leb_spec z 2147483647); try done; lia.
Qed.

Lemma rpc_feed_connected uid now nid db params (p_limit : Z) :
  Client.is_integer p_limit = true -> reaches_server params = true ->
  rpc_get_confess_feed (connected uid now nid db)
    (Feed.mkFeedArgs (Some (mode_name (mode params))) (Some p_limit)
       (fst <$> cursor params) (snd <$> cursor params)
       (lat params) (lng params) (Some (default 1000 (radiusM params))))
  = reply_of
      (Feed.get_confess_feed now db
         (Feed.mkFeedArgs (Some (mode_name (mode params))) (Some p_limit)
            (fst <$> cursor params) (snd <$> cursor params)
            (lat params) (lng params) (Some (default 1000 (radiusM params))))).
Proof.
  intros Hlimit. unfold reaches_server. rewrite !in_32_bits_spec.
  intros ((_ & Hradius)%andb_true_iff & Hmode)%andb_true_iff.
  cbn [connected rpc_get_confess_feed integer_or_null Feed.p_limit
       Feed.p_radius_m Feed.p_mode Feed.p_lat Feed.p_lng
       Feed.p_cursor_created_at Feed.p_cursor_id].
  rewrite Hlimit, Hradius. cbn [andb]. f_equal.
  destruct (mode params).
  - reflexivity.
  - apply andb_true_iff in Hmode as (Hlat & Hlng).
    assert (forall x : option (double D),
              finite_or_null x = true -> json_number x = x) as Hjson.
    { intros [v|]; cbn; [by intros ->|done]. }
    by rewrite (Hjson _ Hlat), (Hjson _ Hlng).
Qed.

(** A request whose numbers the server does not take comes back empty. *)
Lemma fetchFeed_refused uid now nid db params :
  reaches_server params = false ->
  fetchFeed (Some (connected uid now nid db)) params = Returns empty_result.
Proof.
  unfold reaches_server, fetchFeed. rewrite !in_32_bits_spec.
  cbn zeta. intros Hno.
  destruct (_ && (nullish _ || nullish _)) eqn:Hcheck; [done|].
  cbn [connected rpc_get_confess_feed integer_or_null Feed.p_limit
       Feed.p_radius_m Feed.p_mode Feed.p_lat Feed.p_lng
       Feed.p_cursor_created_at Feed.p_cursor_id].
  destruct (is_integer (Z.min _ 50 + 1) && is_integer _) eqn:Hint;
    [|done].
  cbn [andb] in Hno. destruct (mode params); [done|].
  rewrite get_confess_feed_rows.
  cbn [Feed.p_mode Feed.p_lat Feed.p_lng mode_name].
  assert (bool_decide (json_number (lat params) = None)
          || bool_decide (json_number (lng params) = None) = true) as ->.
  { apply andb_false_iff in Hno as [H|H]; apply orb_true_iff; [left|right];
      apply bool_decide_eq_true;
      [destruct (lat params) as [v|]|destruct (lng params) as [v|]];
      cbn in *; try done; by rewrite H. }
  by rewrite mode_is_near_near.
Qed.

Lemma fetchFeed_rows uid now nid db params :
  well_formed params -> reaches_server params = true ->
  0 <= default DEFAULT_LIMIT (limit params) ->
  let n := default DEFAULT_LIMIT (limit params) in
  let M := matching now (request_for params n) db in
  let page := List.map select_fields (firstn (Z.to_nat (Z.min n 50)) M) in
  fetchFeed (Some (connected uid now nid db)) params =
    Returns (mkFeedResult page (cursor_of_last page)
               ((n <? 50) && (n <? Z.of_nat (List.length M)))).
Proof.
  intros Hwf Hreach Hn. cbn zeta.
  set (n := default DEFAULT_LIMIT (limit params)) in *.
  unfold fetchFeed. cbn zeta. fold n.
  rewrite (near_check_passes _ Hwf).
  rewrite rpc_feed_connected; [|unfold is_integer; lia|done].
  rewrite get_confess_feed_rows.
  cbn [Feed.p_mode Feed.p_lat Feed.p_lng Feed.p_limit].
  assert (Feed.mode_is_near (Some (mode_name (mode params)))
          && (bool_decide (lat params = None) || bool_decide (lng params = None))
          = false) as ->.
  { revert Hwf. unfold well_formed. destruct (mode params); [done|].
    intros ([x ->] & [y ->]). by rewrite andb_false_r. }
  cbn [reply_of].
  change (default [] (Some ?x)) with x.
  set (M := matching now (request_for params n) db).
  change (matching now _ db) with M.
  clearbody M.
  clearbody n.
  set (k := Z.to_nat (Feed.clamp_limit (Some (Z.min n 50 + 1)))).
  unfold Store.limit. fold k.
  destruct (page_of_items k (Z.to_nat n) (List.map select_fields M))
    as (Hpage & Hmore).
  { subst k. unfold Feed.clamp_limit, Feed.greatest, Feed.least. cbn. lia. }
  { subst k. unfold Feed.clamp_limit, Feed.greatest, Feed.least. cbn. lia. }
  clearbody k.
  rewrite Z2Nat.id in Hpage, Hmore by lia.
  rewrite Hmore in Hpage. rewrite length_map in Hpage, Hmore.
  rewrite <- !firstn_map. rewrite Hmore.
  unfold slice0. assert ((n <? 0) = false) as -> by lia.
  replace (Z.to_nat (Z.min n 50)) with (Nat.min (Z.to_nat n) 50) by lia.
  unfold cursor_of_last. by rewrite Hpage.
Qed.

Lemma returned_well_formed now db params n rows db' :
  Feed.get_confess_feed now db (request_for params n) = Returned rows db' ->
  well_formed params.
Proof.
  rewrite get_confess_feed_rows. unfold well_formed, request_for.
  cbn [Feed.p_mode Feed.p_lat Feed.p_lng].
  destruct (mode params); [done|].
  cbn [mode_name]. rewrite mode_is_near_near.
  by destruct (lat params), (lng params).
Qed.

(** X11.  Against the server, for a page size [n] that is not negative (30
    when none is asked for).  A request whose radius is outside the range
    of [INTEGER], or that in near mode carries a coordinate that is NaN or
    infinite, comes back empty.  Any other request for which the procedure
    returns gives the first [min n 50] of the rows the query selects, with
    the cursor of the last of them, and reports more exactly when [n] is
    below 50 and more than [n] rows are selected.  So a page never has more
    than 50 rows, a size under 10 is honoured although the server fetches
    10, and from size 50 upwards more is never reported. *)
Theorem fetchFeed_any_page_size uid now nid db params n :
  default DEFAULT_LIMIT (limit params) = n -> 0 <= n ->
  (reaches_server params = false ->
   fetchFeed (Some (connected uid now nid db)) params = Returns empty_result) /\
  (forall rows db',
     reaches_server params = true ->
     Feed.get_confess_feed now db (request_for params n) = Returned rows db' ->
     let M := matching now (request_for params n) db in
     let page := List.map select_fields (firstn (Z.to_nat (Z.min n 50)) M) in
     fetchFeed (Some (connected uid now nid db)) params =
       Returns (mkFeedResult page (cursor_of_last page)
                  ((n <? 50) && (n <? Z.of_nat (List.length M)))) /\
     (List.length page <= 50)%nat /\ (Z.of_nat (List.length page) <= n)).
Proof.
  intros <- Hn. split; [apply fetchFeed_refused|].
  intros rows db' Hreach Hwf%returned_well_formed. cbn zeta.
  split; [by apply fetchFeed_rows|].
  rewrite length_map, length_firstn. lia.
Qed.

(** The largest page size.  With 51 visible confessions stored, a request
    for a page of 50 returns 50 rows and reports that there are no more,
    the server having capped the 51 rows asked for at 50; a request for a
    page of 49 on the same table reports more. *)
Example page_size_50_reports_no_more :
  List.length (matching 500 (request_for (first_page 50) 50) (sample_db 51))
  = 51%nat /\
  (exists page cur,
     Client.fetchFeed (Some (Client.connected None 500 0 (sample_db 51)))
       (first_page 50)
     = Client.Returns (Client.mkFeedResult page cur false) /\
     List.length page = 50%nat) /\
  (exists page cur,
     Client.fetchFeed (Some (Client.connected None 500 0 (sample_db 51)))
       (first_page 49)
     = Client.Returns (Client.mkFeedResult page cur true) /\
     List.length page = 49%nat).
Proof.
  split; [vm_compute; reflexivity|].
  split; eexists _, _; split; vm_compute; reflexivity.
Qed.

End ClientPages.

(** ** Client wrappers: from page to page *)

Section ClientPaging.
Import Client.
Context {D : DoubleOps} {L : Pg.Locale}.
Implicit Types (db : list (confession D)) (params : FetchFeedParams D).

Lemma lookup_nth_error {A} (l : list A) i : l !! i = nth_error l i.
Proof. revert i. induction l as [|x l IH]; intros [|i]; cbn; auto. Qed.

Lemma last_of_options {A} (l : list A) :
  List.last (List.map Some l) None = last l.
Proof.
  induction l as [|x l IH]; [done|]. cbn [List.map List.last].
  destruct l as [|y l]; [done|]. exact IH.
Qed.

Lemma cursor_of_last_rows (l : list (confession D)) :
  cursor_of_last (List.map select_fields l) = row_cursor <$> last l.
Proof.
  unfold cursor_of_last. rewrite last_of_options.
  change (List.map select_fields l) with (select_fields <$> l).
  rewrite fmap_last. by destruct (last l).
Qed.

Lemma last_of_full_page {A} (l : list A) j n :
  (1 <= n)%nat -> (j + n <= List.length l)%nat ->
  last (firstn n (skipn j l)) = nth_error l (j + n - 1).
Proof.
  intros Hn Hlen. rewrite last_lookup, length_take, length_drop.
  replace (Nat.pred (Nat.min n (List.length l - j))) with (n - 1)%nat by lia.
  rewrite lookup_take_lt by lia. rewrite lookup_drop, lookup_nth_error.
  f_equal. lia.
Qed.

(** The fetch that carries the cursor of the row at position [j] returns
    the rows after that position. *)
Lemma fetchFeed_after_row uid now nid db params n j c :
  unique_ids db -> well_formed params -> reaches_server params = true ->
  default DEFAULT_LIMIT (limit params) = n -> 0 <= n ->
  nth_error (matching now (request_for (page_after params None) n) db) j
    = Some c ->
  let rest := skipn (S j) (matching now (request_for (page_after params None) n) db) in
  let page := List.map select_fields (firstn (Z.to_nat (Z.min n 50)) rest) in
  fetchFeed (Some (connected uid now nid db))
    (page_after params (Some (row_cursor c)))
  = Returns (mkFeedResult page (cursor_of_last page)
               ((n <? 50) && (n <? Z.of_nat (List.length rest)))).
Proof.
  intros Hids Hwf Hreach Hlim Hn Hj. cbn zeta.
  rewrite (fetchFeed_rows uid now nid db (page_after params (Some (row_cursor c))));
    [|exact Hwf|exact Hreach|cbn [page_after limit]; lia].
  cbn [page_after limit]. rewrite Hlim. cbn zeta.
  change (request_for (page_after params (Some (row_cursor c))) n)
    with (with_cursor (request_for (page_after params None) n)
            (Some (row_cursor c))).
  rewrite (matching_after_cursor now db _ _ Hids).
  change (with_cursor (request_for (page_after params None) n) None)
    with (request_for (page_after params None) n).
  rewrite (after_own_position _ j c); try done.
  - apply matching_sorted.
  - by apply matching_unique_ids.
Qed.

(** X12.  Two fetches in a row give two consecutive pages.  With unique
    identifiers and a page size [n] from 1 to 49, when the first page of a
    query reports more, the fetch that carries its cursor returns the next
    [n] selected rows: the two pages together are the first [2n] selected
    rows, in order, without a gap or a repeat, and more is reported again
    exactly when more than [2n] rows are selected. *)
Theorem two_fetches_two_pages uid now nid db params n first :
  unique_ids db -> well_formed params -> cursor params = None ->
  limit params = Some n -> 1 <= n <= 49 ->
  fetchFeed (Some (connected uid now nid db)) params = Returns first ->
  hasMore first = true ->
  let M := matching now (request_for params n) db in
  exists second,
    fetchFeed (Some (connected uid now nid db))
      (page_after params (nextCursor first)) = Returns second /\
    confessions first ++ confessions second
      = List.map select_fields (firstn (2 * Z.to_nat n) M) /\
    hasMore second = (2 * n <? Z.of_nat (List.length M)).
Proof.
  intros Hids Hwf Hcur Hlim Hn Hfirst Hmore. cbn zeta.
  assert (page_after params None = params) as Hsame.
  { destruct params; cbn in *. by subst. }
  destruct (reaches_server params) eqn:Hreach.
  2:{ rewrite (fetchFeed_refused _ _ _ _ _ Hreach) in Hfirst.
      injection Hfirst as <-. done. }
  rewrite (fetchFeed_rows uid now nid db params Hwf Hreach) in Hfirst
    by (rewrite Hlim; cbn; lia).
  rewrite Hlim in Hfirst. cbn [default] in Hfirst.
  change (from_option Datatypes.id DEFAULT_LIMIT (Some n)) with n in Hfirst.
  cbn zeta in Hfirst. injection Hfirst as <-. cbn [confessions nextCursor hasMore] in *.
  set (M := matching now (request_for params n) db) in *.
  apply andb_true_iff in Hmore as (_ & Hlen). apply Z.ltb_lt in Hlen.
  replace (Z.to_nat (Z.min n 50)) with (Z.to_nat n) by lia.
  rewrite cursor_of_last_rows.
  assert (last (firstn (Z.to_nat n) M) = nth_error M (Z.to_nat n - 1)) as ->.
  { apply (last_of_full_page M 0 (Z.to_nat n)); lia. }
  destruct (nth_error M (Z.to_nat n - 1)) as [c|] eqn:Hc.
  2:{ apply nth_error_None in Hc. lia. }
  cbn [fmap option_fmap option_map].
  eexists. split.
  - apply (fetchFeed_after_row uid now nid db params n (Z.to_nat n - 1) c);
      try done; [by rewrite Hlim|lia|by rewrite Hsame].
  - rewrite Hsame. fold M. cbn [confessions hasMore].
    replace (S (Z.to_nat n - 1)) with (Z.to_nat n) by lia.
    replace (Z.to_nat (Z.min n 50)) with (Z.to_nat n) by lia.
    split.
    + rewrite <- map_app, take_take_drop. do 2 f_equal. lia.
    + rewrite length_drop.
      destruct (Z.ltb_spec n 50); [|lia]. cbn [andb].
      destruct (Z.ltb_spec n (Z.of_nat (List.length M - Z.to_nat n))),
        (Z.ltb_spec (2 * n) (Z.of_nat (List.length M))); try done; lia.
Qed.

End ClientPaging.

(** ** The application's loaders *)

Section Loaders.
Import Client.
Context {D : DoubleOps} {L : Pg.Locale}.
Implicit Types (db : list (confession D)) (st : App.AppState D).

Lemma world_loads_state uid now nid db st k :
  unique_ids db ->
  (k = 0 \/ 30 * k < List.length (matching now (request_for world_request 30) db))%nat ->
  world_loads (Some (connected uid now nid db)) k st =
    Returns
      (App.mkAppState
         (App.mkFeedState
            (List.map select_fields
               (firstn (30 * S k) (matching now (request_for world_request 30) db)))
            (cursor_of_last
               (List.map select_fields
                  (firstn 30
                     (skipn (30 * k)
                        (matching now (request_for world_request 30) db)))))
            (Z.of_nat (30 * S k)
             <? Z.of_nat (List.length (matching now (request_for world_request 30) db)))
            false true)
         (App.placeFeed st) (App.nearMeRadius st)
         (Nat.iter k Session.recordPageFetch (App.session st))).
Proof.
  intros Hids. set (M := matching now (request_for world_request 30) db).
  induction k as [|k IH]; intros Hk.
  - unfold world_loads, App.loadWorld. cbn [Nat.iter].
    change (mkFetchFeedParams world None None None None None)
      with (@world_request D).
    rewrite (fetchFeed_rows uid now nid db world_request) by done.
    change (default DEFAULT_LIMIT (limit world_request)) with 30.
    cbn zeta. fold M. cbn [App.await App.merged App.count_fetch negb andb].
    cbn [confessions nextCursor hasMore].
    change (Z.to_nat (Z.min 30 50)) with 30%nat.
    change (30 * 1)%nat with 30%nat. change (30 * 0)%nat with 0%nat.
    cbn [skipn]. change (30 <? 50) with true. cbn [andb].
    change (Z.of_nat 30) with 30. done.
  - assert (30 * S k < List.length M)%nat as Hlen by lia.
    unfold world_loads in *. rewrite Nat.iter_succ, IH by lia.
    cbn [App.await]. unfold App.loadWorld.
    cbn [App.worldFeed App.cursor App.placeFeed App.nearMeRadius App.session].
    rewrite cursor_of_last_rows, (last_of_full_page M (30 * k) 30) by lia.
    destruct (nth_error M (30 * k + 30 - 1)) as [c|] eqn:Hc.
    2:{ apply nth_error_None in Hc. lia. }
    cbn [fmap option_fmap option_map].
    change (mkFetchFeedParams world (Some (row_cursor c)) None None None None)
      with (page_after (@world_request D) (Some (row_cursor c))).
    rewrite (fetchFeed_after_row uid now nid db world_request 30
               (30 * k + 30 - 1) c); try done.
    cbn zeta. change (page_after world_request None) with (@world_request D).
    fold M. cbn [App.await App.merged App.count_fetch negb andb].
    cbn [confessions nextCursor hasMore App.confessions].
    change (Z.to_nat (Z.min 30 50)) with 30%nat.
    replace (S (30 * k + 30 - 1)) with (30 * S k)%nat by lia.
    change (30 <? 50) with true. cbn [andb].
    unfold App.merged, App.count_fetch.
    cbn [confessions nextCursor hasMore App.confessions negb andb].
    rewrite <- map_app, take_take_drop, length_map, length_take, length_drop.
    clearbody M.
    assert ((0 <? Z.of_nat (Nat.min 30 (List.length M - 30 * S k))) = true)
      as -> by (apply Z.ltb_lt; lia).
    cbn [Nat.iter]. do 2 f_equal.
    f_equal; [do 2 f_equal; lia|].
    destruct (Z.ltb_spec 30 (Z.of_nat (List.length M - 30 * S k))),
      (Z.ltb_spec (Z.of_nat (30 * S (S k))) (Z.of_nat (List.length M)));
      try done; lia.
Qed.

(** X13.  Loading the world feed page by page shows every selected row
    once, in order.  On a table with unique identifiers that does not
    change, after a reset and [k] further loads, each made while rows
    remained, the feed holds exactly the first [30 (k + 1)] selected rows;
    it reports more exactly when more than that many are selected; each of
    the [k] further loads was counted by the session manager and the reset
    was not; and the other feed and the stored radius are untouched. *)
Theorem world_feed_accumulates uid now nid db st k :
  unique_ids db ->
  (k = 0 \/ 30 * k < List.length (matching now (request_for world_request 30) db))%nat ->
  exists st',
    world_loads (Some (connected uid now nid db)) k st = Returns st' /\
    App.confessions (App.worldFeed st')
      = List.map select_fields
          (firstn (30 * S k) (matching now (request_for world_request 30) db)) /\
    App.hasMore (App.worldFeed st')
      = (Z.of_nat (30 * S k)
         <? Z.of_nat (List.length (matching now (request_for world_request 30) db))) /\
    App.session st' = Nat.iter k Session.recordPageFetch (App.session st) /\
    App.placeFeed st' = App.placeFeed st /\
    App.nearMeRadius st' = App.nearMeRadius st.
Proof.
  intros Hids Hk. eexists. split; [by apply world_loads_state|]. by cbn.
Qed.


(** X15.  A reset of the near feed settles on the smallest of the radii
    100, 250 and 500 metres at which at least 10 confessions come back, and
    on 500 metres when none of them brings 10; the larger radii of the list
    are never used.  The feed shown is the first page at the radius settled
    on, that radius is the one kept for later pages, and the world feed and
    the session are left as they were. *)
Theorem near_me_settles_radius sb lat lng st st' :
  App.loadNearMe sb lat lng true st = Returns st' ->
  let enough radius :=
    match App.fetch_near sb lat lng radius None with
    | Returns result =>
        App.MIN_RESULTS <=? Z.of_nat (List.length (confessions result))
    | Throws => false
    end in
  App.nearMeRadius st'
    = (if enough 100 then 100 else if enough 250 then 250 else 500) /\
  (exists result,
     App.fetch_near sb lat lng (App.nearMeRadius st') None = Returns result /\
     App.placeFeed st' = App.merged true (App.placeFeed st) result) /\
  App.worldFeed st' = App.worldFeed st /\
  App.session st' = App.session st.
Proof.
  unfold App.loadNearMe. cbn [negb]. unfold App.NEAR_ME_RADII.
  cbn [App.auto_expand hd]. unfold App.fallback.
  change (App.MAX_ATTEMPTS <=? 0) with false.
  change (App.MAX_ATTEMPTS <=? 0 + 1) with false.
  change (App.MAX_ATTEMPTS <=? 0 + 1 + 1) with false.
  change (App.MAX_ATTEMPTS <=? 0 + 1 + 1 + 1) with true.
  change (100 =? App.last_radius) with false.
  change (250 =? App.last_radius) with false.
  change (500 =? App.last_radius) with false.
  cbn [orb]. cbn zeta.
  destruct (App.fetch_near sb lat lng 100 None) as [r1|] eqn:E1;
    cbn [App.await]; [|done].
  destruct (App.MIN_RESULTS <=? Z.of_nat (List.length (confessions r1))).
  { intros [= <-]. cbn. rewrite ?E1, ?E2, ?E3. intuition eauto. }
  destruct (App.fetch_near sb lat lng 250 None) as [r2|] eqn:E2;
    cbn [App.await]; [|done].
  destruct (App.MIN_RESULTS <=? Z.of_nat (List.length (confessions r2))).
  { intros [= <-]. cbn. rewrite ?E1, ?E2, ?E3. intuition eauto. }
  destruct (App.fetch_near sb lat lng 500 None) as [r3|] eqn:E3;
    cbn [App.await]; [|done].
  destruct (App.MIN_RESULTS <=? Z.of_nat (List.length (confessions r3))).
  { intros [= <-]. cbn. rewrite ?E1, ?E2, ?E3. intuition eauto. }
  rewrite ?E3. cbn [App.await]. intros [= <-]. cbn.
  rewrite ?E1, ?E2, ?E3. intuition eauto.
Qed.

End Loaders.

(** ** Place resolution: validation, cache and padding *)

Section PlaceCaching.
Import Place.

Lemma trimStart_blank s : blank s -> trimStart s = [].
Proof.
  unfold blank. induction s as [|c s IH]; [done|]. cbn.
  intros (-> & H)%andb_true_iff. by apply IH.
Qed.

Lemma trimStart_after_blank pre s : blank pre -> trimStart (pre ++ s) = trimStart s.
Proof.
  unfold blank. induction pre as [|c pre IH]; [done|]. cbn.
  intros (-> & H)%andb_true_iff. by apply IH.
Qed.

Lemma trimStart_before s post :
  trimStart s <> [] -> trimStart (s ++ post) = trimStart s ++ post.
Proof.
  induction s as [|c s IH]; [done|]. cbn.
  destruct (is_js_space c); [exact IH|done].
Qed.

Lemma blank_rev s : blank s -> blank (rev s).
Proof.
  unfold blank. rewrite !forallb_forall. intros H x Hx.
  apply H. by apply in_rev.
Qed.

(** Blank characters around a string do not change what [trim] gives. *)
Lemma trim_padding pre s post :
  blank pre -> blank post -> trim (pre ++ s ++ post) = trim s.
Proof.
  intros Hpre Hpost. unfold trim. rewrite trimStart_after_blank by done.
  destruct (trimStart s) as [|c s'] eqn:E.
  - assert (trimStart (s ++ post) = []) as ->; [|done].
    assert (blank s) as Hs.
    { clear -E. unfold blank. induction s as [|c s IH]; [done|].
      cbn in *. destruct (is_js_space c); [by apply IH|done]. }
    apply trimStart_blank. unfold blank in *.
    rewrite forallb_app, Hs, Hpost. done.
  - rewrite trimStart_before by (by rewrite E). rewrite E.
    rewrite rev_app_distr. rewrite trimStart_after_blank; [done|].
    by apply blank_rev.
Qed.

Variable toLowerCase : jsstring -> jsstring.
Variable number : Type.
Variable parseFloat : jsstring -> number.
Variable isNaN : number -> bool.

Implicit Types (env : environment) (t : gmap jsstring (cache_row number)).
Implicit Types (q : jsstring).

(** What a pending write tells about the call that left it. *)
Lemma handler_write env t req resp row :
  handler toLowerCase parseFloat isNaN env t req = (resp, Some row) ->
  exists q,
    req = Post (Some q) /\
    2 <= Place.length (trim q) <= 80 /\
    q_lower row = normalizeQuery toLowerCase q /\
    Place.q row = trim q /\
    provider row = "nominatim"%string /\
    isNaN (lat row) = false /\ isNaN (lng row) = false /\
    resp = mkResponse 200
             (Place (lat row) (lng row) (name row) "nominatim"%string).
Proof.
  unfold handler. destruct req as [| | |[q|]]; try done.
  destruct q as [|c q]; [done|].
  destruct (Z.ltb_spec (Place.length (trim (c :: q))) 2); [done|].
  destruct (Z.ltb_spec 80 (Place.length (trim (c :: q)))); [done|].
  destruct (configured env); [|done]. cbn [negb].
  destruct (if select_error env then None else _); [done|].
  destruct (isWellFormed (trim (c :: q))); [|done]. cbn [negb].
  destruct (nominatim env (trim (c :: q))) as [| | | | |[|result rest]];
    try done.
  destruct (isNaN (parseFloat (n_lat result))) eqn:E1; [done|].
  destruct (isNaN (parseFloat (n_lon result))) eqn:E2; [done|].
  cbn [orb]. intros [= <- <-]. exists (c :: q).
  unfold normalizeQuery. rewrite trim_idempotent. cbn.
  repeat split; try done; lia.
Qed.

(** X16.  A request is checked before anything is looked up.  One whose
    body is a JSON value other than null, and in which the query is absent,
    not a string or empty, or has a trimmed length under 2 or over 80
    characters, is answered with status 400 and the message of the check
    that failed; one whose body is not JSON is answered with status 400
    too; and one whose body is the JSON value null is answered with status
    500, "Internal server error".  Each of these answers is the same
    whatever the server's configuration, the cache and the provider are,
    and nothing is written. *)
Theorem resolve_place_validates_first env t (query : option jsstring) :
  match query with
  | Some q => q = [] \/ Place.length (trim q) < 2 \/ 80 < Place.length (trim q)
  | None => True
  end ->
  handler toLowerCase parseFloat isNaN env t (Post query)
  = (mkResponse 400
       (Error
          match query with
          | None | Some [] => "Missing query parameter q"%string
          | Some q =>
              if Place.length (trim q) <? 2
              then "Query too short (min 2 characters)"%string
              else "Query too long (max 80 characters)"%string
          end),
     None) /\
  handler toLowerCase parseFloat isNaN env t InvalidJson
  = (mkResponse 400 (Error "Invalid JSON body"%string), None) /\
  handler toLowerCase parseFloat isNaN env t NullBody
  = (mkResponse 500 (Error "Internal server error"%string), None).
Proof.
  intros H. split; [|done]. revert H.
  unfold handler. destruct query as [[|c q]|]; try done.
  intros [H|H]; [done|].
  destruct (Z.ltb_spec (Place.length (trim (c :: q))) 2); [done|].
  destruct (Z.ltb_spec 80 (Place.length (trim (c :: q)))); [done|lia].
Qed.


(** X18.  The cache is only ever added to, one row per normalised query.
    Whatever the request, once the handler's write, if it left one, has
    reached a table in which every row sits under its own normalised query,
    that is still so; every row that was in the table is still there,
    unchanged; and a row is written only with an answer tagged "nominatim"
    that carries the row's own coordinates. *)
Theorem cache_only_grows env t t' req :
  keyed_by_query t' ->
  let answer := handler toLowerCase parseFloat isNaN env t req in
  keyed_by_query (after_write t' (snd answer)) /\
  (forall k r, t' !! k = Some r -> after_write t' (snd answer) !! k = Some r) /\
  match snd answer with
  | Some row =>
      fst answer
      = mkResponse 200 (Place (lat row) (lng row) (name row) "nominatim"%string)
  | None => after_write t' (snd answer) = t'
  end.
Proof.
  intros Hkeyed. cbn zeta.
  destruct (handler toLowerCase parseFloat isNaN env t req) as [resp [row|]] eqn:E;
    cbn [fst snd]; [|done].
  apply handler_write in E as (q0 & _ & _ & _ & _ & _ & _ & _ & ->).
  unfold after_write, place_cache_insert.
  destruct (t' !! q_lower row) as [old|] eqn:Hold; cbn [fst].
  - done.
  - split; [|split; [|done]].
    + intros k r. rewrite lookup_insert.
      destruct (decide (q_lower row = k)) as [<-|]; [by intros [= <-]|].
      apply Hkeyed.
    + intros k r Hk. rewrite lookup_insert_ne; [done|]. congruence.
Qed.

(** X19.  Blank characters before and after the query make no difference:
    a query that is not empty gets the same answer, and leaves the same
    write, with or without them. *)
Theorem resolve_place_ignores_padding env t q pre post :
  q <> [] -> blank pre -> blank post ->
  handler toLowerCase parseFloat isNaN env t (Post (Some (pre ++ q ++ post)))
  = handler toLowerCase parseFloat isNaN env t (Post (Some q)).
Proof.
  intros Hq Hpre Hpost. unfold handler.
  destruct q as [|c q]; [done|].
  destruct (pre ++ (c :: q) ++ post) as [|c' q'] eqn:E.
  { by destruct pre. }
  rewrite <- E. by rewrite (trim_padding pre (c :: q) post).
Qed.

(** X20.  The client's own cache finds a place again under its query,
    also with blank characters around it, and storing a place leaves the
    entries of all other normalised queries as they were. *)
Theorem cached_place_found_again
    (cache : gmap jsstring (PlaceCache.ResolvedPlace number))
    (place : PlaceCache.ResolvedPlace number) pre post other :
  blank pre -> blank post ->
  let stored := PlaceCache.setCachedPlace toLowerCase cache place in
  PlaceCache.getCachedPlace toLowerCase stored
    (pre ++ PlaceCache.query place ++ post) = Some place /\
  (PlaceCache.normalizeQuery toLowerCase other
     <> PlaceCache.normalizeQuery toLowerCase (PlaceCache.query place) ->
   PlaceCache.getCachedPlace toLowerCase stored other
   = PlaceCache.getCachedPlace toLowerCase cache other).
Proof.
  intros Hpre Hpost. cbn zeta.
  unfold PlaceCache.getCachedPlace, PlaceCache.setCachedPlace,
    PlaceCache.normalizeQuery. cbn zeta. split.
  - rewrite trim_padding by done. apply lookup_insert_eq.
  - intros Hne. by rewrite lookup_insert_ne.
Qed.

End PlaceCaching.

(** ** The analytics session hash *)

Section SessionHash.
Import Analytics.

(** X21.  With local storage available and a non-empty fresh identifier,
    a call leaves the hash it returns in storage, stamped either with the
    time of this call, when it made a new hash, or with the stamp it found,
    when that was less than 24 hours old; a later call less than 24 hours
    after the stamp returns the same hash and changes nothing, and a call 24
    hours or more after the stamp returns a new hash. *)
Theorem session_hash_rotates_daily now_read now_write fresh hash created
    now_read' now_write' fresh' :
  fresh <> ""%string ->
  let r := getSessionHash now_read now_write fresh (Available hash created) in
  exists stamp,
    snd r = Available (Some (fst r)) (Some stamp) /\
    ((fst r = fresh /\ stamp = now_write) \/
     (hash = Some (fst r) /\ created = Some stamp /\
      now_read - stamp < SESSION_TTL_MS)) /\
    (now_read' - stamp < SESSION_TTL_MS ->
     getSessionHash now_read' now_write' fresh' (snd r) = r) /\
    (SESSION_TTL_MS <= now_read' - stamp ->
     getSessionHash now_read' now_write' fresh' (snd r)
     = (fresh', Available (Some fresh') (Some now_write'))).
Proof.
  intros Hfresh. cbn zeta.
  assert (forall h stamp,
            truthy (Some h) = true ->
            (now_read' - stamp < SESSION_TTL_MS ->
             getSessionHash now_read' now_write' fresh'
               (Available (Some h) (Some stamp))
             = (h, Available (Some h) (Some stamp))) /\
            (SESSION_TTL_MS <= now_read' - stamp ->
             getSessionHash now_read' now_write' fresh'
               (Available (Some h) (Some stamp))
             = (fresh', Available (Some fresh') (Some now_write')))) as Hlater.
  { intros h stamp Hh. unfold getSessionHash. rewrite Hh. cbn [andb].
    destruct (Z.ltb_spec (now_read' - stamp) SESSION_TTL_MS); split;
      intros; try done; lia. }
  assert (truthy (Some fresh) = true) as Htf by (by destruct fresh).
  destruct (getSessionHash now_read now_write fresh (Available hash created))
    as [h1 st1] eqn:E.
  assert (exists stamp,
            st1 = Available (Some h1) (Some stamp) /\
            truthy (Some h1) = true /\
            ((h1 = fresh /\ stamp = now_write) \/
             (hash = Some h1 /\ created = Some stamp /\
              now_read - stamp < SESSION_TTL_MS)))
    as (stamp & -> & Hh1 & Hcase).
  { revert E. unfold getSessionHash.
    destruct hash as [h|], created as [t|];
      try (intros [= <- <-]; exists now_write; by auto).
    destruct (truthy (Some h)) eqn:Hh; cbn [andb];
      [destruct (Z.ltb_spec (now_read - t) SESSION_TTL_MS)|];
      intros [= <- <-].
    - exists t. auto 10.
    - exists now_write. auto.
    - exists now_write. auto. }
  exists stamp. cbn [fst snd]. split; [done|]. split; [exact Hcase|].
  by apply Hlater.
Qed.

End SessionHash.

(** ** Feed query: arguments left out *)

Section FeedArguments.
Import Feed.
Context {D : DoubleOps}.
Implicit Types (c : confession D) (a : feed_args D).
Implicit Types (db : list (confession D)).

Lemma mode_is_near_spec (m : option Pg.text) :
  mode_is_near m = true <-> m = Some (lit "near").
Proof.
  unfold mode_is_near. destruct m as [m|]; [|done].
  cbn [Sql.holds Sql.cmp]. case_bool_decide as H; [by subst|].
  split; [done|]. intros [= E]. done.
Qed.

Lemma keyset_without_id a c t :
  p_cursor_created_at a = Some t -> p_cursor_id a = None ->
  Sql.holds (keyset a c) = (created_at c <? t).
Proof.
  unfold keyset. intros -> ->. cbn.
  by destruct (created_at c <? t), (created_at c =? t).
Qed.

Lemma where_without_id now a c t :
  p_cursor_created_at a = Some t -> p_cursor_id a = None ->
  Sql.holds
    (if mode_is_near (p_mode a)
     then where_near now (clamp_radius (p_radius_m a)) a c
     else where_world now a c)
  = Sql.holds
      (if mode_is_near (p_mode a)
       then where_near now (clamp_radius (p_radius_m a)) (with_cursor a None) c
       else where_world now (with_cursor a None) c)
    && (created_at c <? t).
Proof.
  intros Ht Hi. unfold where_near, where_world. destruct (mode_is_near _);
    rewrite !holds_and, (keyset_without_id a c t Ht Hi);
    rewrite (keyset_no_cursor (with_cursor a None)) by done;
    cbn [Sql.holds]; by rewrite andb_true_r.
Qed.

(** X23.  A cursor that names a timestamp but no identifier is not an
    error: the query then returns only rows created strictly before that
    timestamp, so rows created at the very instant of the cursor are left
    out, whatever their identifiers; the page is the leading rows, up to the
    page size, of those the query selects without a cursor. *)
Theorem cursor_without_id now db a t rows db' :
  unique_ids db ->
  p_cursor_created_at a = Some t -> p_cursor_id a = None ->
  get_confess_feed now db a = Returned rows db' ->
  rows = List.map select_fields
           (firstn (Z.to_nat (clamp_limit (p_limit a)))
              (List.filter (fun c => created_at c <? t)
                 (matching now (with_cursor a None) db))) /\
  List.Forall (fun r => r_created_at r < t) rows.
Proof.
  intros Hids Ht Hi. rewrite get_confess_feed_rows. destruct (_ && _); [done|].
  intros [= <- _]. unfold Store.limit.
  assert (matching now a db
          = List.filter (fun c => created_at c <? t)
              (matching now (with_cursor a None) db)) as ->.
  { apply sorted_same_elements with (R := feed_order).
    - apply matching_sorted.
    - apply StronglySorted_filter', matching_sorted.
    - unfold matching, order_by_created_at_desc_id_desc.
      cbn [with_cursor p_mode p_radius_m].
      rewrite (filter_ext _ _ (fun c => where_without_id now a c t Ht Hi)).
      rewrite (filter_both _ (fun c => created_at c <? t)).
      rewrite merge_sort_Permutation.
      apply filter_Permutation'. symmetry. apply merge_sort_Permutation.
    - intros c1 c2 H1%matching_subset H2%matching_subset H12 H21.
      apply (same_id_same_row db); try done. by apply feed_order_same_id. }
  split; [done|].
  apply List.Forall_forall. intros r (c & <- & Hc%In_firstn)%in_map_iff.
  apply filter_In in Hc as (_ & Hc). cbn. lia.
Qed.

(** X24.  A near request without a latitude or without a longitude is
    refused with the exception "lat and lng are required for near mode",
    whatever the table holds.  Any other mode, an absent or misspelt one
    too, is served as the world feed: the call returns, and the coordinates
    and the radius sent along make no difference.  And without a cursor
    timestamp the cursor identifier makes no difference. *)
Theorem feed_arguments_ignored now db a :
  (p_mode a = Some (lit "near") -> p_lat a = None \/ p_lng a = None ->
   get_confess_feed now db a = Raised NEAR_NEEDS_LAT_LNG) /\
  (p_mode a <> Some (lit "near") ->
   (exists rows, get_confess_feed now db a = Returned rows db) /\
   forall la lo radius,
     get_confess_feed now db
       (mkFeedArgs (p_mode a) (p_limit a) (p_cursor_created_at a)
          (p_cursor_id a) la lo radius)
     = get_confess_feed now db a) /\
  (p_cursor_created_at a = None ->
   forall i,
     get_confess_feed now db
       (mkFeedArgs (p_mode a) (p_limit a) None i (p_lat a) (p_lng a)
          (p_radius_m a))
     = get_confess_feed now db a).
Proof.
  split; [|split].
  - intros Hmode%mode_is_near_spec Hnull. rewrite get_confess_feed_rows, Hmode.
    by destruct Hnull as [-> | ->]; [|destruct (p_lat a)].
  - intros Hmode.
    assert (mode_is_near (p_mode a) = false) as E.
    { destruct (mode_is_near (p_mode a)) eqn:E; [|done].
      by apply mode_is_near_spec in E. }
    split.
    + rewrite get_confess_feed_rows, E. eauto.
    + intros la lo radius. unfold get_confess_feed. cbn [p_mode p_limit].
      by rewrite E.
  - intros Hcur i. rewrite !get_confess_feed_rows.
    cbn [p_mode p_limit p_lat p_lng]. destruct (_ && _); [done|].
    f_equal. f_equal. f_equal. unfold matching.
    cbn [p_mode p_radius_m]. f_equal. apply filter_ext. intros c.
    unfold where_near, where_world, keyset. cbn [p_cursor_created_at p_cursor_id
      p_lat p_lng]. rewrite Hcur. done.
Qed.

End FeedArguments.

(** ** Instances of the further properties *)

Lemma hello_is_accepted :
  Admission.insert_confession (Some 7%N) 20000000 2 [post_at 0]
    (Some (lit " hello ")) None None None
  = Returned [select_fields hello_row] ([post_at 0] ++ [hello_row]).
Proof. vm_compute. reflexivity. Qed.

Lemma two_is_fresh : forall c, In c [post_at 0] -> id c <> 2%N.
Proof. intros c [<-|[]]. discriminate. Qed.

Lemma sample_db_unique_ids n : (n <= 70)%nat -> unique_ids (sample_db n).
Proof.
  intros Hn. unfold unique_ids, sample_db. rewrite List.map_map. cbn [id sample_row].
  apply NoDup_fmap_2; [intros x y; lia|]. apply NoDup_ListNoDup, seq_NoDup.
Qed.

Lemma accepted_submission_row_witness :
  Admission.insert_confession (Some 7%N) 20000000 2 [post_at 0]
    (Some (lit " hello ")) None None None
  = Returned [select_fields hello_row] ([post_at 0] ++ [hello_row]) /\
  (forall c, In c [post_at 0] -> id c <> 2%N) /\
  [post_at 0] ++ [hello_row] = [post_at 0] ++ [hello_row] /\
  [select_fields hello_row] = [select_fields hello_row] /\
  passes_filter (text hello_row) = true.
Proof.
  split; [exact hello_is_accepted|]. split; [exact two_is_fresh|].
  exact (accepted_submission_row (D := RealOps) _ _ _ _ _ _ _ _ _ _
           hello_is_accepted two_is_fresh).
Defined.

Lemma cooldown_after_own_submission_witness :
  passes_filter (btrim (lit "again")) = true /\
  30000000 - 20000000 < Admission.seconds 15 /\
  Admission.insert_confession (Some 7%N) 30000000 3
    ([post_at 0] ++ [hello_row]) (Some (lit "again")) None None None
  = Raised RATE_LIMIT.
Proof.
  split; [reflexivity|]. split; [reflexivity|].
  exact (proj1 (cooldown_after_own_submission (D := RealOps) 7 20000000 2
                  [post_at 0] (lit " hello ") None None None _ _
                  30000000 3 (lit "again") None None None
                  hello_is_accepted eq_refl eq_refl)).
Defined.

Lemma accepted_submission_keeps_table_witness :
  Admission.insert_confession (Some 7%N) 20000000 2 [post_at 0]
    (Some (lit " hello ")) None None None
  = Returned [select_fields hello_row] ([post_at 0] ++ [hello_row]) /\
  (forall c, In c [post_at 0] -> In c ([post_at 0] ++ [hello_row])) /\
  List.length ([post_at 0] ++ [hello_row]) = 2%nat.
Proof.
  split; [exact hello_is_accepted|].
  exact (proj2 (proj2 (accepted_submission_keeps_table (D := RealOps)
                         _ _ _ _ _ _ _ _ _ _ hello_is_accepted))).
Defined.

Lemma eight_digits_rejected_witness :
  8 <= char_length (digits_only (lit "Call 555 12 345")) /\
  Admission.insert_confession (D := RealOps) None 0 1 []
    (Some (lit "Call 555 12 345")) None None None = Raised CONTENT_BLOCKED.
Proof.
  assert (8 <= char_length (digits_only (lit "Call 555 12 345"))) as H
    by (by vm_compute).
  split; [exact H|].
  exact (eight_digits_rejected (D := RealOps) None 0 1 []
           (lit "Call 555 12 345") None None None H).
Defined.

Lemma sample_page :
  Feed.get_confess_feed 500 (sample_db 3) (world_args None None)
  = Returned (List.map select_fields [sample_row 3; sample_row 2; sample_row 1])
      (sample_db 3).
Proof. vm_compute. reflexivity. Qed.

Lemma page_size_bounds_witness :
  Feed.get_confess_feed 500 (sample_db 3) (world_args None None)
  = Returned (List.map select_fields [sample_row 3; sample_row 2; sample_row 1])
      (sample_db 3) /\
  (List.length
     (List.map select_fields [sample_row 3; sample_row 2; sample_row 1])
   <= 50)%nat.
Proof.
  split; [exact sample_page|].
  exact (proj1 (proj2 (page_size_bounds (D := RealOps) _ _ _ _ _ sample_page))).
Defined.

Lemma next_page_continues_witness :
  unique_ids (sample_db 3) /\
  nth_error (matching 500 (with_cursor (world_args None None) None) (sample_db 3)) 0
  = Some (sample_row 3) /\
  Feed.get_confess_feed 500 (sample_db 3)
    (with_cursor (world_args None None) (Some (row_cursor (sample_row 3))))
  = Returned (List.map select_fields [sample_row 2; sample_row 1]) (sample_db 3) /\
  List.map select_fields [sample_row 2; sample_row 1]
  = List.map select_fields
      (firstn (Z.to_nat (Feed.clamp_limit (Feed.p_limit (world_args None None))))
         (skipn 1 (matching 500 (with_cursor (world_args None None) None)
                     (sample_db 3)))).
Proof.
  assert (unique_ids (sample_db 3)) as Hids by (apply sample_db_unique_ids; lia).
  assert (nth_error (matching 500 (with_cursor (world_args None None) None)
                       (sample_db 3)) 0 = Some (sample_row 3)) as Hk
    by (vm_compute; reflexivity).
  assert (Feed.get_confess_feed 500 (sample_db 3)
            (with_cursor (world_args None None) (Some (row_cursor (sample_row 3))))
          = Returned (List.map select_fields [sample_row 2; sample_row 1])
              (sample_db 3)) as Hret by (vm_compute; reflexivity).
  split; [exact Hids|]. split; [exact Hk|]. split; [exact Hret|].
  exact (next_page_continues (D := RealOps) 500 (sample_db 3)
           (world_args None None) 0 (sample_row 3) _ _ Hids Hk Hret).
Defined.

Lemma cleanup_is_invisible_witness :
  expiry_set [post_at 0] /\
  90000000 * 1000 <= Admission.hours 25 /\
  matching (Admission.hours 25) (world_args None None)
    (Cleanup.cleanup_old_confessions (Admission.hours 25) [post_at 0])
  = matching (Admission.hours 25) (world_args None None) [post_at 0].
Proof.
  assert (expiry_set [post_at 0]) as Hexp by (by intros c [<-|[]]).
  assert (90000000 * 1000 <= Admission.hours 25) as Hms by (by vm_compute).
  split; [exact Hexp|]. split; [exact Hms|].
  exact (proj1 (cleanup_is_invisible (D := RealOps) (Admission.hours 25)
                  (Admission.hours 25) 90000000 [post_at 0]
                  (world_args None None) (Cleanup.mkEnvironment true None)
                  Hexp (Z.le_refl _) Hms eq_refl eq_refl)).
Defined.

Lemma accepted_submission_is_readable_witness :
  In hello_row
    (matching 20000001 (world_args None None) ([post_at 0] ++ [hello_row]))
  <-> 20000001 < 20000000 + Admission.hours 24.
Proof.
  exact (proj1 (accepted_submission_is_readable (D := RealOps) _ _ _ _ _ _ _ _ _ _
                  20000001 (world_args None None) hello_is_accepted)
           eq_refl eq_refl).
Defined.

Lemma fetchFeed_any_page_size_witness :
  default Client.DEFAULT_LIMIT (Client.limit (first_page 5)) = 5 /\
  reaches_server (first_page 5) = true /\
  Feed.get_confess_feed 500 (sample_db 12) (request_for (first_page 5) 5)
  = Returned
      (List.map select_fields
         (firstn 10 (matching 500 (request_for (first_page 5) 5) (sample_db 12))))
      (sample_db 12) /\
  Client.fetchFeed (Some (Client.connected None 500 0 (sample_db 12)))
    (first_page 5)
  = Client.Returns
      (Client.mkFeedResult
         (List.map select_fields
            (firstn (Z.to_nat (Z.min 5 50))
               (matching 500 (request_for (first_page 5) 5) (sample_db 12))))
         (cursor_of_last
            (List.map select_fields
               (firstn (Z.to_nat (Z.min 5 50))
                  (matching 500 (request_for (first_page 5) 5) (sample_db 12)))))
         ((5 <? 50)
          && (5 <? Z.of_nat
                     (List.length
                        (matching 500 (request_for (first_page 5) 5)
                           (sample_db 12)))))).
Proof.
  assert (Feed.get_confess_feed 500 (sample_db 12)
            (request_for (first_page 5) 5)
          = Returned
              (List.map select_fields
                 (firstn 10
                    (matching 500 (request_for (first_page 5) 5)
                       (sample_db 12))))
              (sample_db 12)) as Hret by (vm_compute; reflexivity).
  split; [reflexivity|]. split; [reflexivity|]. split; [exact Hret|].
  exact (proj1 (proj2 (fetchFeed_any_page_size (D := RealOps) None 500 0
                         (sample_db 12) (first_page 5) 5 eq_refl ltac:(lia))
                  _ _ eq_refl Hret)).
Defined.

Lemma two_fetches_two_pages_witness :
  exists first,
    Client.fetchFeed (Some (Client.connected None 500 0 (sample_db 25)))
      (first_page 10) = Client.Returns first /\
    Client.hasMore first = true /\
    exists second,
      Client.fetchFeed (Some (Client.connected None 500 0 (sample_db 25)))
        (page_after (first_page 10) (Client.nextCursor first))
      = Client.Returns second /\
      Client.confessions first ++ Client.confessions second
      = List.map select_fields
          (firstn (2 * Z.to_nat 10)
             (matching 500 (request_for (first_page 10) 10) (sample_db 25))) /\
      Client.hasMore second
      = (2 * 10 <? Z.of_nat
                     (List.length
                        (matching 500 (request_for (first_page 10) 10)
                           (sample_db 25)))).
Proof.
  eexists. split; [vm_compute; reflexivity|]. split; [reflexivity|].
  apply (two_fetches_two_pages (D := RealOps) None 500 0 (sample_db 25)
           (first_page 10) 10);
    [apply sample_db_unique_ids; lia|exact I|reflexivity|reflexivity|lia
    |vm_compute; reflexivity|reflexivity].
Defined.

Lemma world_feed_accumulates_witness :
  exists st',
    world_loads (Some (Client.connected None 500 0 (sample_db 70))) 2 sample_app
    = Client.Returns st' /\
    App.confessions (App.worldFeed st')
    = List.map select_fields
        (firstn (30 * 3)
           (matching 500 (request_for world_request 30) (sample_db 70))) /\
    App.hasMore (App.worldFeed st')
    = (Z.of_nat (30 * 3)
       <? Z.of_nat
            (List.length
               (matching 500 (request_for world_request 30) (sample_db 70)))) /\
    App.session st'
    = Nat.iter 2 Session.recordPageFetch (App.session sample_app) /\
    App.placeFeed st' = App.placeFeed sample_app /\
    App.nearMeRadius st' = App.nearMeRadius sample_app.
Proof.
  apply (world_feed_accumulates (D := RealOps) None 500 0 (sample_db 70)
           sample_app 2).
  - apply sample_db_unique_ids. lia.
  - right. apply Nat.ltb_lt. vm_compute. reflexivity.
Defined.

Lemma near_me_settles_radius_witness :
  exists st',
    App.loadNearMe (D := RealOps) None 0%R 0%R true sample_app
    = Client.Returns st' /\
    App.nearMeRadius st' = 500.
Proof.
  eexists. split; [vm_compute; reflexivity|].
  exact (proj1 (near_me_settles_radius (D := RealOps) None 0%R 0%R sample_app _
                  eq_refl)).
Defined.

Lemma resolve_place_validates_first_witness :
  (Place.js "x" = [] \/ Place.length (Place.trim (Place.js "x")) < 2
   \/ 80 < Place.length (Place.trim (Place.js "x"))) /\
  Place.handler Place.ascii_toLowerCase sample_parseFloat sample_isNaN
    (sample_env (Place.Results [oslo])) ∅ (Place.Post (Some (Place.js "x")))
  = (Place.mkResponse 400 (Place.Error "Query too short (min 2 characters)"),
     None).
Proof.
  assert (Place.js "x" = [] \/ Place.length (Place.trim (Place.js "x")) < 2
          \/ 80 < Place.length (Place.trim (Place.js "x"))) as H
    by (right; left; reflexivity).
  split; [exact H|].
  exact (proj1 (resolve_place_validates_first Place.ascii_toLowerCase
                  sample_number sample_parseFloat sample_isNaN
                  (sample_env (Place.Results [oslo])) ∅
                  (Some (Place.js "x")) H)).
Defined.



Lemma cache_only_grows_witness :
  keyed_by_query (∅ : gmap Place.jsstring (Place.cache_row sample_number)) /\
  keyed_by_query
    (Place.after_write ∅
       (snd (Place.handler Place.ascii_toLowerCase sample_parseFloat
               sample_isNaN (sample_env (Place.Results [oslo])) ∅
               (Place.Post (Some (Place.js "Oslo")))))).
Proof.
  assert (keyed_by_query
            (∅ : gmap Place.jsstring (Place.cache_row sample_number))) as H
    by (intros k r Hk; by rewrite lookup_empty in Hk).
  split; [exact H|].
  exact (proj1 (cache_only_grows Place.ascii_toLowerCase sample_number
                  sample_parseFloat sample_isNaN
                  (sample_env (Place.Results [oslo])) ∅ ∅
                  (Place.Post (Some (Place.js "Oslo"))) H)).
Defined.

Lemma resolve_place_ignores_padding_witness :
  Place.js "Oslo" <> [] /\ blank (Place.js "  ") /\ blank (Place.js " ") /\
  Place.handler Place.ascii_toLowerCase sample_parseFloat sample_isNaN
    (sample_env (Place.Results [oslo])) ∅
    (Place.Post (Some (Place.js "  " ++ Place.js "Oslo" ++ Place.js " ")))
  = Place.handler Place.ascii_toLowerCase sample_parseFloat sample_isNaN
      (sample_env (Place.Results [oslo])) ∅ (Place.Post (Some (Place.js "Oslo"))).
Proof.
  assert (Place.js "Oslo" <> []) as Hq by discriminate.
  split; [exact Hq|]. split; [reflexivity|]. split; [reflexivity|].
  exact (resolve_place_ignores_padding Place.ascii_toLowerCase sample_number
           sample_parseFloat sample_isNaN (sample_env (Place.Results [oslo])) ∅
           (Place.js "Oslo") (Place.js "  ") (Place.js " ") Hq eq_refl eq_refl).
Defined.

Lemma cached_place_found_again_witness :
  blank (Place.js " ") /\ blank (Place.js "  ") /\
  PlaceCache.getCachedPlace Place.ascii_toLowerCase
    (PlaceCache.setCachedPlace Place.ascii_toLowerCase ∅ oslo_place)
    (Place.js " " ++ PlaceCache.query oslo_place ++ Place.js "  ")
  = Some oslo_place.
Proof.
  split; [reflexivity|]. split; [reflexivity|].
  exact (proj1 (cached_place_found_again Place.ascii_toLowerCase sample_number
                  ∅ oslo_place (Place.js " ") (Place.js "  ") (Place.js "Bergen")
                  eq_refl eq_refl)).
Defined.

Lemma session_hash_rotates_daily_witness :
  "u1"%string <> ""%string /\
  exists stamp,
    snd (Analytics.getSessionHash 1000 1001 "u1" (Analytics.Available None None))
    = Analytics.Available
        (Some (fst (Analytics.getSessionHash 1000 1001 "u1"
                      (Analytics.Available None None))))
        (Some stamp) /\
    (Analytics.SESSION_TTL_MS <= 90000000 - stamp ->
     Analytics.getSessionHash 90000000 90000001 "u2"
       (snd (Analytics.getSessionHash 1000 1001 "u1"
               (Analytics.Available None None)))
     = ("u2"%string, Analytics.Available (Some "u2"%string) (Some 90000001))).
Proof.
  assert ("u1"%string <> ""%string) as H by discriminate.
  split; [exact H|].
  destruct (session_hash_rotates_daily 1000 1001 "u1" None None
              90000000 90000001 "u2" H) as (stamp & Hst & _ & _ & Hnew).
  exists stamp. split; [exact Hst|exact Hnew].
Defined.

Lemma armed_only_after_four_fetches_witness :
  Session.adArmed
    (Session.state
       (Session.world
          (Session.run "s1" (Session.mkWorld Session.initial_state None)
             [Session.EPageFetch; Session.EPageFetch; Session.EPageFetch;
              Session.EPageFetch; Session.EPageFetch]))) = true /\
  (4 <= Session.pageFetchCount
          (Session.state
             (Session.world
                (Session.run "s1" (Session.mkWorld Session.initial_state None)
                   [Session.EPageFetch; Session.EPageFetch; Session.EPageFetch;
                    Session.EPageFetch; Session.EPageFetch]))))%N.
Proof.
  split; [reflexivity|].
  exact (proj1 (armed_only_after_four_fetches "s1"
                  (Session.mkWorld Session.initial_state None)
                  [Session.EPageFetch; Session.EPageFetch; Session.EPageFetch;
                   Session.EPageFetch; Session.EPageFetch] eq_refl)).
Defined.

Lemma cursor_without_id_witness :
  unique_ids (sample_db 3) /\
  Feed.get_confess_feed 500 (sample_db 3)
    (@Feed.mkFeedArgs RealOps (Some (lit "world")) None
       (Some (created_at (sample_row 2))) None None None None)
  = Returned (List.map select_fields [sample_row 1]) (sample_db 3) /\
  List.Forall (fun r => r_created_at r < created_at (sample_row 2))
    (List.map select_fields [sample_row 1]).
Proof.
  assert (unique_ids (sample_db 3)) as Hids by (apply sample_db_unique_ids; lia).
  assert (Feed.get_confess_feed 500 (sample_db 3)
            (@Feed.mkFeedArgs RealOps (Some (lit "world")) None
               (Some (created_at (sample_row 2))) None None None None)
          = Returned (List.map select_fields [sample_row 1]) (sample_db 3))
    as Hret by (vm_compute; reflexivity).
  split; [exact Hids|]. split; [exact Hret|].
  exact (proj2 (cursor_without_id (D := RealOps) 500 (sample_db 3)
                  (@Feed.mkFeedArgs RealOps (Some (lit "world")) None
                     (Some (created_at (sample_row 2))) None None None None)
                  (created_at (sample_row 2)) _ _ Hids eq_refl eq_refl Hret)).
Defined.

Lemma feed_arguments_ignored_witness :
  Feed.p_mode (@Feed.mkFeedArgs RealOps None None None None None None None)
    <> Some (lit "near") /\
  Feed.get_confess_feed 500 (sample_db 3)
    (@Feed.mkFeedArgs RealOps None None None None (Some 0%R) None (Some 100))
  = Feed.get_confess_feed 500 (sample_db 3)
      (@Feed.mkFeedArgs RealOps None None None None None None None).
Proof.
  assert (Feed.p_mode
            (@Feed.mkFeedArgs RealOps None None None None None None None)
          <> Some (lit "near")) as H by discriminate.
  split; [exact H|].
  exact (proj2 (proj1 (proj2 (feed_arguments_ignored (D := RealOps) 500
                                (sample_db 3)
                                (@Feed.mkFeedArgs RealOps None None None None
                                   None None None))) H)
           (Some 0%R) None (Some 100)).
Defined.
